(** * seller-apis: stock and price synchronisation for two marketplaces

    A shallow embedding of [seller.py] (the seller platform) and [market.py]
    (the market platform): offer listing, stock reconciliation, price
    transformation, batch chunking and upload orchestration, together with
    the properties of the specification that concern them.

    Conventions of the embedding.
    - A Python [str] is a [string] holding its UTF-8 encoding.  Equality,
      splitting at "." and deleting the characters outside 0-9 give the
      same result on the encoding as on the code points; [int()] decodes
      the string first, and reads it as Python 3.11 does.
    - A Python exception is a value of [exn]; a function that may raise
      returns a [result].
    - Code that mutates a list object, reads the clock or talks to the
      platform runs in the monad [M] over an explicit [world]. *)

From Stdlib Require Import ZArith String Ascii List Lia Permutation.
From Stdlib Require Import DecimalString.
From Stdlib Require DecimalPos DecimalZ.
From stdpp Require Import gmap strings list.

(** ** Exceptions and results *)

Inductive exn : Set :=
  | ValueError
  | TypeError
  | AttributeError
  | IndexError
  | NameError
  | HTTPError.

Inductive result (A : Type) : Type :=
  | Ok (a : A)
  | Err (e : exn).
Arguments Ok {A} a.
Arguments Err {A} e.

Definition rbind {A B} (r : result A) (k : A → result B) : result B :=
  match r with
  | Ok a => k a
  | Err e => Err e
  end.

(** ** Python builtins used by the program *)

Module Py.

Definition is_digit (c : ascii) : bool :=
  let n := nat_of_ascii c in (48 <=? n)%nat && (n <=? 57)%nat.

(** Whitespace as [int()] skips it in an ASCII string: TAB, LF, VT, FF, CR
    and SPACE. *)
Definition is_space (c : ascii) : bool :=
  let n := nat_of_ascii c in
  ((9 <=? n)%nat && (n <=? 13)%nat) || (n =? 32)%nat.

Definition digit_value (c : ascii) : Z := Z.of_nat (nat_of_ascii c - 48).

Fixpoint lstrip (cs : list ascii) : list ascii :=
  match cs with
  | c :: r => if is_space c then lstrip r else cs
  | [] => []
  end.

Definition strip (cs : list ascii) : list ascii :=
  rev (lstrip (rev (lstrip cs))).

(** Digits with single underscores between them; [prev_us] tells that the
    character just read was an underscore. *)
Fixpoint digits_tail (acc : Z) (prev_us : bool) (cs : list ascii) : option Z :=
  match cs with
  | [] => if prev_us then None else Some acc
  | c :: r =>
      if is_digit c then digits_tail (10 * acc + digit_value c) false r
      else if Ascii.eqb c "_" then
             if prev_us then None else digits_tail acc true r
      else None
  end.

Definition digits (cs : list ascii) : option Z :=
  match cs with
  | c :: r => if is_digit c then digits_tail (digit_value c) false r else None
  | [] => None
  end.

(** The code points of a string: its UTF-8 decoding, a lone surrogate,
    which a [str] may hold, being written as any other code point.  A
    sequence of bytes that no [str] encodes (a stray or missing
    continuation byte, an overlong form, a value above U+10FFFF) has
    none. *)
Definition continuation (c : ascii) : option N :=
  let n := N_of_ascii c in
  if (128 <=? n)%N && (n <? 192)%N then Some (n - 128)%N else None.

Definition code_point (low high cp : N) : option N :=
  if (low <=? cp)%N && (cp <=? high)%N then Some cp else None.

Fixpoint utf8_decode (bs : list ascii) : option (list N) :=
  match bs with
  | [] => Some []
  | b0 :: r0 =>
      let n0 := N_of_ascii b0 in
      if (n0 <? 128)%N then cons n0 <$> utf8_decode r0
      else if (n0 <? 192)%N then None
      else if (n0 <? 224)%N then
        match r0 with
        | b1 :: r1 =>
            n1 ← continuation b1;
            cp ← code_point 128 2047 ((n0 - 192) * 64 + n1);
            cons cp <$> utf8_decode r1
        | _ => None
        end
      else if (n0 <? 240)%N then
        match r0 with
        | b1 :: b2 :: r2 =>
            n1 ← continuation b1;
            n2 ← continuation b2;
            cp ← code_point 2048 65535 (((n0 - 224) * 64 + n1) * 64 + n2);
            cons cp <$> utf8_decode r2
        | _ => None
        end
      else if (n0 <? 248)%N then
        match r0 with
        | b1 :: b2 :: b3 :: r3 =>
            n1 ← continuation b1;
            n2 ← continuation b2;
            n3 ← continuation b3;
            cp ← code_point 65536 1114111
                   ((((n0 - 240) * 64 + n1) * 64 + n2) * 64 + n3);
            cons cp <$> utf8_decode r3
        | _ => None
        end
      else None
  end.

(** [str.isspace] on the code points from 127 on: NEL, NBSP, the Ogham
    space mark, the spaces U+2000 to U+200A, the line and paragraph
    separators, the narrow no-break, medium mathematical and ideographic
    spaces. *)
Definition unicode_isspace (cp : N) : bool :=
  bool_decide (cp ∈ [133; 160; 5760; 8232; 8233; 8239; 8287; 12288]%N)
  || (8192 <=? cp)%N && (cp <=? 8202)%N.

(** The decimal digits of Unicode 14.0, the database of Python 3.11: 66
    runs of ten code points, each run the digits 0 to 9 of one script,
    given by the code point of its zero. *)
Definition unicode_zeros : list N :=
  [48; 1632; 1776; 1984; 2406; 2534; 2662; 2790; 2918; 3046; 3174; 3302;
   3430; 3558; 3664; 3792; 3872; 4160; 4240; 6112; 6160; 6470; 6608; 6784;
   6800; 6992; 7088; 7232; 7248; 42528; 43216; 43264; 43472; 43504; 43600;
   44016; 65296; 66720; 68912; 69734; 69872; 69942; 70096; 70384; 70736;
   70864; 71248; 71360; 71472; 71904; 72016; 72784; 73040; 73120; 92768;
   92864; 93008; 120782; 120792; 120802; 120812; 120822; 123200; 123632;
   125264; 130032]%N.

(** [Py_UNICODE_TODECIMAL] *)
Definition unicode_todecimal (cp : N) : option N :=
  (λ zero, cp - zero)%N
    <$> find (λ zero, (zero <=? cp)%N && (cp <? zero + 10)%N) unicode_zeros.

(** What [int()] does to a string before it reads it
    ([_PyUnicode_TransformDecimalAndSpaceToASCII]): a code point below 127
    is kept, a space from 127 on becomes " ", a decimal digit from 127 on
    becomes the ASCII digit of its value, and any other code point makes
    the string no number. *)
Definition transform_decimal_and_space_to_ascii (cp : N) : option ascii :=
  if (cp <? 127)%N then Some (ascii_of_N cp)
  else if unicode_isspace cp then Some " "%char
  else (λ d, ascii_of_N (48 + d)) <$> unicode_todecimal cp.

(** [sys.get_int_max_str_digits()]: the interpreter's default, which the
    program leaves as it is. *)
Definition int_max_str_digits : nat := 4300.

(** [PyLong_FromString] in base 10: surrounding whitespace, an optional
    sign, then digits with single underscores between them, no more than
    [int_max_str_digits] digits in all. *)
Definition long_from_string (cs : list ascii) : option Z :=
  let cs := strip cs in
  if (int_max_str_digits <? length (List.filter is_digit cs))%nat then None
  else match cs with
       | "+"%char :: r => digits r
       | "-"%char :: r => Z.opp <$> digits r
       | cs => digits cs
       end.

(** [int(s)] for a string [s]; [None] stands for [ValueError]. *)
Definition py_int_of_str (s : string) : option Z :=
  cps ← utf8_decode (list_ascii_of_string s);
  cs ← mapM transform_decimal_and_space_to_ascii cps;
  long_from_string cs.

(** [str(z)] for an integer [z] of a cell.  The integers of a sheet are
    its numbers without fraction, doubles, so they have 309 digits at
    most and [str] never meets its own limit on digits. *)
Definition py_str_of_int (z : Z) : string :=
  NilZero.string_of_int (Z.to_int z).

(** [len(l)] *)
Definition len {A} (l : list A) : Z := Z.of_nat (length l).

(** [range(start, stop, step)], as the list of the values it yields.
    A zero step raises [ValueError]. *)
Definition range_length (start stop step : Z) : Z :=
  if (0 <? step)%Z then
    if (start <? stop)%Z then ((stop - start - 1) / step + 1)%Z else 0%Z
  else
    if (stop <? start)%Z then ((start - stop - 1) / (- step) + 1)%Z else 0%Z.

Definition range (start stop step : Z) : result (list Z) :=
  if (step =? 0)%Z then Err ValueError
  else Ok (map (λ k : nat, (start + Z.of_nat k * step)%Z)
             (seq 0 (Z.to_nat (range_length start stop step)))).

(** [l[i:j]]: negative bounds count from the end, all bounds are clamped
    to the list. *)
Definition clamp (n k : Z) : Z :=
  if (k <? 0)%Z then Z.max 0 (k + n) else Z.min k n.

Definition slice {A} (l : list A) (i j : Z) : list A :=
  let lo := clamp (len l) i in
  let hi := clamp (len l) j in
  take (Z.to_nat (hi - lo)) (drop (Z.to_nat lo) l).

(** [s.split(sep)] for a separator of one character: the pieces between
    the occurrences of [sep]; always at least one piece. *)
Fixpoint split (sep : ascii) (s : string) : list string :=
  match s with
  | EmptyString => [EmptyString]
  | String c r =>
      if Ascii.eqb c sep then EmptyString :: split sep r
      else match split sep r with
           | p :: ps => String c p :: ps
           | [] => [String c EmptyString]
           end
  end.

(** [re.sub("[^0-9]", "", s)]: every character outside 0-9 is deleted. *)
Fixpoint re_sub_non_digit (s : string) : string :=
  match s with
  | EmptyString => EmptyString
  | String c r =>
      if is_digit c then String c (re_sub_non_digit r) else re_sub_non_digit r
  end.

(** [x in l] and [l.remove(x)] on a list of strings; [remove] deletes the
    first occurrence and raises [ValueError] when there is none. *)
Fixpoint contains (x : string) (l : list string) : bool :=
  match l with
  | [] => false
  | y :: r => String.eqb y x || contains x r
  end.

Fixpoint remove (x : string) (l : list string) : result (list string) :=
  match l with
  | [] => Err ValueError
  | y :: r => if String.eqb y x then Ok r
              else rbind (remove x r) (λ r', Ok (y :: r'))
  end.

(** [list(filter(f, l))] for a predicate [f] that may raise. *)
Fixpoint filter_r {A} (f : A → result bool) (l : list A) : result (list A) :=
  match l with
  | [] => Ok []
  | x :: r =>
      rbind (f x) (λ keep : bool,
      rbind (filter_r f r) (λ r', Ok (if keep then x :: r' else r')))
  end.

End Py.

(** ** Spreadsheet cells and inventory records *)

(** A cell of the vendor spreadsheet as [pandas] hands it over: an integer,
    a string, or nothing ([dict.get] of a missing column gives [None]). *)
Inductive cell : Set :=
  | CNone
  | CInt (z : Z)
  | CStr (s : string).

(** [str(c)] *)
Definition py_str (c : cell) : string :=
  match c with
  | CNone => "None"
  | CInt z => Py.py_str_of_int z
  | CStr s => s
  end.

(** [int(c)] *)
Definition py_int (c : cell) : result Z :=
  match c with
  | CNone => Err TypeError
  | CInt z => Ok z
  | CStr s => match Py.py_int_of_str s with
              | Some z => Ok z
              | None => Err ValueError
              end
  end.

(** One row of the spreadsheet; the columns read by the program are
    "Код" ([kod]), "Количество" ([kolichestvo]) and "Цена" ([tsena]). *)
Record watch : Set := Watch {
  kod : cell;
  kolichestvo : cell;
  tsena : cell
}.

(** ** seller.py: pure functions *)

(** [price_conversion(price)], lines 234-248. *)
Definition price_conversion (price : string) : string :=
  Py.re_sub_non_digit (hd EmptyString (Py.split "." price)).

(** [divide(lst, n)], lines 251-267, as the list of the chunks the
    generator yields when it is iterated to its end ([list(divide(lst, n))]
    at every call site). *)
Definition divide {A} (lst : list A) (n : Z) : result (list (list A)) :=
  rbind (Py.range 0 (Py.len lst) n)
        (λ starts, Ok (map (λ i, Py.slice lst i (i + n)) starts)).

(** ** The world: list objects, the clock, the platform *)

(** A list object lives in the heap and is named by its location, so that
    two names of one list see each other's mutations. *)
Abbreviation loc := positive.

(** A reading of [datetime.datetime.utcnow()]. *)
Record datetime : Set := DateTime {
  year : nat; month : nat; day : nat;
  hour : nat; minute : nat; second : nat;
  microsecond : nat
}.

(** [d.replace(microsecond=us)] *)
Definition replace_microsecond (d : datetime) (us : nat) : datetime :=
  DateTime (year d) (month d) (day d) (hour d) (minute d) (second d) us.

Fixpoint zeros (n : nat) : string :=
  match n with
  | O => EmptyString
  | S n => String "0" (zeros n)
  end.

Definition pad (width n : nat) : string :=
  let s := NilZero.string_of_uint (Nat.to_uint n) in
  zeros (width - String.length s) +:+ s.

(** [d.isoformat()]: the fraction is printed only when it is not zero. *)
Definition isoformat (d : datetime) : string :=
  pad 4 (year d) +:+ "-" +:+ pad 2 (month d) +:+ "-" +:+ pad 2 (day d) +:+ "T"
  +:+ pad 2 (hour d) +:+ ":" +:+ pad 2 (minute d) +:+ ":" +:+ pad 2 (second d)
  +:+ (if Nat.eqb (microsecond d) 0 then EmptyString
       else "." +:+ pad 6 (microsecond d)).

(** The world of one run.  [replies i] is what the platform answers to the
    [i]-th request of the run ([Err] when the transport fails or
    [raise_for_status] raises); [sent] lists the requests made so far,
    answered or refused, the latest first. *)
Record world (Rq Rp : Type) : Type := World {
  heap : gmap loc (list string);
  now : datetime;
  replies : nat → result Rp;
  sent : list Rq
}.
Arguments World {Rq Rp} heap now replies sent.
Arguments heap {Rq Rp} w.
Arguments now {Rq Rp} w.
Arguments replies {Rq Rp} w.
Arguments sent {Rq Rp} w.

(** What a computation comes to: it returns a value and leaves a world, it
    raises and leaves the world as it is when the exception is raised, or
    the bound on the iterations of a [while True] loop is used up. *)
Inductive outcome (W A : Type) : Type :=
  | Done (r : A * W)
  | Raised (e : exn) (σ : W)
  | OutOfFuel.
Arguments Done {W A} r.
Arguments Raised {W A} e σ.
Arguments OutOfFuel {W A}.

Definition M (W A : Type) : Type := W → outcome W A.

#[global] Instance M_ret {W} : MRet (M W) := λ A a σ, Done (a, σ).

#[global] Instance M_bind {W} : MBind (M W) := λ A B k m σ,
  match m σ with
  | Done (a, σ') => k a σ'
  | Raised e σ' => Raised e σ'
  | OutOfFuel => OutOfFuel
  end.

Definition lift {W A} (r : result A) : M W A := λ σ,
  match r with
  | Ok a => Done (a, σ)
  | Err e => Raised e σ
  end.

Definition out_of_fuel {W A} : M W A := λ _, OutOfFuel.

Section WorldOps.
Context {Rq Rp : Type}.
Abbreviation W := (world Rq Rp).

Definition set_heap (h : gmap loc (list string)) (σ : W) : W :=
  World h (now σ) (replies σ) (sent σ).

Definition set_now (t : datetime) (σ : W) : W :=
  World (heap σ) t (replies σ) (sent σ).

(** Reading the list object at [l]. *)
Definition list_read (l : loc) : M W (list string) := λ σ,
  match heap σ !! l with
  | Some ids => Done (ids, σ)
  | None => Raised NameError σ
  end.

Definition list_write (l : loc) (ids : list string) : M W unit := λ σ,
  Done ((), set_heap (<[l := ids]> (heap σ)) σ).

(** [x in l] *)
Definition list_contains (l : loc) (x : string) : M W bool :=
  ids ← list_read l; mret (Py.contains x ids).

(** [l.remove(x)] *)
Definition list_remove (l : loc) (x : string) : M W unit :=
  ids ← list_read l;
  ids' ← lift (Py.remove x ids);
  list_write l ids'.

(** A new list object. *)
Definition list_new (ids : list string) : M W loc := λ σ,
  let l := fresh (dom (heap σ)) in
  Done (l, set_heap (<[l := ids]> (heap σ)) σ).

(** [datetime.datetime.utcnow()] *)
Definition utcnow : M W datetime := λ σ, Done (now σ, σ).

(** Time passing between two calls: the clock shows [t] afterwards. *)
Definition elapse (t : datetime) : M W unit := λ σ, Done ((), set_now t σ).

(** One HTTP exchange followed by [response.raise_for_status()] and
    [response.json()]; the request counts as made whether it is answered
    or refused. *)
Definition request (rq : Rq) : M W Rp := λ σ,
  match replies σ (length (sent σ)) with
  | Ok rp => Done (rp, World (heap σ) (now σ) (replies σ) (rq :: sent σ))
  | Err e => Raised e (World (heap σ) (now σ) (replies σ) (rq :: sent σ))
  end.

(** [for x in l: f(x)] *)
Fixpoint for_each {A} (f : A → M W unit) (l : list A) : M W unit :=
  match l with
  | [] => mret ()
  | x :: r => _ ← f x; for_each f r
  end.

End WorldOps.

(** ** Coroutine functions

    Calling a function declared [async def] runs none of its body: the
    call gives a coroutine object, and the body runs only when the object
    is awaited. *)
Inductive coroutine (W A : Type) : Type :=
  | Coroutine (body : M W A).
Arguments Coroutine {W A} body.

Definition call_async {W A} (body : M W A) : M W (coroutine W A) := λ σ,
  Done (Coroutine body, σ).

(** ** Quantity normalisation

    seller.py lines 184-190 and market.py lines 170-176, the same text in
    both: [count = str(watch.get("Количество"))], then the two sentinels,
    then [int(watch.get("Количество"))]. *)
Definition normalize_quantity (quantity : cell) : result Z :=
  let count := py_str quantity in
  if String.eqb count ">10" then Ok 100%Z
  else if String.eqb count "1" then Ok 0%Z
  else py_int quantity.

(** [price_conversion(watch.get("Цена"))]: a cell that is not a string has
    no [split]. *)
Definition call_price_conversion (price : cell) : result string :=
  match price with
  | CStr s => Ok (price_conversion s)
  | _ => Err AttributeError
  end.

(** ** seller.py *)

Module Seller.

(** An entry of the product list and a page of it, as [get_product_list]
    returns it: [{"items": [...], "total": 1, "last_id": "bnVсbA=="}]. *)
Record product : Set := Product {
  product_id : Z;
  p_offer_id : string
}.

Record product_page : Set := ProductPage {
  items : list product;
  total : Z;
  last_id : string
}.

(** [{"offer_id": ..., "stock": ...}] *)
Record stock_record : Set := Stock {
  offer_id : string;
  stock : Z
}.

Record price_record : Set := Price {
  auto_action_enabled : string;
  currency_code : string;
  pr_offer_id : string;
  old_price : string;
  price : string
}.

(** The three requests of the module, with their payloads.  The
    credentials travel in the headers of every request and decide nothing
    here; they are left out. *)
Inductive call : Type :=
  | ProductList (visibility : string) (last_id : string) (limit : Z)
  | ImportStocks (stocks : list stock_record)
  | ImportPrices (prices : list price_record).

Inductive reply : Type :=
  | ProductListResult (result : product_page)
  | ImportReport.

Abbreviation W := (world call reply).

(** [get_product_list(last_id, client_id, seller_token)], lines 14-45. *)
Definition get_product_list (last_id : string) : M W product_page :=
  response_object ← request (ProductList "ALL" last_id 1000);
  match response_object with
  | ProductListResult result => mret result
  | ImportReport => lift (Err AttributeError)
  end.

(** The [while True] loop of [get_offer_ids], lines 67-73; [fuel] bounds
    the number of iterations. *)
Fixpoint get_offer_ids_loop (fuel : nat) (last_id : string)
    (product_list : list product) : M W (list product) :=
  match fuel with
  | O => out_of_fuel
  | S fuel =>
      some_prod ← get_product_list last_id;
      let product_list := product_list ++ items some_prod in
      let total := total some_prod in
      let last_id := Seller.last_id some_prod in
      if (total =? Py.len product_list)%Z then mret product_list
      else get_offer_ids_loop fuel last_id product_list
  end.

(** [get_offer_ids(client_id, seller_token)], lines 48-77.  The list it
    returns is a new list object. *)
Definition get_offer_ids (fuel : nat) : M W loc :=
  product_list ← get_offer_ids_loop fuel "" [];
  let offer_ids :=
    foldl (λ offer_ids product, offer_ids ++ [p_offer_id product]) [] product_list in
  list_new offer_ids.

(** [update_price(prices, ...)], lines 80-106, and
    [update_stocks(stocks, ...)], lines 109-135. *)
Definition update_price (prices : list price_record) : M W reply :=
  request (ImportPrices prices).

Definition update_stocks (stocks : list stock_record) : M W reply :=
  request (ImportStocks stocks).

(** The first loop of [create_stocks], lines 182-192. *)
Fixpoint create_stocks_matched (watch_remnants : list watch) (offer_ids : loc)
    (stocks : list stock_record) : M W (list stock_record) :=
  match watch_remnants with
  | [] => mret stocks
  | watch :: watch_remnants =>
      found ← list_contains offer_ids (py_str (kod watch));
      if found : bool then
        stock ← lift (normalize_quantity (kolichestvo watch));
        let stocks := stocks ++ [Stock (py_str (kod watch)) stock] in
        _ ← list_remove offer_ids (py_str (kod watch));
        create_stocks_matched watch_remnants offer_ids stocks
      else create_stocks_matched watch_remnants offer_ids stocks
  end.

(** [create_stocks(watch_remnants, offer_ids)], lines 165-196. *)
Definition create_stocks (watch_remnants : list watch) (offer_ids : loc)
    : M W (list stock_record) :=
  stocks ← create_stocks_matched watch_remnants offer_ids [];
  remaining ← list_read offer_ids;
  mret (foldl (λ stocks offer_id, stocks ++ [Stock offer_id 0]) stocks remaining).

(** The loop of [create_prices], lines 221-230. *)
Fixpoint create_prices_loop (watch_remnants : list watch) (offer_ids : loc)
    (prices : list price_record) : M W (list price_record) :=
  match watch_remnants with
  | [] => mret prices
  | watch :: watch_remnants =>
      found ← list_contains offer_ids (py_str (kod watch));
      if found : bool then
        converted ← lift (call_price_conversion (tsena watch));
        let price := Price "UNKNOWN" "RUB" (py_str (kod watch)) "0" converted in
        create_prices_loop watch_remnants offer_ids (prices ++ [price])
      else create_prices_loop watch_remnants offer_ids prices
  end.

(** [create_prices(watch_remnants, offer_ids)], lines 199-231. *)
Definition create_prices (watch_remnants : list watch) (offer_ids : loc)
    : M W (list price_record) :=
  create_prices_loop watch_remnants offer_ids [].

(** The body of the coroutine [upload_prices], lines 270-296. *)
Definition upload_prices (fuel : nat) (watch_remnants : list watch)
    : M W (list price_record) :=
  offer_ids ← get_offer_ids fuel;
  prices ← create_prices watch_remnants offer_ids;
  chunks ← lift (divide prices 1000);
  _ ← for_each (λ some_price, _ ← update_price some_price; mret ()) chunks;
  mret prices.

(** The body of the coroutine [upload_stocks], lines 299-321. *)
Definition upload_stocks (fuel : nat) (watch_remnants : list watch)
    : M W (list stock_record * list stock_record) :=
  offer_ids ← get_offer_ids fuel;
  stocks ← create_stocks watch_remnants offer_ids;
  chunks ← lift (divide stocks 100);
  _ ← for_each (λ some_stock, _ ← update_stocks some_stock; mret ()) chunks;
  let not_empty := filter (λ stock, Seller.stock stock ≠ 0%Z) stocks in
  mret (not_empty, stocks).

(** The [try] block of [main], lines 330-339, given the table that
    [download_stock()] returns; the result is the pair of the local
    variables [stocks] and [prices]. *)
Definition main_try (fuel : nat) (watch_remnants : list watch)
    : M W (list stock_record * list price_record) :=
  offer_ids ← get_offer_ids fuel;
  stocks ← create_stocks watch_remnants offer_ids;
  chunks ← lift (divide stocks 100);
  _ ← for_each (λ some_stock, _ ← update_stocks some_stock; mret ()) chunks;
  prices ← create_prices watch_remnants offer_ids;
  chunks ← lift (divide prices 900);
  _ ← for_each (λ some_price, _ ← update_price some_price; mret ()) chunks;
  mret (stocks, prices).

End Seller.

(** ** market.py *)

Module Market.

(** A page of offer mapping entries, as [get_product_list] returns it:
    [{"paging": {"nextPageToken": ...}, "offerMappingEntries": [...]}];
    a missing [nextPageToken] is [None]. *)
Record offer_record : Set := Offer { shopSku : string }.

Record mapping_entry : Set := MappingEntry { offer : offer_record }.

Record paging_record : Set := Paging { nextPageToken : option string }.

Record entries_page : Set := EntriesPage {
  offerMappingEntries : list mapping_entry;
  paging : paging_record
}.

(** [{"sku": ..., "warehouseId": ..., "items": [{"count": ..., "type":
    "FIT", "updatedAt": ...}]}] *)
Record item_record : Set := Item {
  count : Z;
  type : string;
  updatedAt : string
}.

Record sku_record : Set := Sku {
  sku : string;
  warehouseId : string;
  items : list item_record
}.

(** [{"id": ..., "price": {"value": ..., "currencyId": "RUR"}}] *)
Record price_value : Set := PriceValue {
  value : Z;
  currencyId : string
}.

Record price_record : Set := Price {
  id : string;
  price : price_value
}.

Inductive call : Type :=
  | OfferMappingEntries (page_token : option string) (limit : Z)
  | PutStocks (skus : list sku_record)
  | PostPrices (offers : list price_record).

Inductive reply : Type :=
  | EntriesResult (result : entries_page)
  | UpdateStatus.

Abbreviation W := (world call reply).

(** [not page] for the value of [nextPageToken]: [None] and the empty
    string are false. *)
Definition not_ (page : option string) : bool :=
  match page with
  | None => true
  | Some s => String.eqb s ""
  end.

(** [get_product_list(page, campaign_id, access_token)], lines 13-44. *)
Definition get_product_list (page : option string) : M W entries_page :=
  response_object ← request (OfferMappingEntries page 200);
  match response_object with
  | EntriesResult result => mret result
  | UpdateStatus => lift (Err AttributeError)
  end.

(** [update_stocks], lines 47-78, and [update_price], lines 81-114. *)
Definition update_stocks (stocks : list sku_record) : M W reply :=
  request (PutStocks stocks).

Definition update_price (prices : list price_record) : M W reply :=
  request (PostPrices prices).

(** The [while True] loop of [get_offer_ids], lines 136-141. *)
Fixpoint get_offer_ids_loop (fuel : nat) (page : option string)
    (product_list : list mapping_entry) : M W (list mapping_entry) :=
  match fuel with
  | O => out_of_fuel
  | S fuel =>
      some_prod ← get_product_list page;
      let product_list := product_list ++ offerMappingEntries some_prod in
      let page := nextPageToken (paging some_prod) in
      if not_ page then mret product_list
      else get_offer_ids_loop fuel page product_list
  end.

(** [get_offer_ids(campaign_id, market_token)], lines 117-145. *)
Definition get_offer_ids (fuel : nat) : M W loc :=
  product_list ← get_offer_ids_loop fuel (Some EmptyString) [];
  let offer_ids :=
    foldl (λ offer_ids product, offer_ids ++ [shopSku (offer product)])
          [] product_list in
  list_new offer_ids.

(** The first loop of [create_stocks], lines 168-190. *)
Fixpoint create_stocks_matched (watch_remnants : list watch) (offer_ids : loc)
    (warehouse_id date : string) (stocks : list sku_record)
    : M W (list sku_record) :=
  match watch_remnants with
  | [] => mret stocks
  | watch :: watch_remnants =>
      found ← list_contains offer_ids (py_str (kod watch));
      if found : bool then
        stock ← lift (normalize_quantity (kolichestvo watch));
        let stocks :=
          stocks ++ [Sku (py_str (kod watch)) warehouse_id [Item stock "FIT" date]] in
        _ ← list_remove offer_ids (py_str (kod watch));
        create_stocks_matched watch_remnants offer_ids warehouse_id date stocks
      else create_stocks_matched watch_remnants offer_ids warehouse_id date stocks
  end.

(** [create_stocks(watch_remnants, offer_ids, warehouse_id)],
    lines 148-206. *)
Definition create_stocks (watch_remnants : list watch) (offer_ids : loc)
    (warehouse_id : string) : M W (list sku_record) :=
  utc ← utcnow;
  let date := isoformat (replace_microsecond utc 0) +:+ "Z" in
  stocks ← create_stocks_matched watch_remnants offer_ids warehouse_id date [];
  remaining ← list_read offer_ids;
  mret (foldl (λ stocks offer_id,
                 stocks ++ [Sku offer_id warehouse_id [Item 0 "FIT" date]])
              stocks remaining).

(** The loop of [create_prices], lines 225-239. *)
Fixpoint create_prices_loop (watch_remnants : list watch) (offer_ids : loc)
    (prices : list price_record) : M W (list price_record) :=
  match watch_remnants with
  | [] => mret prices
  | watch :: watch_remnants =>
      found ← list_contains offer_ids (py_str (kod watch));
      if found : bool then
        converted ← lift (call_price_conversion (tsena watch));
        value ← lift (py_int (CStr converted));
        let price := Price (py_str (kod watch)) (PriceValue value "RUR") in
        create_prices_loop watch_remnants offer_ids (prices ++ [price])
      else create_prices_loop watch_remnants offer_ids prices
  end.

(** [create_prices(watch_remnants, offer_ids)], lines 209-240. *)
Definition create_prices (watch_remnants : list watch) (offer_ids : loc)
    : M W (list price_record) :=
  create_prices_loop watch_remnants offer_ids [].

(** The body of the coroutine [upload_prices], lines 243-263. *)
Definition upload_prices (fuel : nat) (watch_remnants : list watch)
    : M W (list price_record) :=
  offer_ids ← get_offer_ids fuel;
  prices ← create_prices watch_remnants offer_ids;
  chunks ← lift (divide prices 500);
  _ ← for_each (λ some_prices, _ ← update_price some_prices; mret ()) chunks;
  mret prices.

(** [stock.get("items")[0].get("count") != 0] *)
Definition count_not_zero (stock : sku_record) : result bool :=
  match items stock with
  | item :: _ => Ok (negb (count item =? 0)%Z)
  | [] => Err IndexError
  end.

(** The body of the coroutine [upload_stocks], lines 266-293. *)
Definition upload_stocks (fuel : nat) (watch_remnants : list watch)
    (warehouse_id : string) : M W (list sku_record * list sku_record) :=
  offer_ids ← get_offer_ids fuel;
  stocks ← create_stocks watch_remnants offer_ids warehouse_id;
  chunks ← lift (divide stocks 2000);
  _ ← for_each (λ some_stock, _ ← update_stocks some_stock; mret ()) chunks;
  not_empty ← lift (Py.filter_r count_not_zero stocks);
  mret (not_empty, stocks).

(** The [try] block of [main], lines 305-322, given the table that
    [download_stock()] returns and the two warehouse ids.  Both calls of
    [upload_prices] are plain calls of a coroutine function, not awaited:
    each makes a coroutine object that is dropped at once. *)
Definition main_try (fuel : nat) (watch_remnants : list watch)
    (warehouse_fbs_id warehouse_dbs_id : string) : M W unit :=
  offer_ids ← get_offer_ids fuel;
  stocks ← create_stocks watch_remnants offer_ids warehouse_fbs_id;
  chunks ← lift (divide stocks 2000);
  _ ← for_each (λ some_stock, _ ← update_stocks some_stock; mret ()) chunks;
  _ ← call_async (upload_prices fuel watch_remnants);
  offer_ids ← get_offer_ids fuel;
  stocks ← create_stocks watch_remnants offer_ids warehouse_dbs_id;
  chunks ← lift (divide stocks 2000);
  _ ← for_each (λ some_stock, _ ← update_stocks some_stock; mret ()) chunks;
  _ ← call_async (upload_prices fuel watch_remnants);
  mret ().

End Market.

(** ** Functions used to state the properties *)

(** The product code of a row as the program compares it:
    [str(watch.get("Код"))]. *)
Definition code (x : watch) : string := py_str (kod x).

(** The list without the first occurrence of [x]. *)
Fixpoint remove1 (x : string) (l : list string) : list string :=
  match l with
  | [] => []
  | y :: r => if String.eqb y x then r else y :: remove1 x r
  end.

(** One pass over the inventory against a working list of offer ids: the
    rows whose code is in the working list when their turn comes, each
    taking one occurrence of its code out of it, and what is left of the
    working list at the end. *)
Fixpoint sweep (watch_remnants : list watch) (ids : list string)
    : list watch * list string :=
  match watch_remnants with
  | [] => ([], ids)
  | x :: r =>
      if Py.contains (code x) ids then
        let '(m, rest) := sweep r (remove1 (code x) ids) in (x :: m, rest)
      else sweep r ids
  end.

Definition matched (watch_remnants : list watch) (ids : list string) : list watch :=
  (sweep watch_remnants ids).1.

Definition remaining (watch_remnants : list watch) (ids : list string) : list string :=
  (sweep watch_remnants ids).2.

(** [f] on every element in turn, up to the first error. *)
Fixpoint map_r {A B} (f : A → result B) (l : list A) : result (list B) :=
  match l with
  | [] => Ok []
  | x :: r => rbind (f x) (λ y, rbind (map_r f r) (λ ys, Ok (y :: ys)))
  end.

(** The world with the list object at [l] holding [ids]. *)
Definition store {Rq Rp} (l : loc) (ids : list string) (σ : world Rq Rp)
    : world Rq Rp :=
  set_heap (<[l := ids]> (heap σ)) σ.

(** The working list when [create_stocks] reaches the first matched row
    whose quantity does not normalise; when there is none, what is left
    at the end. *)
Fixpoint remaining_at_raise (watch_remnants : list watch) (ids : list string)
    : list string :=
  match watch_remnants with
  | [] => ids
  | x :: r =>
      if Py.contains (code x) ids then
        match normalize_quantity (kolichestvo x) with
        | Ok _ => remaining_at_raise r (remove1 (code x) ids)
        | Err _ => ids
        end
      else remaining_at_raise r ids
  end.

(** The no-break space U+00A0, in UTF-8. *)
Definition nbsp : string :=
  String (ascii_of_nat 194) (String (ascii_of_nat 160) EmptyString).

(** A character that no writing of an integer holds: below 127 and
    neither a digit, a space, a sign nor an underscore. *)
Definition not_numeric (c : ascii) : bool :=
  (N_of_ascii c <? 127)%N && negb (Py.is_digit c) && negb (Py.is_space c)
  && negb (Ascii.eqb c "+") && negb (Ascii.eqb c "-") && negb (Ascii.eqb c "_").

(** The record of a matched row and the record of an unmatched offer id,
    on each platform. *)
Definition seller_row (x : watch) : result Seller.stock_record :=
  rbind (normalize_quantity (kolichestvo x)) (λ q, Ok (Seller.Stock (code x) q)).

Definition seller_zero (id : string) : Seller.stock_record := Seller.Stock id 0.

Definition market_date (t : datetime) : string :=
  isoformat (replace_microsecond t 0) +:+ "Z".

Definition market_row (warehouse_id date : string) (x : watch)
    : result Market.sku_record :=
  rbind (normalize_quantity (kolichestvo x))
        (λ q, Ok (Market.Sku (code x) warehouse_id [Market.Item q "FIT" date])).

Definition market_zero (warehouse_id date id : string) : Market.sku_record :=
  Market.Sku id warehouse_id [Market.Item 0 "FIT" date].

(** The price record of a row, on each platform. *)
Definition seller_price_row (x : watch) : result Seller.price_record :=
  rbind (call_price_conversion (tsena x))
        (λ p, Ok (Seller.Price "UNKNOWN" "RUB" (code x) "0" p)).

Definition market_price_row (x : watch) : result Market.price_record :=
  rbind (call_price_conversion (tsena x)) (λ p,
  rbind (py_int (CStr p)) (λ v,
  Ok (Market.Price (code x) (Market.PriceValue v "RUR")))).

(** Reconciliation run twice on the same inputs, each run on a copy of its
    own of the offer ids ([list(offer_ids)]); on the market platform the
    clock shows [t] when the second run starts. *)
Definition seller_twice (watch_remnants : list watch) (ids : list string)
    : M Seller.W (list Seller.stock_record * list Seller.stock_record) :=
  copy1 ← list_new ids;
  first ← Seller.create_stocks watch_remnants copy1;
  copy2 ← list_new ids;
  second ← Seller.create_stocks watch_remnants copy2;
  mret (first, second).

Definition market_twice (watch_remnants : list watch) (ids : list string)
    (warehouse_id : string) (t : datetime)
    : M Market.W (list Market.sku_record * list Market.sku_record) :=
  copy1 ← list_new ids;
  first ← Market.create_stocks watch_remnants copy1 warehouse_id;
  _ ← elapse t;
  copy2 ← list_new ids;
  second ← Market.create_stocks watch_remnants copy2 warehouse_id;
  mret (first, second).

(** A market stock record with its [updatedAt] fields blanked. *)
Definition undated (s : Market.sku_record) : Market.sku_record :=
  Market.Sku (Market.sku s) (Market.warehouseId s)
    ((λ i, Market.Item (Market.count i) (Market.type i) EmptyString)
       <$> Market.items s).

(** [create_prices] run after [create_stocks] on one and the same list
    object, as in the [try] block of [seller.main]. *)
Definition seller_stocks_then_prices (watch_remnants : list watch) (offer_ids : loc)
    : M Seller.W (list Seller.stock_record * list Seller.price_record) :=
  stocks ← Seller.create_stocks watch_remnants offer_ids;
  prices ← Seller.create_prices watch_remnants offer_ids;
  mret (stocks, prices).

(** Sample data: an empty heap, a clock, a platform that answers nothing. *)
Definition noon : datetime := DateTime 2023 7 9 12 0 0 0.

Definition one_second_later : datetime := DateTime 2023 7 9 12 0 1 0.

Definition quiet_seller : Seller.W := World ∅ noon (λ _, Err HTTPError) [].

Definition quiet_market : Market.W := World ∅ noon (λ _, Err HTTPError) [].

Definition watch_A : watch := Watch (CStr "A") (CStr "5") (CStr "100.00 p.").

(** The end-to-end scenario of the specification: two rows and the offer
    ids A1, A2, A3 in the list object at location 1. *)
Definition scenario_inventory : list watch :=
  [Watch (CStr "A1") (CStr ">10") (CStr "100.00 p.");
   Watch (CStr "A2") (CStr "1") (CStr "50 p.")].

Definition scenario_ids : list string := ["A1"; "A2"; "A3"]%string.

Definition scenario_seller : Seller.W := store 1%positive scenario_ids quiet_seller.

Definition scenario_market : Market.W := store 1%positive scenario_ids quiet_market.

(** An offer-id list that holds the id A twice. *)
Definition twice_A_seller : Seller.W := store 1%positive ["A"; "A"]%string quiet_seller.

(** The platform answers the next requests of the run with [rs], in this
    order. *)
Definition serves {Rq Rp} (σ : world Rq Rp) (rs : list Rp) : Prop :=
  ∀ i r, rs !! i = Some r → replies σ (length (sent σ) + i) = Ok r.

(** The world after the requests [calls] have been sent, in this order. *)
Definition sends {Rq Rp} (calls : list Rq) (σ : world Rq Rp) : world Rq Rp :=
  World (heap σ) (now σ) (replies σ) (reverse calls ++ sent σ).

(** The seller platform signals the end of the listing at the last of
    [pages] and at none before it: the reported total equals the number of
    entries collected so far, [collected] of them before the first page. *)
Fixpoint seller_ends (collected : Z) (pages : list Seller.product_page) : Prop :=
  match pages with
  | [] => False
  | p :: ps =>
      let collected := (collected + Py.len (Seller.items p))%Z in
      match ps with
      | [] => Seller.total p = collected
      | _ :: _ => Seller.total p ≠ collected ∧ seller_ends collected ps
      end
  end.

(** The market platform signals the end of the listing at the last of
    [pages] and at none before it: the page has no continuation token. *)
Fixpoint market_ends (pages : list Market.entries_page) : Prop :=
  match pages with
  | [] => False
  | p :: ps =>
      let page := Market.nextPageToken (Market.paging p) in
      match ps with
      | [] => Market.not_ page = true
      | _ :: _ => Market.not_ page = false ∧ market_ends ps
      end
  end.

(** The requests of a listing that is answered with [pages], the first one
    carrying the token [first]: each next request carries the token of the
    page before it. *)
Definition seller_calls (first : string) (pages : list Seller.product_page)
    : list Seller.call :=
  (λ t, Seller.ProductList "ALL" t 1000)
    <$> take (length pages) (first :: (Seller.last_id <$> pages)).

Definition market_calls (first : option string) (pages : list Market.entries_page)
    : list Market.call :=
  (λ t, Market.OfferMappingEntries t 200)
    <$> take (length pages)
          (first :: ((λ p, Market.nextPageToken (Market.paging p)) <$> pages)).

(** Sample platforms.  [two_pages_seller] lists A1 and A2 on a first page
    and A3 on a second, three products in all; [two_pages_market] does the
    same with a continuation token on the first page only. *)
Definition two_pages : list Seller.product_page :=
  [Seller.ProductPage [Seller.Product 1 "A1"; Seller.Product 2 "A2"] 3 "t1";
   Seller.ProductPage [Seller.Product 3 "A3"] 3 ""].

Definition two_pages_seller : Seller.W :=
  World ∅ noon
    (λ i, match two_pages !! i with
          | Some p => Ok (Seller.ProductListResult p)
          | None => Ok Seller.ImportReport
          end) [].

Definition two_entries_pages : list Market.entries_page :=
  [Market.EntriesPage
     [Market.MappingEntry (Market.Offer "A1"); Market.MappingEntry (Market.Offer "A2")]
     (Market.Paging (Some "t1"%string));
   Market.EntriesPage [Market.MappingEntry (Market.Offer "A3")] (Market.Paging None)].

Definition two_pages_market : Market.W :=
  World ∅ noon
    (λ i, match two_entries_pages !! i with
          | Some p => Ok (Market.EntriesResult p)
          | None => Ok Market.UpdateStatus
          end) [].

(** A market platform that hands out a continuation token on every page,
    and a seller platform whose every page holds two entries and reports a
    total of three. *)
Definition endless_market : Market.W :=
  World ∅ noon
    (λ _, Ok (Market.EntriesResult
                (Market.EntriesPage [Market.MappingEntry (Market.Offer "A1")]
                                    (Market.Paging (Some "next"%string))))) [].

Definition overshooting_seller : Seller.W :=
  World ∅ noon
    (λ _, Ok (Seller.ProductListResult
                (Seller.ProductPage
                   [Seller.Product 1 "A1"; Seller.Product 2 "A2"] 3 "t"))) [].

(** The stock count of a market record: the count of its first item. *)
Definition sku_count (s : Market.sku_record) : Z :=
  match Market.items s with
  | item :: _ => Market.count item
  | [] => 0%Z
  end.

(** The text before the first [sep] of a string. *)
Fixpoint before (sep : ascii) (s : string) : string :=
  match s with
  | EmptyString => EmptyString
  | String c r => if Ascii.eqb c sep then EmptyString else String c (before sep r)
  end.

(** ** Functions used to state the further properties *)

(** None of [pages] carries the end signal of its platform. *)
Fixpoint seller_open (collected : Z) (pages : list Seller.product_page) : Prop :=
  match pages with
  | [] => True
  | p :: ps =>
      let collected := (collected + Py.len (Seller.items p))%Z in
      Seller.total p ≠ collected ∧ seller_open collected ps
  end.

Definition market_open (pages : list Market.entries_page) : Prop :=
  Forall (λ p, Market.not_ (Market.nextPageToken (Market.paging p)) = false) pages.

(** The requests of a listing that is answered with [pages] and then
    refused: one for each page and the refused one after them. *)
Definition seller_attempts (first : string) (pages : list Seller.product_page)
    : list Seller.call :=
  (λ t, Seller.ProductList "ALL" t 1000) <$> first :: (Seller.last_id <$> pages).

Definition market_attempts (first : option string)
    (pages : list Market.entries_page) : list Market.call :=
  (λ t, Market.OfferMappingEntries t 200)
    <$> first :: ((λ p, Market.nextPageToken (Market.paging p)) <$> pages).

(** The requests of each kind. *)
Definition is_price_call (c : Seller.call) : bool :=
  match c with
  | Seller.ImportPrices _ => true
  | _ => false
  end.

Definition is_post_prices (c : Market.call) : bool :=
  match c with
  | Market.PostPrices _ => true
  | _ => false
  end.

(** The quantity of a row normalises. *)
Definition normalises (x : watch) : Prop :=
  ∃ q, normalize_quantity (kolichestvo x) = Ok q.

(** The price of a row is a string; it is a string with a digit, and no
    more digits than [int()] reads, before its first ".". *)
Definition priced (x : watch) : Prop := ∃ s, tsena x = CStr s.

Definition priced_in_digits (x : watch) : Prop :=
  ∃ s, tsena x = CStr s
       ∧ price_conversion s ≠ EmptyString
       ∧ String.length (price_conversion s) ≤ Py.int_max_str_digits.

(** Sample platforms: an empty catalogue, and a listing cut by an error
    after its first page. *)
Definition empty_seller : Seller.W :=
  World ∅ noon (λ _, Ok (Seller.ProductListResult (Seller.ProductPage [] 0 ""))) [].

Definition failing_seller : Seller.W :=
  World ∅ noon
    (λ i, match i with
          | O => Ok (Seller.ProductListResult
                       (Seller.ProductPage [Seller.Product 1 "A1"] 3 "t1"))
          | _ => Err HTTPError
          end) [].

(** A seller platform that lists one product and refuses every later
    request. *)
Definition refusing_seller : Seller.W :=
  World ∅ noon
    (λ i, match i with
          | O => Ok (Seller.ProductListResult
                       (Seller.ProductPage [Seller.Product 1 "A1"] 1 ""))
          | _ => Err HTTPError
          end) [].

(** A market platform that lists one product, without continuation
    token, at its first and at its third reply and answers every other
    request with a status. *)
Definition twice_listed_market : Market.W :=
  World ∅ noon
    (λ i, match i with
          | 0 | 2 => Ok (Market.EntriesResult
                           (Market.EntriesPage
                              [Market.MappingEntry (Market.Offer "A1")]
                              (Market.Paging None)))
          | _ => Ok Market.UpdateStatus
          end) [].

Definition watch_bad : watch := Watch (CStr "B") (CStr "many") (CStr "n/a").

(** * Properties *)

(** ** Batch chunking *)

Section Divide.
Context {A : Type}.
Implicit Types (lst : list A) (n : Z).

Lemma range_length_pos (stop n : Z) :
  (1 ≤ n)%Z → (0 ≤ stop)%Z →
  let m := Py.range_length 0 stop n in
  (0 ≤ m)%Z ∧ (stop ≤ m * n)%Z ∧ (0 < m → (m - 1) * n < stop)%Z
  ∧ (stop = 0 → m = 0)%Z.
Proof.
  intros Hn Hs. unfold Py.range_length.
  destruct (Z.ltb_spec 0 n); [|lia].
  destruct (Z.ltb_spec 0 stop).
  - rewrite Z.sub_0_r.
    pose proof (Z.div_mod (stop - 1) n ltac:(lia)) as Hdm.
    pose proof (Z.mod_pos_bound (stop - 1) n ltac:(lia)) as Hmod.
    pose proof (Z.div_pos (stop - 1) n ltac:(lia) ltac:(lia)) as Hdiv.
    repeat split; nia.
  - repeat split; lia.
Qed.

Lemma slice_chunk lst (k : nat) n :
  (1 ≤ n)%Z → (Z.of_nat k * n < Py.len lst)%Z →
  Py.slice lst (0 + Z.of_nat k * n) (0 + Z.of_nat k * n + n)
  = take (Z.to_nat n) (drop (k * Z.to_nat n) lst).
Proof.
  intros Hn Hk. unfold Py.slice, Py.clamp, Py.len in *.
  set (L := Z.of_nat (length lst)) in *.
  assert (0 ≤ Z.of_nat k * n)%Z by nia.
  destruct (Z.ltb_spec (0 + Z.of_nat k * n) 0); [lia|].
  destruct (Z.ltb_spec (0 + Z.of_nat k * n + n) 0); [lia|].
  replace (Z.to_nat (Z.min (0 + Z.of_nat k * n) L)) with (k * Z.to_nat n)%nat by nia.
  destruct (Z.le_gt_cases (0 + Z.of_nat k * n + n) L).
  - f_equal. lia.
  - rewrite !take_ge; [done| |]; rewrite length_drop; subst L; nia.
Qed.

Lemma concat_chunks lst (N m : nat) :
  concat (map (λ k : nat, take N (drop (k * N) lst)) (seq 0 m)) = take (m * N) lst.
Proof.
  induction m as [|m IH]; [done|].
  rewrite seq_S, map_app, concat_app, IH. simpl.
  rewrite app_nil_r, take_take_drop. f_equal. lia.
Qed.

Lemma divide_unfold lst n :
  (1 ≤ n)%Z →
  divide lst n =
    Ok (map (λ k : nat, take (Z.to_nat n) (drop (k * Z.to_nat n) lst))
          (seq 0 (Z.to_nat (Py.range_length 0 (Py.len lst) n)))).
Proof.
  intros Hn. unfold divide, Py.range.
  destruct (Z.eqb_spec n 0); [lia|]. simpl. f_equal.
  rewrite map_map. apply map_ext_in. intros k Hk%in_seq.
  destruct (range_length_pos (Py.len lst) n Hn ltac:(unfold Py.len; lia))
    as (Hm0 & _ & Hlast & _).
  apply slice_chunk; [done|]. nia.
Qed.

Lemma chunk_lookup lst (N m i : nat) (c : list A) :
  map (λ k : nat, take N (drop (k * N) lst)) (seq 0 m) !! i = Some c →
  (i < m)%nat ∧ c = take N (drop (i * N) lst).
Proof.
  rewrite list_lookup_fmap. intros Hc.
  destruct (seq 0 m !! i) as [k|] eqn:Hk; [|done].
  apply lookup_seq in Hk as [-> ?]. simpl in Hc. by injection Hc as <-.
Qed.

(** C6.  For every list and every chunk size [n >= 1], [divide] yields
    chunks whose concatenation is the list itself; no chunk is longer than
    [n], every chunk but the last has exactly [n] elements, no chunk is
    empty, and the empty list yields no chunk. *)
Theorem divide_chunks lst n :
  (1 ≤ n)%Z →
  ∃ chunks,
    divide lst n = Ok chunks
    ∧ concat chunks = lst
    ∧ Forall (λ c, (Py.len c ≤ n)%Z) chunks
    ∧ (∀ i c, chunks !! i = Some c → (S i < length chunks)%nat → Py.len c = n)
    ∧ Forall (λ c, c ≠ []) chunks
    ∧ (lst = [] → chunks = []).
Proof.
  intros Hn. eexists. split; [by apply divide_unfold|].
  destruct (range_length_pos (Py.len lst) n Hn ltac:(unfold Py.len; lia))
    as (Hm0 & Hall & Hlast & Hnil).
  set (m := Z.to_nat (Py.range_length 0 (Py.len lst) n)) in *.
  set (N := Z.to_nat n).
  unfold Py.len in *.
  repeat split.
  - rewrite concat_chunks. apply take_ge. nia.
  - apply Forall_lookup. intros i c Hc. apply chunk_lookup in Hc as [_ ->].
    rewrite length_take. lia.
  - intros i c Hc Hi. rewrite length_map, length_seq in Hi.
    apply chunk_lookup in Hc as [_ ->].
    rewrite length_take, length_drop. nia.
  - apply Forall_lookup. intros i c Hc. apply chunk_lookup in Hc as [Hi ->].
    intros Hnil'%(f_equal length). revert Hnil'.
    rewrite length_take, length_drop. simpl. nia.
  - intros ->. simpl in *. replace m with 0%nat by lia. done.
Qed.

(** C10.  A negative chunk size yields no chunk at all, so a non-empty
    list is not recovered from the chunks; a chunk size of zero raises
    when the generator is iterated. *)
Theorem divide_outside_contract lst n :
  ((n < 0)%Z → lst ≠ [] → divide lst n = Ok [] ∧ concat (@nil (list A)) ≠ lst)
  ∧ (n = 0%Z → divide lst n = Err ValueError).
Proof.
  split.
  - intros Hn Hne. split; [|by destruct lst].
    unfold divide, Py.range.
    destruct (Z.eqb_spec n 0); [lia|]. simpl.
    unfold Py.range_length, Py.len.
    destruct (Z.ltb_spec 0 n); [lia|].
    destruct (Z.ltb_spec (Z.of_nat (length lst)) 0); [lia|]. done.
  - intros ->. done.
Qed.

End Divide.

Lemma divide_chunks_witness :
  ∃ chunks,
    divide [1; 2; 3; 4; 5]%Z 2 = Ok chunks
    ∧ concat chunks = [1; 2; 3; 4; 5]%Z
    ∧ Forall (λ c, (Py.len c ≤ 2)%Z) chunks
    ∧ (∀ i c, chunks !! i = Some c → (S i < length chunks)%nat → Py.len c = 2%Z)
    ∧ Forall (λ c, c ≠ []) chunks
    ∧ ([1; 2; 3; 4; 5]%Z = [] → chunks = []).
Proof. apply (divide_chunks [1; 2; 3; 4; 5]%Z 2). discriminate. Defined.

Lemma divide_outside_contract_witness :
  (divide [1; 2; 3]%Z (-2) = Ok [] ∧ concat (@nil (list Z)) ≠ [1; 2; 3]%Z)
  ∧ divide [1; 2; 3]%Z 0 = Err ValueError.
Proof.
  split.
  - apply (divide_outside_contract [1; 2; 3]%Z (-2)); [reflexivity|discriminate].
  - apply (divide_outside_contract [1; 2; 3]%Z 0). reflexivity.
Defined.

Example divide_5_2 :
  divide [1; 2; 3; 4; 5]%Z 2 = Ok [[1; 2]; [3; 4]; [5]]%Z.
Proof. reflexivity. Qed.

(** ** Price transformation *)

Lemma hd_split sep s : hd EmptyString (Py.split sep s) = before sep s.
Proof.
  induction s as [|c r IH]; [done|]. simpl.
  destruct (Ascii.eqb c sep); [done|].
  destruct (Py.split sep r); simpl in *; by rewrite <- IH.
Qed.

Lemma before_prefix sep s :
  ∃ rest, s = (before sep s +:+ rest)
          ∧ (sep ∉ list_ascii_of_string (before sep s))
          ∧ (rest = EmptyString ∨ ∃ r, rest = String sep r).
Proof.
  induction s as [|c r IH]; simpl.
  - exists EmptyString. split_and!; [done|apply not_elem_of_nil|by left].
  - destruct IH as (rest & Hs & Hsep & Hrest).
    destruct (Ascii.eqb_spec c sep) as [->|Hne].
    + exists (String sep r). split_and!; [done|apply not_elem_of_nil|right; eauto].
    + exists rest. split_and!; [|simpl; rewrite not_elem_of_cons; auto|done].
      change (String c r = String c (before sep r +:+ rest)). by f_equal.
Qed.

Lemma re_sub_non_digit_filter s :
  list_ascii_of_string (Py.re_sub_non_digit s)
  = filter (λ c, Py.is_digit c) (list_ascii_of_string s).
Proof.
  induction s as [|c r IH]; [done|]. simpl.
  destruct (Py.is_digit c) eqn:Hc.
  - rewrite filter_cons_True by (by rewrite Hc). simpl. by rewrite IH.
  - rewrite filter_cons_False by (rewrite Hc; intros []). done.
Qed.

(** C5.  [price_conversion] keeps the text before the first "." and deletes
    from it every character that is not a digit; the result holds digits
    only. *)
Theorem price_conversion_digits (price : string) :
  (∃ prefix rest,
      price = (prefix +:+ rest)
      ∧ ("."%char ∉ list_ascii_of_string prefix)
      ∧ (rest = EmptyString ∨ ∃ r, rest = String "." r)
      ∧ list_ascii_of_string (price_conversion price)
        = filter (λ c, Py.is_digit c) (list_ascii_of_string prefix))
  ∧ Forall (λ c, Py.is_digit c) (list_ascii_of_string (price_conversion price))
  ∧ price_conversion "5'990.00 руб." = "5990"%string
  ∧ price_conversion "199.99" = "199"%string.
Proof.
  split_and!; [| |done|done].
  - destruct (before_prefix "." price) as (rest & Hs & Hdot & Hrest).
    exists (before "." price), rest. split_and!; [done..|].
    unfold price_conversion. by rewrite hd_split, re_sub_non_digit_filter.
  - unfold price_conversion. rewrite re_sub_non_digit_filter.
    apply Forall_forall. by intros c [Hc _]%list_elem_of_filter.
Qed.

(** ** [int()] of a string *)

Lemma is_digit_cases c :
  Py.is_digit c = true →
  Py.is_space c = false ∧ c ≠ "."%char ∧ c ≠ "+"%char ∧ c ≠ "-"%char
  ∧ c ≠ "_"%char ∧ (0 ≤ Py.digit_value c)%Z.
Proof.
  destruct c as [[] [] [] [] [] [] [] []]; try discriminate;
    intros _; split_and!; (reflexivity || discriminate || (unfold Py.digit_value; lia)).
Qed.

Lemma lstrip_digit cs :
  Forall (λ c, Py.is_digit c) cs → Py.lstrip cs = cs.
Proof.
  destruct 1 as [|c r Hc _]; [done|]. simpl.
  apply Is_true_true, is_digit_cases in Hc as (-> & _). done.
Qed.

Lemma strip_digits cs :
  Forall (λ c, Py.is_digit c) cs → Py.strip cs = cs.
Proof.
  intros Hall. unfold Py.strip. rewrite (lstrip_digit cs Hall).
  rewrite lstrip_digit by by apply List.Forall_rev.
  apply rev_involutive.
Qed.

Lemma digits_tail_digits cs : ∀ acc,
  Forall (λ c, Py.is_digit c) cs → (0 ≤ acc)%Z →
  ∃ v, Py.digits_tail acc false cs = Some v ∧ (0 ≤ v)%Z.
Proof.
  induction cs as [|c r IH]; intros acc Hall Hacc; simpl; [eauto|].
  apply Forall_cons in Hall as [Hc Hr].
  apply Is_true_true in Hc. rewrite Hc.
  apply is_digit_cases in Hc as (_ & _ & _ & _ & _ & Hv).
  apply IH; [done|lia].
Qed.

Lemma utf8_decode_ascii cs :
  Forall (λ c, (N_of_ascii c < 128)%N) cs →
  Py.utf8_decode cs = Some (N_of_ascii <$> cs).
Proof.
  induction 1 as [|c r Hc _ IH]; [done|]. cbn [Py.utf8_decode].
  apply N.ltb_lt in Hc. by rewrite Hc, IH.
Qed.

Lemma transform_ascii cs :
  Forall (λ c, (N_of_ascii c < 127)%N) cs →
  mapM Py.transform_decimal_and_space_to_ascii (N_of_ascii <$> cs) = Some cs.
Proof.
  induction 1 as [|c r Hc _ IH]; [done|]. cbn [fmap list_fmap mapM].
  fold (N_of_ascii <$> r). rewrite IH.
  unfold Py.transform_decimal_and_space_to_ascii.
  apply N.ltb_lt in Hc. by rewrite Hc, ascii_N_embedding.
Qed.

(** A string of characters below 127 is read as it stands. *)
Lemma py_int_of_str_ascii s :
  Forall (λ c, (N_of_ascii c < 127)%N) (list_ascii_of_string s) →
  Py.py_int_of_str s = Py.long_from_string (list_ascii_of_string s).
Proof.
  intros Hall. unfold Py.py_int_of_str.
  rewrite utf8_decode_ascii by (eapply Forall_impl; [done|]; simpl; lia).
  cbn [mbind option_bind]. by rewrite transform_ascii.
Qed.

Lemma is_digit_ascii c : Py.is_digit c = true → (N_of_ascii c < 127)%N.
Proof. destruct c as [[] [] [] [] [] [] [] []]; try discriminate; by intros _. Qed.

Lemma filter_digits cs :
  Forall (λ c, Py.is_digit c) cs → List.filter Py.is_digit cs = cs.
Proof.
  induction 1 as [|c r Hc _ IH]; [done|]. simpl.
  apply Is_true_true in Hc. by rewrite Hc, IH.
Qed.

Lemma length_list_ascii s : length (list_ascii_of_string s) = String.length s.
Proof. induction s as [|c r IH]; [done|]. simpl. by rewrite IH. Qed.

Lemma long_from_string_digits cs :
  Forall (λ c, Py.is_digit c) cs →
  Py.long_from_string cs =
    if (Py.int_max_str_digits <? length cs)%nat then None else Py.digits cs.
Proof.
  intros Hall. unfold Py.long_from_string.
  rewrite strip_digits, filter_digits by done.
  destruct (_ <? _)%nat; [done|].
  destruct Hall as [|c r Hc _]; [done|].
  apply Is_true_true, is_digit_cases in Hc as (_ & _ & Hplus & Hminus & _).
  destruct c as [[] [] [] [] [] [] [] []]; done.
Qed.

(** [int()] of a string of ASCII digits: a value that is not negative when
    the digits are between one and [int_max_str_digits] in number, and no
    value otherwise. *)
Lemma py_int_of_str_digits s :
  Forall (λ c, Py.is_digit c) (list_ascii_of_string s) →
  (s ≠ EmptyString → String.length s ≤ Py.int_max_str_digits →
   ∃ v, Py.py_int_of_str s = Some v ∧ (0 ≤ v)%Z)
  ∧ (s = EmptyString ∨ Py.int_max_str_digits < String.length s →
     Py.py_int_of_str s = None).
Proof.
  intros Hall. rewrite py_int_of_str_ascii.
  2: { eapply Forall_impl; [exact Hall|]. intros c Hc.
       by apply is_digit_ascii, Is_true_true. }
  rewrite long_from_string_digits, length_list_ascii by done. split.
  - intros Hne Hlen. rewrite (proj2 (Nat.ltb_ge _ _) Hlen).
    destruct s as [|c r]; [done|]. simpl in *.
    apply Forall_cons in Hall as [Hc Hr]. apply Is_true_true in Hc. rewrite Hc.
    apply is_digit_cases in Hc as (_ & _ & _ & _ & _ & Hv).
    by apply digits_tail_digits.
  - intros [->|Hlen]; [done|]. by rewrite (proj2 (Nat.ltb_lt _ _) Hlen).
Qed.

(** *** The decimal writing of an integer is read back *)

Lemma to_int_not_nil z : Z.to_int z ≠ Decimal.Pos Decimal.Nil ∧ Z.to_int z ≠ Decimal.Neg Decimal.Nil.
Proof.
  split; intros Hz; pose proof (DecimalZ.of_to z) as Hof;
    rewrite Hz in Hof; simpl in Hof; subst z; discriminate.
Qed.

Lemma py_str_of_int_parse z :
  NilZero.int_of_string (Py.py_str_of_int z) = Some (Z.to_int z).
Proof.
  unfold Py.py_str_of_int. destruct (to_int_not_nil z). by apply NilZero.isi.
Qed.

Lemma py_str_of_int_inj a b : Py.py_str_of_int a = Py.py_str_of_int b → a = b.
Proof.
  intros Hab%(f_equal NilZero.int_of_string).
  rewrite !py_str_of_int_parse in Hab. injection Hab as Hab.
  by rewrite <- (DecimalZ.of_to a), <- (DecimalZ.of_to b), Hab.
Qed.

Lemma zeros_digits n : Forall (λ c, Py.is_digit c) (list_ascii_of_string (zeros n)).
Proof. induction n as [|n IH]; simpl; by constructor. Qed.

Lemma length_zeros n : String.length (zeros n) = n.
Proof. induction n as [|n IH]; simpl; by f_equal. Qed.

Lemma lstrip_no_space cs :
  Forall (λ c, Py.is_space c = false) cs → Py.lstrip cs = cs.
Proof. destruct 1 as [|c r Hc _]; [done|]. simpl. by rewrite Hc. Qed.

Lemma strip_no_space cs :
  Forall (λ c, Py.is_space c = false) cs → Py.strip cs = cs.
Proof.
  intros Hall. unfold Py.strip. rewrite (lstrip_no_space cs Hall).
  rewrite lstrip_no_space by by apply List.Forall_rev.
  apply rev_involutive.
Qed.

Lemma uint_digits d :
  Forall (λ c, Py.is_digit c) (list_ascii_of_string (NilEmpty.string_of_uint d)).
Proof. induction d; simpl; by constructor. Qed.

Lemma digits_tail_uint_acc d : ∀ acc,
  Py.digits_tail (Z.pos acc) false (list_ascii_of_string (NilEmpty.string_of_uint d))
  = Some (Z.pos (Pos.of_uint_acc d acc)).
Proof.
  induction d as [|d IH|d IH|d IH|d IH|d IH|d IH|d IH|d IH|d IH|d IH];
    intros acc; [done|..];
    cbn [NilEmpty.string_of_uint list_ascii_of_string Py.digits_tail
         Pos.of_uint_acc];
    rewrite <- IH;
    match goal with
    | |- context [Py.is_digit ?c] => change (Py.is_digit c) with true
    end;
    cbv iota; f_equal; unfold Py.digit_value; simpl; lia.
Qed.

Lemma digits_tail_uint d :
  Py.digits_tail 0 false (list_ascii_of_string (NilEmpty.string_of_uint d))
  = Some (Z.of_N (Pos.of_uint d)).
Proof.
  induction d as [|d IH|d IH|d IH|d IH|d IH|d IH|d IH|d IH|d IH|d IH];
    [done|exact IH|apply (digits_tail_uint_acc d)..].
Qed.

Lemma digits_uint d :
  d ≠ Decimal.Nil →
  Py.digits (list_ascii_of_string (NilEmpty.string_of_uint d))
  = Some (Z.of_N (Pos.of_uint d)).
Proof. intros Hd. rewrite <- digits_tail_uint. by destruct d. Qed.

Lemma digits_to_uint p :
  Py.digits (list_ascii_of_string (NilEmpty.string_of_uint (Pos.to_uint p)))
  = Some (Z.pos p).
Proof.
  rewrite digits_uint by apply DecimalPos.Unsigned.to_uint_nonnil.
  by rewrite DecimalPos.Unsigned.of_to.
Qed.

Lemma string_of_to_uint p :
  NilZero.string_of_uint (Pos.to_uint p) = NilEmpty.string_of_uint (Pos.to_uint p).
Proof.
  pose proof (DecimalPos.Unsigned.to_uint_nonnil p).
  by destruct (Pos.to_uint p).
Qed.

(** [int(str(z))] is [z], as long as [z] is written with no more digits
    than [int()] reads. *)
Lemma py_int_of_str_of_int z :
  Py.py_int_of_str (Py.py_str_of_int z) =
    if (Py.int_max_str_digits <? String.length (Py.py_str_of_int (Z.abs z)))%nat
    then None else Some z.
Proof.
  destruct z as [|p|p]; [done| |]; unfold Py.py_str_of_int; simpl;
    rewrite string_of_to_uint; pose proof (uint_digits (Pos.to_uint p)) as Hd.
  - rewrite py_int_of_str_ascii, long_from_string_digits, length_list_ascii;
      [|done|].
    + by rewrite digits_to_uint.
    + eapply Forall_impl; [exact Hd|]. intros c Hc.
      by apply is_digit_ascii, Is_true_true.
  - rewrite py_int_of_str_ascii.
    + unfold Py.long_from_string. cbn [list_ascii_of_string].
      rewrite strip_no_space.
      * cbn [List.filter]. change (Py.is_digit "-") with false. cbv iota.
        rewrite filter_digits, length_list_ascii, digits_to_uint by done.
        by destruct (_ <? _)%nat.
      * constructor; [done|]. eapply Forall_impl; [exact Hd|]. intros c Hc.
        by apply Is_true_true, is_digit_cases in Hc as (? & _).
    + cbn [list_ascii_of_string]. constructor; [done|].
      eapply Forall_impl; [exact Hd|]. intros c Hc.
      by apply is_digit_ascii, Is_true_true.
Qed.

(** *** A string that holds a letter is no number *)

Lemma continuation_high c n : Py.continuation c = Some n → (128 ≤ N_of_ascii c)%N.
Proof.
  unfold Py.continuation.
  destruct (N.leb_spec 128 (N_of_ascii c)); [done|]. simpl. done.
Qed.

Lemma utf8_decode_low : ∀ (n : nat) bs cps c,
  length bs ≤ n → Py.utf8_decode bs = Some cps →
  c ∈ bs → (N_of_ascii c < 128)%N → N_of_ascii c ∈ cps.
Proof.
  induction n as [|n IH]; intros bs cps c Hlen Hdec Hc Hlow.
  { destruct bs; [by apply not_elem_of_nil in Hc|simpl in Hlen; lia]. }
  destruct bs as [|b0 r0]; [by apply not_elem_of_nil in Hc|].
  cbn [Py.utf8_decode] in Hdec. simpl in Hlen.
  destruct (N.ltb_spec (N_of_ascii b0) 128) as [H0|H0].
  { destruct (Py.utf8_decode r0) as [cps0|] eqn:Hr0; [|done].
    injection Hdec as <-. apply elem_of_cons in Hc as [->|Hc]; [by left|].
    right. apply (IH r0); [lia|done..]. }
  assert (c ≠ b0) as Hb0 by (intros ->; lia).
  apply elem_of_cons in Hc as [?|Hc]; [done|].
  destruct (N_of_ascii b0 <? 192)%N; [done|].
  destruct (N_of_ascii b0 <? 224)%N.
  { destruct r0 as [|b1 r1]; [done|].
    destruct (Py.continuation b1) as [n1|] eqn:H1; [|done].
    apply continuation_high in H1. cbn [mbind option_bind] in Hdec.
    destruct (Py.code_point _ _ _) as [cp|]; [|done].
    cbn [mbind option_bind] in Hdec.
    destruct (Py.utf8_decode r1) as [cps1|] eqn:Hr1; [|done].
    injection Hdec as <-. simpl in Hlen.
    apply elem_of_cons in Hc as [->|Hc]; [lia|].
    right. apply (IH r1); [lia|done..]. }
  destruct (N_of_ascii b0 <? 240)%N.
  { destruct r0 as [|b1 [|b2 r2]]; [done..|].
    destruct (Py.continuation b1) as [n1|] eqn:H1; [|done].
    apply continuation_high in H1. cbn [mbind option_bind] in Hdec.
    destruct (Py.continuation b2) as [n2|] eqn:H2; [|done].
    apply continuation_high in H2. cbn [mbind option_bind] in Hdec.
    destruct (Py.code_point _ _ _) as [cp|]; [|done].
    cbn [mbind option_bind] in Hdec.
    destruct (Py.utf8_decode r2) as [cps2|] eqn:Hr2; [|done].
    injection Hdec as <-. simpl in Hlen.
    apply elem_of_cons in Hc as [->|Hc]; [lia|].
    apply elem_of_cons in Hc as [->|Hc]; [lia|].
    right. apply (IH r2); [lia|done..]. }
  destruct (N_of_ascii b0 <? 248)%N; [|done].
  destruct r0 as [|b1 [|b2 [|b3 r3]]]; [done..|].
  destruct (Py.continuation b1) as [n1|] eqn:H1; [|done].
  apply continuation_high in H1. cbn [mbind option_bind] in Hdec.
  destruct (Py.continuation b2) as [n2|] eqn:H2; [|done].
  apply continuation_high in H2. cbn [mbind option_bind] in Hdec.
  destruct (Py.continuation b3) as [n3|] eqn:H3; [|done].
  apply continuation_high in H3. cbn [mbind option_bind] in Hdec.
  destruct (Py.code_point _ _ _) as [cp|]; [|done].
  cbn [mbind option_bind] in Hdec.
  destruct (Py.utf8_decode r3) as [cps3|] eqn:Hr3; [|done].
  injection Hdec as <-. simpl in Hlen.
  apply elem_of_cons in Hc as [->|Hc]; [lia|].
  apply elem_of_cons in Hc as [->|Hc]; [lia|].
  apply elem_of_cons in Hc as [->|Hc]; [lia|].
  right. apply (IH r3); [lia|done..].
Qed.

Lemma transform_low cps cs c :
  mapM Py.transform_decimal_and_space_to_ascii cps = Some cs →
  N_of_ascii c ∈ cps → (N_of_ascii c < 127)%N → c ∈ cs.
Proof.
  intros Hcs%mapM_Some_1 Hc Hlow.
  induction Hcs as [|cp c' cps cs Hcp _ IH]; [by apply not_elem_of_nil in Hc|].
  apply elem_of_cons in Hc as [<-|Hc]; [|right; by apply IH].
  unfold Py.transform_decimal_and_space_to_ascii in Hcp.
  apply N.ltb_lt in Hlow. rewrite Hlow, ascii_N_embedding in Hcp.
  injection Hcp as <-. by left.
Qed.

Lemma lstrip_keeps cs c : c ∈ cs → Py.is_space c = false → c ∈ Py.lstrip cs.
Proof.
  intros Hc Hsp. induction cs as [|c' r IH]; [done|]. simpl.
  destruct (Py.is_space c') eqn:Hc'; [|done].
  apply elem_of_cons in Hc as [->|Hc]; [congruence|by apply IH].
Qed.

Lemma strip_keeps cs c : c ∈ cs → Py.is_space c = false → c ∈ Py.strip cs.
Proof.
  intros Hc Hsp. unfold Py.strip.
  apply list_elem_of_In, in_rev. rewrite rev_involutive. apply list_elem_of_In.
  apply lstrip_keeps; [|done]. apply list_elem_of_In. rewrite <- in_rev.
  apply list_elem_of_In. by apply lstrip_keeps.
Qed.

Lemma digits_tail_letter cs c : ∀ acc prev_us,
  c ∈ cs → Py.is_digit c = false → c ≠ "_"%char →
  Py.digits_tail acc prev_us cs = None.
Proof.
  induction cs as [|c' r IH]; intros acc prev_us Hc Hd Hus;
    [by apply not_elem_of_nil in Hc|].
  simpl. apply elem_of_cons in Hc as [<-|Hc].
  - rewrite Hd. by destruct (Ascii.eqb_spec c "_").
  - destruct (Py.is_digit c'); [by apply IH|].
    destruct (Ascii.eqb c' "_"); [|done].
    destruct prev_us; [done|by apply IH].
Qed.

Lemma digits_letter cs c :
  c ∈ cs → Py.is_digit c = false → c ≠ "_"%char → Py.digits cs = None.
Proof.
  intros Hc Hd Hus. destruct cs as [|c' r]; [done|]. simpl.
  destruct (Py.is_digit c') eqn:Hc'; [|done].
  apply elem_of_cons in Hc as [->|Hc]; [congruence|].
  by apply (digits_tail_letter r c).
Qed.

Lemma not_numeric_cases c :
  not_numeric c = true →
  (N_of_ascii c < 127)%N ∧ Py.is_digit c = false ∧ Py.is_space c = false
  ∧ c ≠ "+"%char ∧ c ≠ "-"%char ∧ c ≠ "_"%char.
Proof.
  unfold not_numeric. rewrite !andb_true_iff, !negb_true_iff, N.ltb_lt.
  intros (((((? & ?) & ?) & Hp) & Hm) & Hu).
  split_and!; [done..| | |]; intros ->; done.
Qed.

Lemma long_from_string_letter cs c :
  c ∈ cs → not_numeric c = true → Py.long_from_string cs = None.
Proof.
  intros Hc (_ & Hd & Hsp & Hp & Hm & Hu)%not_numeric_cases.
  unfold Py.long_from_string. destruct (_ <? _)%nat; [done|].
  pose proof (strip_keeps cs c Hc Hsp) as Hin.
  destruct (Py.strip cs) as [|h r]; [by apply not_elem_of_nil in Hin|].
  destruct (Ascii.eqb_spec h "+") as [->|Hhp].
  { apply elem_of_cons in Hin as [?|Hin]; [done|]. by apply (digits_letter r c). }
  destruct (Ascii.eqb_spec h "-") as [->|Hhm].
  { apply elem_of_cons in Hin as [?|Hin]; [done|].
    by rewrite (digits_letter r c). }
  rewrite <- (digits_letter (h :: r) c Hin Hd Hu).
  destruct h as [[] [] [] [] [] [] [] []]; done.
Qed.

Lemma py_int_of_str_letter s c :
  c ∈ list_ascii_of_string s → not_numeric c = true → Py.py_int_of_str s = None.
Proof.
  intros Hc Hnn. pose proof (not_numeric_cases c Hnn) as (Hlow & _).
  unfold Py.py_int_of_str.
  destruct (Py.utf8_decode _) as [cps|] eqn:Hcps; [|done].
  cbn [mbind option_bind].
  destruct (mapM _ cps) as [cs|] eqn:Hcs; [|done].
  cbn [mbind option_bind].
  apply (long_from_string_letter cs c); [|done].
  apply (transform_low cps); [done| |done].
  apply (utf8_decode_low _ _ _ _ (le_n _) Hcps Hc). lia.
Qed.

(** ** Quantity normalisation *)

(** C2.  The quantity ">10" becomes 100 and the quantity "1" becomes 0;
    every other string goes to [int()]: it becomes the integer it parses
    as, and raises [ValueError] when it parses as none.  So the decimal
    writing of an integer other than 1 becomes that integer, and so do
    its writings with spaces around it, with a sign, with zeros before
    it, with underscores between the digits or in the digits of another
    script: "01", "+1" and " 1 " become 1, not 0.  A run of digits, up to
    4300 of them, becomes an integer that is not negative.  A string that
    holds a character which is neither digit, space, sign nor underscore
    raises, ">10" apart, as do the empty string and a run of more than
    4300 digits. *)
Theorem quantity_normalization :
  normalize_quantity (CStr ">10") = Ok 100%Z
  ∧ normalize_quantity (CStr "1") = Ok 0%Z
  ∧ (∀ s, s ≠ ">10"%string → s ≠ "1"%string →
       normalize_quantity (CStr s)
       = match Py.py_int_of_str s with
         | Some z => Ok z
         | None => Err ValueError
         end)
  ∧ (∀ z, z ≠ 1%Z →
       String.length (Py.py_str_of_int (Z.abs z)) ≤ Py.int_max_str_digits →
       normalize_quantity (CStr (Py.py_str_of_int z)) = Ok z)
  ∧ (∀ s c, s ≠ ">10"%string →
       c ∈ list_ascii_of_string s → not_numeric c = true →
       normalize_quantity (CStr s) = Err ValueError)
  ∧ (∀ s, Forall (λ c, Py.is_digit c) (list_ascii_of_string s) →
       s ≠ EmptyString → s ≠ "1"%string →
       String.length s ≤ Py.int_max_str_digits →
       ∃ z, normalize_quantity (CStr s) = Ok z ∧ (0 ≤ z)%Z)
  ∧ (∀ s, Forall (λ c, Py.is_digit c) (list_ascii_of_string s) →
       Py.int_max_str_digits < String.length s →
       normalize_quantity (CStr s) = Err ValueError)
  ∧ normalize_quantity (CStr "42") = Ok 42%Z
  ∧ normalize_quantity (CStr " 7 ") = Ok 7%Z
  ∧ normalize_quantity (CStr "-3") = Ok (-3)%Z
  ∧ normalize_quantity (CStr "+5") = Ok 5%Z
  ∧ normalize_quantity (CStr "1_000") = Ok 1000%Z
  ∧ normalize_quantity (CStr "01") = Ok 1%Z
  ∧ normalize_quantity (CStr "+1") = Ok 1%Z
  ∧ normalize_quantity (CStr " 1 ") = Ok 1%Z
  ∧ normalize_quantity (CStr "٣") = Ok 3%Z
  ∧ normalize_quantity (CStr "１２") = Ok 12%Z
  ∧ normalize_quantity (CStr ("5" +:+ nbsp)) = Ok 5%Z
  ∧ normalize_quantity (CStr "abc") = Err ValueError
  ∧ normalize_quantity (CStr EmptyString) = Err ValueError
  ∧ normalize_quantity (CStr "1__0") = Err ValueError
  ∧ normalize_quantity (CStr "5.0") = Err ValueError
  ∧ normalize_quantity (CStr ">10 ") = Err ValueError
  ∧ normalize_quantity (CStr "½") = Err ValueError.
Proof.
  assert (∀ s, s ≠ ">10"%string → s ≠ "1"%string →
            normalize_quantity (CStr s)
            = match Py.py_int_of_str s with
              | Some z => Ok z
              | None => Err ValueError
              end) as Hint.
  { intros s H10 H1. unfold normalize_quantity. simpl.
    destruct (String.eqb_spec s ">10"); [done|].
    by destruct (String.eqb_spec s "1"). }
  split_and!; [reflexivity|reflexivity|exact Hint| | | | |vm_compute; reflexivity..].
  - intros z Hz Hlen. rewrite Hint.
    + rewrite py_int_of_str_of_int.
      by rewrite (proj2 (Nat.ltb_ge _ _) Hlen).
    + intros H10%(f_equal NilZero.int_of_string).
      by rewrite py_str_of_int_parse in H10.
    + by intros ->%(py_str_of_int_inj z 1).
  - intros s c H10 Hc Hnn. rewrite Hint; [|done|].
    + by rewrite (py_int_of_str_letter s c).
    + intros ->. simpl in Hc.
      apply elem_of_cons in Hc as [->|Hc]; [done|by apply not_elem_of_nil in Hc].
  - intros s Hall Hne H1 Hlen. rewrite Hint; [|by intros ->; inversion Hall|done].
    destruct (proj1 (py_int_of_str_digits s Hall) Hne Hlen) as (v & -> & Hv).
    eauto.
  - intros s Hall Hlen. rewrite Hint.
    + by rewrite (proj2 (py_int_of_str_digits s Hall)) by by right.
    + intros ->. simpl in Hlen. unfold Py.int_max_str_digits in Hlen. lia.
    + intros ->. simpl in Hlen. unfold Py.int_max_str_digits in Hlen. lia.
Qed.

Lemma quantity_normalization_witness :
  normalize_quantity (CStr " 17 ") = Ok 17%Z
  ∧ normalize_quantity (CStr "-250") = Ok (-250)%Z
  ∧ normalize_quantity (CStr "n/a") = Err ValueError
  ∧ (∃ z, normalize_quantity (CStr (String "7" (zeros 4299))) = Ok z ∧ (0 ≤ z)%Z)
  ∧ normalize_quantity (CStr (String "7" (zeros 4300))) = Err ValueError.
Proof.
  destruct quantity_normalization
    as (_ & _ & Hint & Hstr & Hletter & Hdigits & Hlong & _).
  split_and!.
  - apply (Hint " 17 "%string); discriminate.
  - apply (Hstr (-250)%Z); [discriminate|]. vm_compute. lia.
  - apply (Hletter "n/a"%string "/"%char); [discriminate| |reflexivity].
    right. left.
  - apply (Hdigits (String "7" (zeros 4299))).
    + constructor; [done|]. apply zeros_digits.
    + discriminate.
    + discriminate.
    + cbn [String.length]. rewrite length_zeros. unfold Py.int_max_str_digits. lia.
  - apply (Hlong (String "7" (zeros 4300))).
    + constructor; [done|]. apply zeros_digits.
    + cbn [String.length]. rewrite length_zeros. unfold Py.int_max_str_digits. lia.
Defined.

(** ** Lists of offer ids *)

Lemma filter_all {A} (P : A → Prop) `{!∀ x, Decision (P x)} (l : list A) :
  Forall P l → filter P l = l.
Proof.
  induction 1 as [|x r Hx _ IH]; [done|].
  by rewrite filter_cons_True, IH.
Qed.

Lemma filter_ext_in {A} (P Q : A → Prop)
    `{!∀ x, Decision (P x), !∀ x, Decision (Q x)} (l : list A) :
  (∀ x, x ∈ l → P x ↔ Q x) → filter P l = filter Q l.
Proof.
  induction l as [|x r IH]; intros HPQ; [done|].
  assert (filter P r = filter Q r) as Hr.
  { apply IH. intros y Hy. apply HPQ. by right. }
  destruct (decide (P x)) as [Hx|Hx].
  - rewrite !filter_cons_True; [by rewrite Hr| |done]. apply HPQ; [left|done].
  - rewrite !filter_cons_False; [done| |done].
    intros HQ. apply Hx, HPQ; [left|done].
Qed.

Lemma contains_spec x l : Py.contains x l = true ↔ x ∈ l.
Proof.
  induction l as [|y r IH]; simpl.
  - split; [done|]. by intros ?%not_elem_of_nil.
  - rewrite orb_true_iff, IH, elem_of_cons, String.eqb_eq.
    split; (intros [?|?]; [by left|by right]).
Qed.

Lemma contains_false x l : Py.contains x l = false ↔ x ∉ l.
Proof. rewrite <- contains_spec. by destruct (Py.contains x l). Qed.

Lemma remove_remove1 x l : x ∈ l → Py.remove x l = Ok (remove1 x l).
Proof.
  induction l as [|y r IH]; simpl; [by intros ?%not_elem_of_nil|].
  intros Hx. destruct (String.eqb_spec y x) as [->|Hne]; [done|].
  apply elem_of_cons in Hx as [->|Hx]; [done|]. by rewrite IH.
Qed.

Lemma remove1_perm x l : x ∈ l → l ≡ₚ x :: remove1 x l.
Proof.
  induction l as [|y r IH]; simpl; [by intros ?%not_elem_of_nil|].
  intros Hx. destruct (String.eqb_spec y x) as [->|Hne]; [done|].
  apply elem_of_cons in Hx as [->|Hx]; [done|].
  etrans; [|apply Permutation_swap]. constructor. by apply IH.
Qed.

Lemma remove1_sublist x l : remove1 x l `sublist_of` l.
Proof.
  induction l as [|y r IH]; simpl; [done|].
  destruct (String.eqb y x); by constructor.
Qed.

Lemma remove1_filter x l : NoDup l → remove1 x l = filter (λ y, y ≠ x) l.
Proof.
  induction l as [|y r IH]; simpl; [done|].
  intros [Hy Hr]%NoDup_cons.
  destruct (String.eqb_spec y x) as [->|Hne].
  - rewrite filter_cons_False by naive_solver.
    symmetry. apply filter_all. apply Forall_forall. by intros z Hz ->.
  - rewrite filter_cons_True by done. by rewrite IH.
Qed.

(** ** One pass of reconciliation *)

Lemma sweep_cons_in x r ids :
  code x ∈ ids →
  sweep (x :: r) ids
  = (x :: matched r (remove1 (code x) ids), remaining r (remove1 (code x) ids)).
Proof.
  intros Hx%contains_spec. unfold matched, remaining. simpl. rewrite Hx.
  by destruct (sweep r (remove1 (code x) ids)).
Qed.

Lemma sweep_cons_out x r ids :
  code x ∉ ids → sweep (x :: r) ids = sweep r ids.
Proof. intros Hx%contains_false. simpl. by rewrite Hx. Qed.

Lemma sweep_perm w ids : (code <$> matched w ids) ++ remaining w ids ≡ₚ ids.
Proof.
  revert ids. induction w as [|x r IH]; intros ids; [done|].
  unfold matched, remaining.
  destruct (decide (code x ∈ ids)) as [Hx|Hx].
  - rewrite sweep_cons_in by done. simpl.
    etrans; [|symmetry; by apply remove1_perm]. constructor. apply IH.
  - rewrite sweep_cons_out by done. apply IH.
Qed.

Lemma matched_sublist w ids : matched w ids `sublist_of` w.
Proof.
  revert ids. induction w as [|x r IH]; intros ids; [done|].
  unfold matched.
  destruct (decide (code x ∈ ids)) as [Hx|Hx].
  - rewrite sweep_cons_in by done. constructor. apply IH.
  - rewrite sweep_cons_out by done. constructor. apply IH.
Qed.

Lemma remaining_sublist w ids : remaining w ids `sublist_of` ids.
Proof.
  revert ids. induction w as [|x r IH]; intros ids; [done|].
  unfold remaining.
  destruct (decide (code x ∈ ids)) as [Hx|Hx].
  - rewrite sweep_cons_in by done. simpl.
    etrans; [apply IH|apply remove1_sublist].
  - rewrite sweep_cons_out by done. apply IH.
Qed.

Lemma matched_in_ids w ids x : x ∈ matched w ids → code x ∈ ids.
Proof.
  intros Hx. rewrite <- (sweep_perm w ids).
  apply elem_of_app. left. by apply list_elem_of_fmap_2.
Qed.

(** With pairwise distinct offer ids, what is left is the ids that are the
    code of no row. *)
Lemma remaining_filter w ids :
  NoDup ids → remaining w ids = filter (λ id, id ∉ code <$> w) ids.
Proof.
  revert ids. induction w as [|x r IH]; intros ids Hnd.
  - symmetry. apply filter_all. apply Forall_forall.
    intros y _. apply not_elem_of_nil.
  - unfold remaining. destruct (decide (code x ∈ ids)) as [Hx|Hx].
    + rewrite sweep_cons_in by done. simpl.
      rewrite IH by (by eapply sublist_NoDup; [|apply remove1_sublist]).
      rewrite remove1_filter by done. rewrite list_filter_filter.
      apply list_filter_iff. intros y. cbn [fmap list_fmap].
      rewrite not_elem_of_cons. tauto.
    + rewrite sweep_cons_out by done. fold (remaining r ids). rewrite IH by done.
      apply filter_ext_in. intros y Hy. cbn [fmap list_fmap].
      rewrite not_elem_of_cons.
      split; [intros ?; split; [by intros ->|done] | by intros [_ ?]].
Qed.

Lemma remaining_no_code w ids x :
  NoDup ids → x ∈ w → code x ∉ remaining w ids.
Proof.
  intros Hnd Hx. rewrite remaining_filter by done.
  rewrite list_elem_of_filter. intros [Hc _]. apply Hc.
  by apply list_elem_of_fmap_2.
Qed.

(** ** The monad and the list objects *)

Lemma bind_run {W A B} (m : M W A) (k : A → M W B) (σ : W) :
  (m ≫= k) σ = match m σ with
               | Done (a, σ') => k a σ'
               | Raised e σ' => Raised e σ'
               | OutOfFuel => OutOfFuel
               end.
Proof. reflexivity. Qed.

Lemma bind_done {W A B} (m : M W A) (k : A → M W B) (σ σ' : W) a :
  m σ = Done (a, σ') → (m ≫= k) σ = k a σ'.
Proof. intros Hm. by rewrite bind_run, Hm. Qed.

Lemma bind_inv {W A B} (m : M W A) (k : A → M W B) (σ σ'' : W) b :
  (m ≫= k) σ = Done (b, σ'') →
  ∃ a σ', m σ = Done (a, σ') ∧ k a σ' = Done (b, σ'').
Proof.
  rewrite bind_run. destruct (m σ) as [[a σ']|e|]; [eauto|done..].
Qed.

Lemma foldl_snoc_map {A B} (f : A → B) (l : list A) (acc : list B) :
  foldl (λ acc x, acc ++ [f x]) acc l = acc ++ (f <$> l).
Proof.
  revert acc. induction l as [|x r IH]; intros acc; simpl.
  - by rewrite app_nil_r.
  - by rewrite IH, <- app_assoc.
Qed.

Section Store.
Context {Rq Rp : Type}.
Implicit Types (σ : world Rq Rp) (l : loc) (ids : list string).

Lemma store_lookup l ids σ : heap (store l ids σ) !! l = Some ids.
Proof. apply lookup_insert_eq. Qed.

Lemma store_lookup_ne l l' ids σ :
  l ≠ l' → heap (store l ids σ) !! l' = heap σ !! l'.
Proof. intros. by apply lookup_insert_ne. Qed.

Lemma store_store l ids ids' σ : store l ids (store l ids' σ) = store l ids σ.
Proof. unfold store, set_heap. simpl. by rewrite insert_insert_eq. Qed.

Lemma store_id l ids σ : heap σ !! l = Some ids → store l ids σ = σ.
Proof.
  intros Hl. unfold store, set_heap. rewrite insert_id by done. by destruct σ.
Qed.

Lemma list_read_run l ids σ :
  heap σ !! l = Some ids → list_read l σ = Done (ids, σ).
Proof. intros Hl. unfold list_read. by rewrite Hl. Qed.

Lemma list_contains_run l x ids σ :
  heap σ !! l = Some ids → list_contains l x σ = Done (Py.contains x ids, σ).
Proof.
  intros Hl. unfold list_contains. by rewrite bind_run, (list_read_run l ids).
Qed.

Lemma list_remove_run l x ids σ :
  heap σ !! l = Some ids → x ∈ ids →
  list_remove l x σ = Done ((), store l (remove1 x ids) σ).
Proof.
  intros Hl Hx. unfold list_remove.
  rewrite bind_run, (list_read_run l ids) by done.
  rewrite bind_run. unfold lift. by rewrite remove_remove1.
Qed.

End Store.

(** ** Stock reconciliation: what [create_stocks] computes *)

(** The first loop, on both platforms, told by one script: the rows matched
    by the pass give their records, or the first quantity that does not
    normalise raises; the list object is left holding what remains. *)
Ltac matched_run IH Hl :=
  rewrite bind_run, (list_contains_run _ _ _ _ Hl);
  match goal with
  | |- context [Py.contains (py_str (kod ?x)) ?ids] =>
      change (py_str (kod x)) with (code x);
      unfold matched, remaining; cbn [remaining_at_raise];
      destruct (decide (code x ∈ ids)) as [Hx|Hx];
      [ rewrite (proj2 (contains_spec _ _) Hx), sweep_cons_in by done;
        cbn [map_r fst snd]; rewrite bind_run; unfold lift;
        first [unfold seller_row at 1 | unfold market_row at 1];
        destruct (normalize_quantity (kolichestvo x)) as [q|e];
        [|by cbn [rbind]; erewrite store_id by done];
        cbn [rbind];
        rewrite bind_run, (list_remove_run _ _ _ _ Hl Hx);
        erewrite IH by apply store_lookup;
        match goal with
        | |- context [map_r ?row ?m] =>
            destruct (map_r row m); [|by cbn [rbind]; rewrite store_store]
        end;
        cbn [rbind]; by rewrite <- app_assoc, store_store
      | rewrite (proj2 (contains_false _ _) Hx), sweep_cons_out by done;
        by erewrite IH by done ]
  end.

Lemma seller_matched_run w l ids (σ : Seller.W) acc :
  heap σ !! l = Some ids →
  Seller.create_stocks_matched w l acc σ =
    match map_r seller_row (matched w ids) with
    | Ok rows => Done (acc ++ rows, store l (remaining w ids) σ)
    | Err e => Raised e (store l (remaining_at_raise w ids) σ)
    end.
Proof.
  revert ids σ acc. induction w as [|x r IH]; intros ids σ acc Hl.
  - cbn. by rewrite app_nil_r, store_id.
  - cbn [Seller.create_stocks_matched]. matched_run IH Hl.
Qed.

Lemma market_matched_run w l wh date ids (σ : Market.W) acc :
  heap σ !! l = Some ids →
  Market.create_stocks_matched w l wh date acc σ =
    match map_r (market_row wh date) (matched w ids) with
    | Ok rows => Done (acc ++ rows, store l (remaining w ids) σ)
    | Err e => Raised e (store l (remaining_at_raise w ids) σ)
    end.
Proof.
  revert ids σ acc. induction w as [|x r IH]; intros ids σ acc Hl.
  - cbn. by rewrite app_nil_r, store_id.
  - cbn [Market.create_stocks_matched]. matched_run IH Hl.
Qed.

Lemma seller_create_stocks_run w l ids (σ : Seller.W) :
  heap σ !! l = Some ids →
  Seller.create_stocks w l σ =
    match map_r seller_row (matched w ids) with
    | Ok rows => Done (rows ++ (seller_zero <$> remaining w ids),
                       store l (remaining w ids) σ)
    | Err e => Raised e (store l (remaining_at_raise w ids) σ)
    end.
Proof.
  intros Hl. unfold Seller.create_stocks.
  rewrite bind_run, (seller_matched_run _ _ _ _ _ Hl).
  destruct (map_r seller_row (matched w ids)) as [rows|e]; [|done].
  rewrite bind_run, (list_read_run _ _ _ (store_lookup _ _ _)).
  unfold mret, M_ret. by rewrite (foldl_snoc_map seller_zero).
Qed.

Lemma market_create_stocks_run w l wh ids (σ : Market.W) :
  heap σ !! l = Some ids →
  Market.create_stocks w l wh σ =
    match map_r (market_row wh (market_date (now σ))) (matched w ids) with
    | Ok rows =>
        Done (rows ++ (market_zero wh (market_date (now σ)) <$> remaining w ids),
              store l (remaining w ids) σ)
    | Err e => Raised e (store l (remaining_at_raise w ids) σ)
    end.
Proof.
  intros Hl. unfold Market.create_stocks.
  rewrite bind_run. unfold utcnow. fold (market_date (now σ)).
  rewrite bind_run, (market_matched_run _ _ _ _ _ _ _ Hl).
  destruct (map_r _ (matched w ids)) as [rows|e]; [|done].
  rewrite bind_run, (list_read_run _ _ _ (store_lookup _ _ _)).
  unfold mret, M_ret.
  by rewrite (foldl_snoc_map (market_zero wh (market_date (now σ)))).
Qed.

(** [map_r] returns the images in order, one for each element. *)
Lemma map_r_Forall2 {A B} (f : A → result B) (l : list A) (ys : list B) :
  map_r f l = Ok ys ↔ Forall2 (λ x y, f x = Ok y) l ys.
Proof.
  revert ys. induction l as [|x r IH]; intros ys; simpl.
  - split; [intros [= <-]; constructor|by inversion 1].
  - destruct (f x) as [y|e] eqn:Hx; simpl.
    + destruct (map_r f r) as [ys'|e] eqn:Hr; simpl.
      * split.
        -- intros [= <-]. constructor; [done|by apply IH].
        -- inversion 1 as [|? y' ? ys'' Hy Hys]; subst.
           apply IH in Hys. congruence.
      * split; [done|]. inversion 1 as [|? y' ? ys'' Hy Hys]; subst.
        apply IH in Hys. congruence.
    + split; [done|]. inversion 1; congruence.
Qed.

Lemma seller_row_offer_id x row : seller_row x = Ok row → Seller.offer_id row = code x.
Proof.
  unfold seller_row. destruct (normalize_quantity _); simpl; [|done].
  by intros [= <-].
Qed.

Lemma market_row_sku wh date x row :
  market_row wh date x = Ok row → Market.sku row = code x.
Proof.
  unfold market_row. destruct (normalize_quantity _); simpl; [|done].
  by intros [= <-].
Qed.

Lemma Forall2_fmap_eq {A B C} (f : A → C) (g : B → C) (l : list A) (k : list B) :
  Forall2 (λ x y, g y = f x) l k → g <$> k = f <$> l.
Proof.
  induction 1 as [|x y l k Hxy _ IH]; [done|]. rewrite !fmap_cons. by f_equal.
Qed.

Lemma list_new_run {Rq Rp} (ids : list string) (σ : world Rq Rp) :
  ∃ l, list_new ids σ = Done (l, store l ids σ) ∧ heap σ !! l = None.
Proof.
  exists (fresh (dom (heap σ))). split; [done|].
  apply not_elem_of_dom, is_fresh.
Qed.

(** ** Reconciliation completeness *)

Lemma seller_create_stocks_inv w l ids (σ σ' : Seller.W) out :
  heap σ !! l = Some ids →
  Seller.create_stocks w l σ = Done (out, σ') →
  ∃ rows, Forall2 (λ x row, seller_row x = Ok row) (matched w ids) rows
          ∧ out = rows ++ (seller_zero <$> remaining w ids)
          ∧ σ' = store l (remaining w ids) σ.
Proof.
  intros Hl. rewrite (seller_create_stocks_run _ _ _ _ Hl).
  destruct (map_r seller_row (matched w ids)) as [rows|e] eqn:Hrows; [|done].
  intros [= <- <-]. exists rows. by rewrite <- map_r_Forall2.
Qed.

Lemma market_create_stocks_inv w l wh ids (σ σ' : Market.W) out :
  heap σ !! l = Some ids →
  Market.create_stocks w l wh σ = Done (out, σ') →
  ∃ rows,
    Forall2 (λ x row, market_row wh (market_date (now σ)) x = Ok row)
            (matched w ids) rows
    ∧ out = rows ++ (market_zero wh (market_date (now σ)) <$> remaining w ids)
    ∧ σ' = store l (remaining w ids) σ.
Proof.
  intros Hl. rewrite (market_create_stocks_run _ _ _ _ _ Hl).
  destruct (map_r _ (matched w ids)) as [rows|e] eqn:Hrows; [|done].
  intros [= <- <-]. exists rows. by rewrite <- map_r_Forall2.
Qed.

Lemma reconciled_ids {R} (sku : R → string) (zero : string → R)
    (w : list watch) (ids : list string) (rows : list R) :
  (∀ id, sku (zero id) = id) →
  Forall2 (λ x row, sku row = code x) (matched w ids) rows →
  sku <$> (rows ++ (zero <$> remaining w ids)) ≡ₚ ids.
Proof.
  intros Hzero Hrows. rewrite fmap_app, <- list_fmap_compose.
  rewrite (Forall2_fmap_eq code sku _ _ Hrows).
  rewrite (list_fmap_ext (sku ∘ zero) id) by (intros; apply Hzero).
  rewrite list_fmap_id. apply sweep_perm.
Qed.

(** C1, as amended.  Whenever [create_stocks] returns, on either platform,
    its result is the records of the rows matched by the pass over the
    inventory, in inventory order, followed by the zero-stock records of
    the ids the pass has left, in listing order: a row is matched when
    its code is in the working list at its turn, and takes one occurrence
    of it out.  So the offer ids of the result are a permutation of the
    offer-id list it was given: nothing added, nothing lost, each id as
    often as the list has it, hence once each when the ids of the list
    are distinct; the ids left are then those that are the code of no
    row. *)
Theorem create_stocks_offer_ids (w : list watch) (l : loc) (ids : list string) :
  (∀ (σ σ' : Seller.W) out,
      heap σ !! l = Some ids →
      Seller.create_stocks w l σ = Done (out, σ') →
      Seller.offer_id <$> out ≡ₚ ids
      ∧ (NoDup ids → NoDup (Seller.offer_id <$> out))
      ∧ Seller.offer_id <$> out = (code <$> matched w ids) ++ remaining w ids
      ∧ ∃ rows,
          out = rows ++ (seller_zero <$> remaining w ids)
          ∧ Forall2 (λ x row, seller_row x = Ok row) (matched w ids) rows)
  ∧ (∀ wh (σ σ' : Market.W) out,
      heap σ !! l = Some ids →
      Market.create_stocks w l wh σ = Done (out, σ') →
      Market.sku <$> out ≡ₚ ids
      ∧ (NoDup ids → NoDup (Market.sku <$> out))
      ∧ Market.sku <$> out = (code <$> matched w ids) ++ remaining w ids
      ∧ ∃ rows,
          out = rows ++ (market_zero wh (market_date (now σ)) <$> remaining w ids)
          ∧ Forall2 (λ x row, market_row wh (market_date (now σ)) x = Ok row)
                    (matched w ids) rows)
  ∧ matched w ids `sublist_of` w
  ∧ Forall (λ x, code x ∈ ids) (matched w ids)
  ∧ remaining w ids `sublist_of` ids
  ∧ (NoDup ids → remaining w ids = filter (λ id, id ∉ code <$> w) ids).
Proof.
  split_and!.
  - intros σ σ' out Hl Hrun.
    destruct (seller_create_stocks_inv _ _ _ _ _ _ Hl Hrun) as (rows & Hrows & -> & _).
    assert (Seller.offer_id <$> rows ++ (seller_zero <$> remaining w ids)
            = (code <$> matched w ids) ++ remaining w ids) as Hids.
    { rewrite fmap_app, <- list_fmap_compose. f_equal.
      - apply Forall2_fmap_eq. eapply Forall2_impl; [done|].
        apply seller_row_offer_id.
      - by rewrite <- (list_fmap_id (remaining w ids)) at 2. }
    assert (Seller.offer_id <$> rows ++ (seller_zero <$> remaining w ids) ≡ₚ ids)
      as Hperm by (rewrite Hids; apply sweep_perm).
    split_and!; [done|by intros; rewrite Hperm|done|by exists rows].
  - intros wh σ σ' out Hl Hrun.
    destruct (market_create_stocks_inv _ _ _ _ _ _ _ Hl Hrun) as (rows & Hrows & -> & _).
    assert (Market.sku <$> rows
              ++ (market_zero wh (market_date (now σ)) <$> remaining w ids)
            = (code <$> matched w ids) ++ remaining w ids) as Hids.
    { rewrite fmap_app, <- list_fmap_compose. f_equal.
      - apply Forall2_fmap_eq. eapply Forall2_impl; [done|].
        apply market_row_sku.
      - by rewrite <- (list_fmap_id (remaining w ids)) at 2. }
    assert (Market.sku <$> rows
              ++ (market_zero wh (market_date (now σ)) <$> remaining w ids) ≡ₚ ids)
      as Hperm by (rewrite Hids; apply sweep_perm).
    split_and!; [done|by intros; rewrite Hperm|done|by exists rows].
  - apply matched_sublist.
  - apply Forall_forall. apply matched_in_ids.
  - apply remaining_sublist.
  - apply remaining_filter.
Qed.

Lemma create_stocks_offer_ids_witness :
  Seller.offer_id <$> [Seller.Stock "A1" 100; Seller.Stock "A2" 0; Seller.Stock "A3" 0]
  ≡ₚ scenario_ids
  ∧ Seller.offer_id
      <$> [Seller.Stock "A1" 100; Seller.Stock "A2" 0; Seller.Stock "A3" 0]
    = (code <$> matched scenario_inventory scenario_ids)
        ++ remaining scenario_inventory scenario_ids.
Proof.
  destruct (proj1 (create_stocks_offer_ids scenario_inventory 1%positive scenario_ids)
              scenario_seller (store 1%positive ["A3"%string] scenario_seller)
              [Seller.Stock "A1" 100; Seller.Stock "A2" 0; Seller.Stock "A3" 0])
    as (Hperm & _ & Hids & _).
  - reflexivity.
  - vm_compute. reflexivity.
  - by split.
Defined.

(** The claim as the specification words it fails on an offer-id list with
    a repeated id: the id A, listed twice, is matched once and defaulted to
    zero once, and so occurs twice in the result. *)
Lemma create_stocks_repeats_listed_twice :
  Seller.create_stocks [watch_A] 1%positive twice_A_seller
  = Done ([Seller.Stock "A" 5; Seller.Stock "A" 0],
          store 1%positive ["A"%string] twice_A_seller)
  ∧ ¬ NoDup (Seller.offer_id <$> [Seller.Stock "A" 5; Seller.Stock "A" 0]).
Proof.
  split; [vm_compute; reflexivity|].
  intros [Hin _]%NoDup_cons. apply Hin. left.
Qed.

(** ** Reconciliation run twice *)

Lemma seller_twice_run w ids (σ : Seller.W) :
  (∃ e σ', seller_twice w ids σ = Raised e σ')
  ∨ (∃ out σ', seller_twice w ids σ = Done ((out, out), σ')).
Proof.
  unfold seller_twice.
  destruct (list_new_run ids σ) as (l1 & Hnew1 & _).
  rewrite (bind_done _ _ _ _ _ Hnew1), bind_run.
  rewrite (seller_create_stocks_run _ _ ids) by apply store_lookup.
  destruct (map_r seller_row (matched w ids)) as [rows|e] eqn:Hrows; [|eauto].
  set (σ1 := store l1 (remaining w ids) (store l1 ids σ)).
  destruct (list_new_run ids σ1) as (l2 & Hnew2 & _).
  rewrite (bind_done _ _ _ _ _ Hnew2), bind_run.
  rewrite (seller_create_stocks_run _ _ ids) by apply store_lookup.
  rewrite Hrows. right. eauto.
Qed.

Lemma undated_row wh d d' x row row' :
  market_row wh d x = Ok row → market_row wh d' x = Ok row' →
  undated row' = undated row.
Proof.
  unfold market_row. destruct (normalize_quantity _); simpl; [|done].
  by intros [= <-] [= <-].
Qed.

Lemma undated_rows wh d d' m rows rows' :
  map_r (market_row wh d) m = Ok rows → map_r (market_row wh d') m = Ok rows' →
  undated <$> rows' = undated <$> rows.
Proof.
  rewrite !map_r_Forall2. intros H. revert rows'.
  induction H as [|x row m rows Hx _ IH]; intros rows'; inversion 1; subst; [done|].
  rewrite !fmap_cons. f_equal; [by eapply undated_row|by apply IH].
Qed.

Lemma undated_zeros wh d d' (rest : list string) :
  undated <$> (market_zero wh d' <$> rest) = undated <$> (market_zero wh d <$> rest).
Proof. rewrite <- !list_fmap_compose. by apply list_fmap_ext. Qed.

Lemma market_twice_run w ids wh t (σ : Market.W) :
  (∃ e σ', market_twice w ids wh t σ = Raised e σ')
  ∨ (∃ first second σ',
        market_twice w ids wh t σ = Done ((first, second), σ')
        ∧ undated <$> second = undated <$> first
        ∧ (market_date t = market_date (now σ) → second = first)).
Proof.
  unfold market_twice.
  destruct (list_new_run ids σ) as (l1 & Hnew1 & _).
  rewrite (bind_done _ _ _ _ _ Hnew1), bind_run.
  rewrite (market_create_stocks_run _ _ _ ids) by apply store_lookup.
  change (now (store l1 ids σ)) with (now σ).
  destruct (map_r _ (matched w ids)) as [rows|e] eqn:Hrows; [|eauto].
  rewrite bind_run. unfold elapse.
  set (σ1 := set_now t _).
  destruct (list_new_run ids σ1) as (l2 & Hnew2 & _).
  rewrite (bind_done _ _ _ _ _ Hnew2), bind_run.
  rewrite (market_create_stocks_run _ _ _ ids) by apply store_lookup.
  change (now (store l2 ids σ1)) with t.
  destruct (map_r (market_row wh (market_date t)) (matched w ids))
    as [rows'|e] eqn:Hrows'; [|eauto].
  right. eexists _, _, _. split_and!; [done| |].
  - rewrite !fmap_app. f_equal; [by eapply undated_rows|apply undated_zeros].
  - intros Ht. rewrite Ht in *. congruence.
Qed.

(** C3, as amended.  Run twice on the same inputs, each run on its own
    copy of the offer ids, the seller reconciler returns the same list
    both times.  The market reconciler stamps every record with the
    second the clock shows when it starts: its two results are equal in
    all but the [updatedAt] fields, and are equal when the clock shows the
    same second at both runs. *)
Theorem create_stocks_twice (w : list watch) (ids : list string) :
  (∀ (σ σ' : Seller.W) first second,
      seller_twice w ids σ = Done ((first, second), σ') → second = first)
  ∧ (∀ wh t (σ σ' : Market.W) first second,
      market_twice w ids wh t σ = Done ((first, second), σ') →
      undated <$> second = undated <$> first
      ∧ (market_date t = market_date (now σ) → second = first)).
Proof.
  split.
  - intros σ σ' first second Hrun.
    destruct (seller_twice_run w ids σ) as [(e & σ'' & He)|(out & σ'' & Hout)];
      congruence.
  - intros wh t σ σ' first second Hrun.
    destruct (market_twice_run w ids wh t σ)
      as [(e & σ'' & He)|(f & s & σ'' & Hout & Hund & Heq)]; [congruence|].
    rewrite Hrun in Hout. by injection Hout as <- <- _.
Qed.

Lemma create_stocks_twice_witness :
  [Seller.Stock "A1" 100; Seller.Stock "A2" 0; Seller.Stock "A3" 0]
  = [Seller.Stock "A1" 100; Seller.Stock "A2" 0; Seller.Stock "A3" 0]
  ∧ undated <$> [market_zero "W" "2023-07-09T12:00:01Z" "A"]
    = undated <$> [market_zero "W" "2023-07-09T12:00:00Z" "A"].
Proof.
  split.
  - apply (proj1 (create_stocks_twice scenario_inventory scenario_ids) quiet_seller
             (store 2%positive ["A3"%string]
                (store 1%positive ["A3"%string] quiet_seller))).
    vm_compute. reflexivity.
  - refine (proj1 (proj2 (create_stocks_twice [] ["A"%string]) "W"%string
                       one_second_later quiet_market
                       (store 2%positive ["A"%string]
                          (set_now one_second_later
                             (store 1%positive ["A"%string] quiet_market)))
                       [market_zero "W" "2023-07-09T12:00:00Z" "A"]
                       [market_zero "W" "2023-07-09T12:00:01Z" "A"] _)).
    vm_compute. reflexivity.
Defined.

(** The claim fails on the market platform: one second apart, the two runs
    return lists that differ in their [updatedAt] fields. *)
Lemma market_create_stocks_twice_differs :
  ∃ σ',
    market_twice [] ["A"%string] "W" one_second_later quiet_market
    = Done (([market_zero "W" "2023-07-09T12:00:00Z" "A"],
             [market_zero "W" "2023-07-09T12:00:01Z" "A"]), σ')
    ∧ [market_zero "W" "2023-07-09T12:00:01Z" "A"]
      ≠ [market_zero "W" "2023-07-09T12:00:00Z" "A"].
Proof.
  eexists. split; [vm_compute; reflexivity|discriminate].
Qed.

(** ** Price records *)

Lemma seller_prices_loop_run w l ids (σ : Seller.W) acc :
  heap σ !! l = Some ids →
  Seller.create_prices_loop w l acc σ =
    match map_r seller_price_row (filter (λ x, code x ∈ ids) w) with
    | Ok rows => Done (acc ++ rows, σ)
    | Err e => Raised e σ
    end.
Proof.
  intros Hl. revert acc. induction w as [|x r IH]; intros acc.
  - cbn. by rewrite app_nil_r.
  - cbn [Seller.create_prices_loop].
    rewrite bind_run, (list_contains_run _ _ _ _ Hl).
    change (py_str (kod x)) with (code x).
    destruct (decide (code x ∈ ids)) as [Hx|Hx].
    + rewrite (proj2 (contains_spec _ _) Hx), filter_cons_True by done.
      cbn [map_r]. unfold seller_price_row at 1. rewrite bind_run. unfold lift.
      destruct (call_price_conversion (tsena x)) as [p|e]; [|done].
      cbn [rbind]. rewrite IH.
      destruct (map_r seller_price_row _); [|done].
      cbn [rbind]. by rewrite <- app_assoc.
    + rewrite (proj2 (contains_false _ _) Hx), filter_cons_False by done.
      apply IH.
Qed.

Lemma market_prices_loop_run w l ids (σ : Market.W) acc :
  heap σ !! l = Some ids →
  Market.create_prices_loop w l acc σ =
    match map_r market_price_row (filter (λ x, code x ∈ ids) w) with
    | Ok rows => Done (acc ++ rows, σ)
    | Err e => Raised e σ
    end.
Proof.
  intros Hl. revert acc. induction w as [|x r IH]; intros acc.
  - cbn. by rewrite app_nil_r.
  - cbn [Market.create_prices_loop].
    rewrite bind_run, (list_contains_run _ _ _ _ Hl).
    change (py_str (kod x)) with (code x).
    destruct (decide (code x ∈ ids)) as [Hx|Hx].
    + rewrite (proj2 (contains_spec _ _) Hx), filter_cons_True by done.
      cbn [map_r]. unfold market_price_row at 1. rewrite bind_run. unfold lift.
      destruct (call_price_conversion (tsena x)) as [p|e]; [|done].
      cbn [rbind]. rewrite bind_run.
      destruct (py_int (CStr p)) as [v|e]; [|done].
      cbn [rbind]. rewrite IH.
      destruct (map_r market_price_row _); [|done].
      cbn [rbind]. by rewrite <- app_assoc.
    + rewrite (proj2 (contains_false _ _) Hx), filter_cons_False by done.
      apply IH.
Qed.

Lemma seller_price_row_inv x p :
  seller_price_row x = Ok p →
  ∃ s, tsena x = CStr s
       ∧ p = Seller.Price "UNKNOWN" "RUB" (code x) "0" (price_conversion s).
Proof.
  unfold seller_price_row, call_price_conversion.
  destruct (tsena x) as [| |s]; simpl; [done..|]. intros [= <-]. eauto.
Qed.


Lemma price_ids_in_inventory {R} (pid : R → string) (w : list watch)
    (ids : list string) (prices : list R) :
  Forall2 (λ x p, pid p = code x) (filter (λ x, code x ∈ ids) w) prices →
  ∀ id, id ∈ pid <$> prices → id ∈ ids ∧ id ∈ code <$> w.
Proof.
  intros H id. rewrite (Forall2_fmap_eq code pid _ _ H).
  intros (x & -> & [Hx Hw]%list_elem_of_filter)%list_elem_of_fmap.
  split; [done|]. by apply list_elem_of_fmap_2.
Qed.



(** ** The offer-id list after reconciliation *)

Lemma filter_none {A} (P : A → Prop) `{!∀ x, Decision (P x)} (l : list A) :
  (∀ x, x ∈ l → ¬ P x) → filter P l = [].
Proof.
  induction l as [|x r IH]; intros Hl; [done|].
  rewrite filter_cons_False by (apply Hl; left).
  apply IH. intros y Hy. apply Hl. by right.
Qed.

Lemma seller_create_prices_frame w l (σ σ' : Seller.W) prices :
  Seller.create_prices w l σ = Done (prices, σ') → σ' = σ.
Proof.
  unfold Seller.create_prices. destruct (heap σ !! l) as [ids|] eqn:Hl.
  - rewrite (seller_prices_loop_run _ _ _ _ _ Hl).
    destruct (map_r seller_price_row _); [|done]. by intros [= _ <-].
  - destruct w as [|x r]; cbn; [by intros [= _ <-]|].
    rewrite bind_run. unfold list_contains, list_read.
    by rewrite bind_run, Hl.
Qed.

Lemma seller_stocks_then_prices_inv w l ids (σ σ' : Seller.W) stocks prices :
  heap σ !! l = Some ids →
  seller_stocks_then_prices w l σ = Done ((stocks, prices), σ') →
  Seller.create_stocks w l σ = Done (stocks, store l (remaining w ids) σ)
  ∧ Seller.create_prices w l (store l (remaining w ids) σ) = Done (prices, σ').
Proof.
  intros Hl. unfold seller_stocks_then_prices.
  intros (stocks' & σ1 & Hstocks & Hrest)%bind_inv.
  apply bind_inv in Hrest as (prices' & σ2 & Hprices & Hret).
  injection Hret as <- <- <-.
  destruct (seller_create_stocks_inv _ _ _ _ _ _ Hl Hstocks) as (_ & _ & _ & ->).
  done.
Qed.

(** C9, as amended.  [create_stocks] changes the list object it is given
    and nothing else: on return the list holds the input ids less one
    occurrence (the first) of the code of each matched row, so that
    matched codes and left-over ids together are a permutation of the
    input; when the input ids are distinct these are the ids that are the
    code of no row.  [create_prices] changes nothing.  Run after
    [create_stocks] on the same list object, [create_prices] makes records
    only for codes that still occur in the list, and none at all when the
    input ids are distinct. *)
Theorem create_stocks_consumes_offer_ids (w : list watch) (l : loc) (ids : list string) :
  (∀ (σ σ' : Seller.W) out,
      heap σ !! l = Some ids →
      Seller.create_stocks w l σ = Done (out, σ') →
      σ' = store l (remaining w ids) σ
      ∧ (code <$> matched w ids) ++ remaining w ids ≡ₚ ids
      ∧ (NoDup ids → remaining w ids = filter (λ id, id ∉ code <$> w) ids))
  ∧ (∀ wh (σ σ' : Market.W) out,
      heap σ !! l = Some ids →
      Market.create_stocks w l wh σ = Done (out, σ') →
      σ' = store l (remaining w ids) σ
      ∧ (code <$> matched w ids) ++ remaining w ids ≡ₚ ids
      ∧ (NoDup ids → remaining w ids = filter (λ id, id ∉ code <$> w) ids))
  ∧ (∀ (σ σ' : Seller.W) prices,
      Seller.create_prices w l σ = Done (prices, σ') → σ' = σ)
  ∧ (∀ (σ σ' : Seller.W) stocks prices,
      heap σ !! l = Some ids →
      seller_stocks_then_prices w l σ = Done ((stocks, prices), σ') →
      Forall (λ p, Seller.pr_offer_id p ∈ remaining w ids) prices
      ∧ (NoDup ids → prices = [])).
Proof.
  split_and!.
  - intros σ σ' out Hl Hrun.
    destruct (seller_create_stocks_inv _ _ _ _ _ _ Hl Hrun) as (_ & _ & _ & ->).
    split_and!; [done|apply sweep_perm|apply remaining_filter].
  - intros wh σ σ' out Hl Hrun.
    destruct (market_create_stocks_inv _ _ _ _ _ _ _ Hl Hrun) as (_ & _ & _ & ->).
    split_and!; [done|apply sweep_perm|apply remaining_filter].
  - intros σ σ' prices. apply seller_create_prices_frame.
  - intros σ σ' stocks prices Hl Hrun.
    destruct (seller_stocks_then_prices_inv _ _ _ _ _ _ _ Hl Hrun) as [_ Hprices].
    unfold Seller.create_prices in Hprices.
    rewrite (seller_prices_loop_run _ _ (remaining w ids)) in Hprices
      by apply store_lookup.
    destruct (map_r seller_price_row _) as [rows|e] eqn:Hrows; [|done].
    injection Hprices as <- _. split.
    + apply map_r_Forall2 in Hrows. apply Forall_forall. intros p Hp.
      eapply (price_ids_in_inventory Seller.pr_offer_id w (remaining w ids)).
      * eapply Forall2_impl; [done|].
        by intros x p' (s & _ & ->)%seller_price_row_inv.
      * by apply list_elem_of_fmap_2.
    + intros Hnd. rewrite filter_none in Hrows; [by injection Hrows as <-|].
      intros x Hx. by apply remaining_no_code.
Qed.

Lemma create_stocks_consumes_offer_ids_witness :
  store 1%positive ["A3"%string] scenario_seller
  = store 1%positive (remaining scenario_inventory scenario_ids) scenario_seller
  ∧ (code <$> matched scenario_inventory scenario_ids)
      ++ remaining scenario_inventory scenario_ids ≡ₚ scenario_ids
  ∧ (NoDup scenario_ids →
     remaining scenario_inventory scenario_ids
     = filter (λ id, id ∉ code <$> scenario_inventory) scenario_ids).
Proof.
  apply (proj1 (create_stocks_consumes_offer_ids scenario_inventory 1%positive
                  scenario_ids)
           scenario_seller (store 1%positive ["A3"%string] scenario_seller)
           [Seller.Stock "A1" 100; Seller.Stock "A2" 0; Seller.Stock "A3" 0]).
  - reflexivity.
  - vm_compute. reflexivity.
Defined.

(** The claim fails on an offer-id list with a repeated id: after
    [create_stocks] the list still holds the matched code A, and
    [create_prices] on the same list makes a price record for it. *)
Lemma create_stocks_leaves_matched_code :
  seller_stocks_then_prices [watch_A] 1%positive twice_A_seller
  = Done (([Seller.Stock "A" 5; Seller.Stock "A" 0],
           [Seller.Price "UNKNOWN" "RUB" "A" "0" "100"]),
          store 1%positive ["A"%string] twice_A_seller)
  ∧ heap (store 1%positive ["A"%string] twice_A_seller) !! 1%positive
    = Some ["A"%string]
  ∧ matched [watch_A] ["A"; "A"]%string = [watch_A]
  ∧ code watch_A = "A"%string.
Proof. split_and!; vm_compute; reflexivity. Qed.

(** ** Offer listing *)

Section Listing.
Context {Rq Rp : Type}.
Implicit Types (σ : world Rq Rp).

Lemma request_run σ (rq : Rq) (r : Rp) (rs : list Rp) :
  serves σ (r :: rs) →
  request rq σ = Done (r, sends [rq] σ) ∧ serves (sends [rq] σ) rs.
Proof.
  intros Hs. split.
  - unfold request. specialize (Hs 0%nat r eq_refl).
    rewrite Nat.add_0_r in Hs. by rewrite Hs.
  - intros i r' Hr'. specialize (Hs (S i) r' Hr'). simpl.
    by rewrite <- Nat.add_succ_r.
Qed.

Lemma sends_sends (c : Rq) (cs : list Rq) σ :
  sends cs (sends [c] σ) = sends (c :: cs) σ.
Proof.
  unfold sends. simpl. f_equal.
  by rewrite reverse_cons, <- app_assoc.
Qed.

End Listing.

Lemma len_app {A} (l k : list A) : Py.len (l ++ k) = (Py.len l + Py.len k)%Z.
Proof. unfold Py.len. rewrite length_app. lia. Qed.

Lemma seller_loop_run pages : ∀ (σ : Seller.W) last_id acc fuel,
  serves σ (Seller.ProductListResult <$> pages) →
  seller_ends (Py.len acc) pages →
  Seller.get_offer_ids_loop fuel last_id acc σ =
    if decide (length pages ≤ fuel)
    then Done (acc ++ concat (Seller.items <$> pages),
               sends (seller_calls last_id pages) σ)
    else OutOfFuel.
Proof.
  induction pages as [|p ps IH]; intros σ last_id acc fuel Hs Hend; [done|].
  destruct fuel as [|fuel]; [done|].
  cbn [Seller.get_offer_ids_loop]. unfold Seller.get_product_list.
  rewrite fmap_cons in Hs.
  destruct (request_run σ (Seller.ProductList "ALL" last_id 1000) _ _ Hs)
    as [Hrq Hs'].
  rewrite !bind_run, Hrq. unfold mret at 1, M_ret at 1.
  cbn [seller_ends] in Hend. rewrite <- len_app in Hend.
  destruct ps as [|p' ps'].
  - rewrite Hend, Z.eqb_refl. rewrite decide_True by (simpl; lia).
    simpl. by rewrite app_nil_r.
  - destruct Hend as [Hne Hend].
    destruct (Z.eqb_spec (Seller.total p) (Py.len (acc ++ Seller.items p)));
      [done|].
    rewrite (IH _ _ _ _ Hs' Hend).
    destruct (decide (length (p' :: ps') ≤ fuel)).
    + rewrite decide_True by (simpl in *; lia).
      rewrite sends_sends. cbn [fmap list_fmap concat]. by rewrite <- app_assoc.
    + rewrite decide_False by (simpl in *; lia). done.
Qed.

Lemma market_loop_run pages : ∀ (σ : Market.W) page acc fuel,
  serves σ (Market.EntriesResult <$> pages) →
  market_ends pages →
  Market.get_offer_ids_loop fuel page acc σ =
    if decide (length pages ≤ fuel)
    then Done (acc ++ concat (Market.offerMappingEntries <$> pages),
               sends (market_calls page pages) σ)
    else OutOfFuel.
Proof.
  induction pages as [|p ps IH]; intros σ page acc fuel Hs Hend; [done|].
  destruct fuel as [|fuel]; [done|].
  cbn [Market.get_offer_ids_loop]. unfold Market.get_product_list.
  rewrite fmap_cons in Hs.
  destruct (request_run σ (Market.OfferMappingEntries page 200) _ _ Hs)
    as [Hrq Hs'].
  rewrite !bind_run, Hrq. unfold mret at 1, M_ret at 1.
  cbn [market_ends] in Hend.
  destruct ps as [|p' ps'].
  - rewrite Hend. rewrite decide_True by (simpl; lia).
    simpl. by rewrite app_nil_r.
  - destruct Hend as [Hne Hend]. rewrite Hne.
    rewrite (IH _ _ _ _ Hs' Hend).
    destruct (decide (length (p' :: ps') ≤ fuel)).
    + rewrite decide_True by (simpl in *; lia).
      rewrite sends_sends. cbn [fmap list_fmap concat]. by rewrite <- app_assoc.
    + rewrite decide_False by (simpl in *; lia). done.
Qed.

(** C4, as amended.  When the platform answers the requests of a listing
    with [pages] and signals the end at the last of them and at none
    before, the listing makes one request for each page, each carrying the
    token of the page before, stops there, and returns a new list of the
    identifiers of all these pages in order: every bound on the number of
    iterations that reaches the number of pages gives this result, and no
    smaller bound gives any.  The seller platform signals by a total equal
    to the number of entries collected, the market platform by a missing
    (or empty) continuation token. *)
Theorem get_offer_ids_stops_at_last_page :
  (∀ (pages : list Seller.product_page) (σ : Seller.W),
      serves σ (Seller.ProductListResult <$> pages) →
      seller_ends 0 pages →
      ∃ l, heap σ !! l = None
        ∧ ∀ fuel,
            Seller.get_offer_ids fuel σ =
              if decide (length pages ≤ fuel)
              then Done (l, store l (Seller.p_offer_id
                                       <$> concat (Seller.items <$> pages))
                              (sends (seller_calls "" pages) σ))
              else OutOfFuel)
  ∧ (∀ (pages : list Market.entries_page) (σ : Market.W),
      serves σ (Market.EntriesResult <$> pages) →
      market_ends pages →
      ∃ l, heap σ !! l = None
        ∧ ∀ fuel,
            Market.get_offer_ids fuel σ =
              if decide (length pages ≤ fuel)
              then Done (l, store l ((λ e, Market.shopSku (Market.offer e))
                                       <$> concat (Market.offerMappingEntries
                                                     <$> pages))
                              (sends (market_calls (Some EmptyString) pages) σ))
              else OutOfFuel).
Proof.
  split.
  - intros pages σ Hs Hend. exists (fresh (dom (heap σ))).
    split; [apply not_elem_of_dom, is_fresh|].
    intros fuel. unfold Seller.get_offer_ids.
    rewrite bind_run, (seller_loop_run pages σ "" [] fuel Hs Hend).
    destruct (decide (length pages ≤ fuel)); [|done].
    by rewrite (foldl_snoc_map Seller.p_offer_id).
  - intros pages σ Hs Hend. exists (fresh (dom (heap σ))).
    split; [apply not_elem_of_dom, is_fresh|].
    intros fuel. unfold Market.get_offer_ids.
    rewrite bind_run, (market_loop_run pages σ (Some EmptyString) [] fuel Hs Hend).
    destruct (decide (length pages ≤ fuel)); [|done].
    by rewrite (foldl_snoc_map (λ e, Market.shopSku (Market.offer e))).
Qed.

Lemma two_pages_served : serves two_pages_seller (Seller.ProductListResult <$> two_pages).
Proof.
  intros i r Hr. cbn [two_pages_seller sent replies length Nat.add].
  rewrite list_lookup_fmap in Hr.
  destruct (two_pages !! i); simpl in Hr; [by injection Hr as <-|done].
Defined.

Lemma two_entries_pages_served :
  serves two_pages_market (Market.EntriesResult <$> two_entries_pages).
Proof.
  intros i r Hr. cbn [two_pages_market sent replies length Nat.add].
  rewrite list_lookup_fmap in Hr.
  destruct (two_entries_pages !! i); simpl in Hr; [by injection Hr as <-|done].
Defined.

Lemma get_offer_ids_stops_at_last_page_witness :
  (∃ l, heap two_pages_seller !! l = None
     ∧ ∀ fuel,
         Seller.get_offer_ids fuel two_pages_seller =
           if decide (length two_pages ≤ fuel)
           then Done (l, store l (Seller.p_offer_id
                                    <$> concat (Seller.items <$> two_pages))
                           (sends (seller_calls "" two_pages) two_pages_seller))
           else OutOfFuel)
  ∧ (∃ l, heap two_pages_market !! l = None
     ∧ ∀ fuel,
         Market.get_offer_ids fuel two_pages_market =
           if decide (length two_entries_pages ≤ fuel)
           then Done (l, store l ((λ e, Market.shopSku (Market.offer e))
                                    <$> concat (Market.offerMappingEntries
                                                  <$> two_entries_pages))
                           (sends (market_calls (Some EmptyString) two_entries_pages)
                                  two_pages_market))
           else OutOfFuel).
Proof.
  split.
  - apply (proj1 get_offer_ids_stops_at_last_page two_pages two_pages_seller).
    + exact two_pages_served.
    + simpl. split; [discriminate|reflexivity].
  - apply (proj2 get_offer_ids_stops_at_last_page two_entries_pages two_pages_market).
    + exact two_entries_pages_served.
    + simpl. split; reflexivity.
Defined.

Example two_pages_listing :
  Seller.get_offer_ids 1 two_pages_seller = OutOfFuel
  ∧ match Seller.get_offer_ids 2 two_pages_seller with
    | Done (l, σ') =>
        heap σ' !! l = Some ["A1"; "A2"; "A3"]%string
        ∧ sent σ' = [Seller.ProductList "ALL" "t1" 1000;
                     Seller.ProductList "ALL" "" 1000]
    | _ => False
    end.
Proof. split; [reflexivity|]. vm_compute. split; reflexivity. Qed.

(** A platform that never signals the end keeps the listing going for
    ever: no bound on the iterations gives a result. *)
Lemma market_loop_endless fuel : ∀ (σ : Market.W) page acc,
  (∀ i, ∃ p, replies σ i = Ok (Market.EntriesResult p)
             ∧ Market.not_ (Market.nextPageToken (Market.paging p)) = false) →
  Market.get_offer_ids_loop fuel page acc σ = OutOfFuel.
Proof.
  induction fuel as [|fuel IH]; intros σ page acc Hall; [done|].
  cbn [Market.get_offer_ids_loop]. unfold Market.get_product_list, request.
  destruct (Hall (length (sent σ))) as (p & Hp & Htoken).
  rewrite !bind_run, Hp. unfold mret at 1, M_ret at 1. rewrite Htoken.
  by apply IH.
Qed.

(** On the seller platform the end is signalled by equality: a listing
    whose count of entries steps over the reported total goes on. *)
Lemma seller_loop_overshoots fuel : ∀ (σ : Seller.W) last_id acc,
  (∀ i, replies σ i = replies overshooting_seller i) →
  Z.even (Py.len acc) = true →
  Seller.get_offer_ids_loop fuel last_id acc σ = OutOfFuel.
Proof.
  induction fuel as [|fuel IH]; intros σ last_id acc Hall Heven; [done|].
  cbn [Seller.get_offer_ids_loop]. unfold Seller.get_product_list, request.
  rewrite !bind_run, Hall. cbn [overshooting_seller replies].
  unfold mret at 1, M_ret at 1. cbn [Seller.items Seller.total Seller.last_id].
  destruct (Z.eqb_spec 3 (Py.len (acc ++ [Seller.Product 1 "A1"; Seller.Product 2 "A2"])))
    as [Heq|_].
  - rewrite len_app in Heq. change (Py.len [_; _]) with 2%Z in Heq.
    assert (Py.len acc = 1%Z) as H1 by lia. by rewrite H1 in Heven.
  - apply IH; [done|]. rewrite len_app. change (Py.len [_; _]) with 2%Z.
    by rewrite Z.even_add, Heven.
Qed.

(** The claim as the specification words it fails: the listing does not
    end on every sequence of pages.  On a market platform that hands out a
    continuation token with every page, and on a seller platform whose
    pages of two entries report a total of three, so that the count
    collected passes the total and never equals it, no bound on the
    iterations gives a result. *)
Lemma get_offer_ids_runs_for_ever :
  (∀ fuel, Market.get_offer_ids fuel endless_market = OutOfFuel)
  ∧ (∀ fuel, Seller.get_offer_ids fuel overshooting_seller = OutOfFuel)
  ∧ (∀ i, ∃ p, replies overshooting_seller i = Ok (Seller.ProductListResult p)
               ∧ Py.len (Seller.items p) = 2%Z ∧ Seller.total p = 3%Z).
Proof.
  split_and!.
  - intros fuel. unfold Market.get_offer_ids.
    rewrite bind_run, market_loop_endless; [done|].
    intros i. eexists. split; reflexivity.
  - intros fuel. unfold Seller.get_offer_ids.
    by rewrite bind_run, seller_loop_overshoots.
  - intros i. eexists. split_and!; reflexivity.
Qed.

(** ** Upload of the stocks *)

Section ForEach.
Context {Rq Rp A : Type} (mk : A → Rq).
Implicit Types (σ : world Rq Rp) (chunks : list A).

Lemma for_each_request_inv chunks : ∀ σ σ' u,
  for_each (λ c, _ ← request (Rp:=Rp) (mk c); mret ()) chunks σ = Done (u, σ') →
  σ' = sends (mk <$> chunks) σ.
Proof.
  induction chunks as [|c cs IH]; intros σ σ' u; cbn [for_each].
  - intros [= _ <-]. by destruct σ.
  - intros (? & σ1 & Hc & Hcs)%bind_inv.
    apply bind_inv in Hc as (r & σ1' & Hrq & [= _ <-]).
    apply IH in Hcs as ->. unfold request in Hrq.
    destruct (replies σ (length (sent σ))); [|done]. injection Hrq as _ <-.
    by rewrite fmap_cons, <- sends_sends.
Qed.

Lemma for_each_request_run chunks : ∀ σ (rs : list Rp),
  serves σ rs → length rs = length chunks →
  for_each (λ c, _ ← request (Rp:=Rp) (mk c); mret ()) chunks σ
  = Done ((), sends (mk <$> chunks) σ).
Proof.
  induction chunks as [|c cs IH]; intros σ rs Hs Hlen; cbn [for_each].
  - by destruct σ.
  - destruct rs as [|r rs]; [done|]. injection Hlen as Hlen.
    destruct (request_run σ (mk c) r rs Hs) as [Hrq Hs'].
    rewrite !bind_run, Hrq. unfold mret at 1, M_ret at 1.
    rewrite (IH _ rs Hs' Hlen). by rewrite fmap_cons, sends_sends.
Qed.

End ForEach.

Lemma seller_create_stocks_bound w l (σ σ' : Seller.W) out :
  Seller.create_stocks w l σ = Done (out, σ') → ∃ ids, heap σ !! l = Some ids.
Proof.
  destruct (heap σ !! l) as [ids|] eqn:Hl; [eauto|].
  unfold Seller.create_stocks. rewrite bind_run.
  destruct w as [|x r]; cbn [Seller.create_stocks_matched].
  - unfold mret at 1, M_ret at 1. rewrite bind_run. unfold list_read. by rewrite Hl.
  - rewrite bind_run. unfold list_contains, list_read. by rewrite bind_run, Hl.
Qed.

Lemma market_create_stocks_bound w l wh (σ σ' : Market.W) out :
  Market.create_stocks w l wh σ = Done (out, σ') → ∃ ids, heap σ !! l = Some ids.
Proof.
  destruct (heap σ !! l) as [ids|] eqn:Hl; [eauto|].
  unfold Market.create_stocks. rewrite bind_run. unfold utcnow. rewrite bind_run.
  destruct w as [|x r]; cbn [Market.create_stocks_matched].
  - unfold mret at 1, M_ret at 1. rewrite bind_run. unfold list_read. by rewrite Hl.
  - rewrite bind_run. unfold list_contains, list_read. by rewrite bind_run, Hl.
Qed.

Lemma market_create_stocks_one_item w l wh (σ σ' : Market.W) out :
  Market.create_stocks w l wh σ = Done (out, σ') →
  Forall (λ s, length (Market.items s) = 1%nat) out.
Proof.
  intros Hrun.
  destruct (market_create_stocks_bound _ _ _ _ _ _ Hrun) as [ids Hl].
  destruct (market_create_stocks_inv _ _ _ _ _ _ _ Hl Hrun) as (rows & Hrows & -> & _).
  apply Forall_app. split.
  - clear Hrun. induction Hrows as [|x row m rows Hx _ IH]; constructor; [|done].
    unfold market_row in Hx. destruct (normalize_quantity _); [|done].
    by injection Hx as <-.
  - apply Forall_fmap, Forall_forall. by intros id _.
Qed.

Lemma filter_r_count_not_zero (stocks : list Market.sku_record) :
  Forall (λ s, length (Market.items s) = 1%nat) stocks →
  Py.filter_r Market.count_not_zero stocks
  = Ok (filter (λ s, sku_count s ≠ 0%Z) stocks).
Proof.
  induction 1 as [|s r Hs _ IH]; [done|].
  cbn [Py.filter_r]. unfold Market.count_not_zero at 1.
  assert (∃ item, Market.items s = [item]) as [item Hitem].
  { destruct (Market.items s) as [|item [|??]]; [done|eauto|done]. }
  assert (sku_count s = Market.count item) as Hcount.
  { unfold sku_count. by rewrite Hitem. }
  rewrite Hitem. cbn [rbind]. rewrite IH. cbn [rbind].
  destruct (Z.eqb_spec (Market.count item) 0).
  - rewrite filter_cons_False; [done|]. rewrite Hcount. by intros ?.
  - rewrite filter_cons_True; [done|]. by rewrite Hcount.
Qed.

(** C8.  [upload_stocks] returns exactly when the listing returns a list
    of offer ids, reconciliation returns the stock records for it and the
    platform accepts every chunk of them; it then returns the pair of the
    records whose stock count is not zero, in their order, and of all the
    records. *)
Theorem upload_stocks_pair (fuel : nat) (w : list watch) :
  (∀ (σ σ' : Seller.W) not_empty stocks,
      Seller.upload_stocks fuel w σ = Done ((not_empty, stocks), σ') →
      (∃ l σ1 σ2, Seller.get_offer_ids fuel σ = Done (l, σ1)
                  ∧ Seller.create_stocks w l σ1 = Done (stocks, σ2))
      ∧ not_empty = filter (λ s, Seller.stock s ≠ 0%Z) stocks)
  ∧ (∀ (σ σ1 σ2 : Seller.W) l stocks chunks rs,
      Seller.get_offer_ids fuel σ = Done (l, σ1) →
      Seller.create_stocks w l σ1 = Done (stocks, σ2) →
      divide stocks 100 = Ok chunks →
      serves σ2 rs → length rs = length chunks →
      Seller.upload_stocks fuel w σ
      = Done ((filter (λ s, Seller.stock s ≠ 0%Z) stocks, stocks),
              sends (Seller.ImportStocks <$> chunks) σ2))
  ∧ (∀ wh (σ σ' : Market.W) not_empty stocks,
      Market.upload_stocks fuel w wh σ = Done ((not_empty, stocks), σ') →
      (∃ l σ1 σ2, Market.get_offer_ids fuel σ = Done (l, σ1)
                  ∧ Market.create_stocks w l wh σ1 = Done (stocks, σ2))
      ∧ Forall (λ s, length (Market.items s) = 1%nat) stocks
      ∧ not_empty = filter (λ s, sku_count s ≠ 0%Z) stocks)
  ∧ (∀ wh (σ σ1 σ2 : Market.W) l stocks chunks rs,
      Market.get_offer_ids fuel σ = Done (l, σ1) →
      Market.create_stocks w l wh σ1 = Done (stocks, σ2) →
      divide stocks 2000 = Ok chunks →
      serves σ2 rs → length rs = length chunks →
      Market.upload_stocks fuel w wh σ
      = Done ((filter (λ s, sku_count s ≠ 0%Z) stocks, stocks),
              sends (Market.PutStocks <$> chunks) σ2)).
Proof.
  split_and!.
  - intros σ σ' not_empty stocks. unfold Seller.upload_stocks.
    intros (l & σ1 & Hids & Hrest)%bind_inv.
    apply bind_inv in Hrest as (stocks' & σ2 & Hstocks & Hrest).
    apply bind_inv in Hrest as (chunks & σ3 & _ & Hrest).
    apply bind_inv in Hrest as (? & σ4 & _ & [= <- <- _]).
    split; [|done]. eauto.
  - intros σ σ1 σ2 l stocks chunks rs Hids Hstocks Hchunks Hs Hlen.
    unfold Seller.upload_stocks.
    rewrite (bind_done _ _ _ _ _ Hids), (bind_done _ _ _ _ _ Hstocks).
    rewrite bind_run. unfold lift at 1. rewrite Hchunks, bind_run.
    unfold Seller.update_stocks.
    by rewrite (for_each_request_run Seller.ImportStocks chunks σ2 rs Hs Hlen).
  - intros wh σ σ' not_empty stocks. unfold Market.upload_stocks.
    intros (l & σ1 & Hids & Hrest)%bind_inv.
    apply bind_inv in Hrest as (stocks' & σ2 & Hstocks & Hrest).
    apply bind_inv in Hrest as (chunks & σ3 & _ & Hrest).
    apply bind_inv in Hrest as (? & σ4 & _ & Hrest).
    apply bind_inv in Hrest as (not_empty' & σ5 & Hfilter & [= <- <- _]).
    pose proof (market_create_stocks_one_item _ _ _ _ _ _ Hstocks) as Hone.
    split_and!; [eauto|done|].
    unfold lift in Hfilter. rewrite (filter_r_count_not_zero _ Hone) in Hfilter.
    by injection Hfilter as <- _.
  - intros wh σ σ1 σ2 l stocks chunks rs Hids Hstocks Hchunks Hs Hlen.
    unfold Market.upload_stocks.
    rewrite (bind_done _ _ _ _ _ Hids), (bind_done _ _ _ _ _ Hstocks).
    rewrite bind_run. unfold lift at 1. rewrite Hchunks, bind_run.
    unfold Market.update_stocks.
    rewrite (for_each_request_run Market.PutStocks chunks σ2 rs Hs Hlen).
    rewrite bind_run. unfold lift.
    by rewrite (filter_r_count_not_zero _
                  (market_create_stocks_one_item _ _ _ _ _ _ Hstocks)).
Qed.

Lemma upload_stocks_pair_witness :
  (∃ l σ1 σ2,
      Seller.get_offer_ids 2 two_pages_seller = Done (l, σ1)
      ∧ Seller.create_stocks scenario_inventory l σ1
        = Done ([Seller.Stock "A1" 100; Seller.Stock "A2" 0; Seller.Stock "A3" 0], σ2))
  ∧ [Seller.Stock "A1" 100]
    = filter (λ s, Seller.stock s ≠ 0%Z)
        [Seller.Stock "A1" 100; Seller.Stock "A2" 0; Seller.Stock "A3" 0].
Proof.
  apply (proj1 (upload_stocks_pair 2 scenario_inventory) two_pages_seller
           (World {[1%positive := ["A3"%string]]} noon (replies two_pages_seller)
              [Seller.ImportStocks
                 [Seller.Stock "A1" 100; Seller.Stock "A2" 0; Seller.Stock "A3" 0];
               Seller.ProductList "ALL" "t1" 1000;
               Seller.ProductList "ALL" "" 1000])).
  vm_compute. reflexivity.
Defined.

Example upload_stocks_market :
  match Market.upload_stocks 2 scenario_inventory "W" two_pages_market with
  | Done ((not_empty, stocks), σ') =>
      not_empty = [Market.Sku "A1" "W" [Market.Item 100 "FIT" "2023-07-09T12:00:00Z"]]
      ∧ Market.sku <$> stocks = ["A1"; "A2"; "A3"]%string
      ∧ sku_count <$> stocks = [100; 0; 0]%Z
  | _ => False
  end.
Proof. vm_compute. split_and!; reflexivity. Qed.

(** The end-to-end scenario of the specification, each function on a list
    of offer ids of its own. *)
Example scenario_stocks_and_prices :
  Seller.create_stocks scenario_inventory 1%positive scenario_seller
  = Done ([Seller.Stock "A1" 100; Seller.Stock "A2" 0; Seller.Stock "A3" 0],
          store 1%positive ["A3"%string] scenario_seller)
  ∧ Seller.create_prices scenario_inventory 1%positive scenario_seller
    = Done ([Seller.Price "UNKNOWN" "RUB" "A1" "0" "100";
             Seller.Price "UNKNOWN" "RUB" "A2" "0" "50"], scenario_seller)
  ∧ Market.create_prices scenario_inventory 1%positive scenario_market
    = Done ([Market.Price "A1" (Market.PriceValue 100 "RUR");
             Market.Price "A2" (Market.PriceValue 50 "RUR")], scenario_market).
Proof. split_and!; vm_compute; reflexivity. Qed.

(** In the [try] block of [seller.main] the two functions share one list:
    the prices come out empty. *)
Example scenario_shared_list :
  seller_stocks_then_prices scenario_inventory 1%positive scenario_seller
  = Done (([Seller.Stock "A1" 100; Seller.Stock "A2" 0; Seller.Stock "A3" 0], []),
          store 1%positive ["A3"%string] scenario_seller).
Proof. vm_compute. reflexivity. Qed.

(** The same in [seller.main] itself: whenever its [try] block runs to its
    end on a listing of distinct offer ids, no price is sent. *)
Lemma seller_get_offer_ids_inv fuel (σ σ1 : Seller.W) l :
  Seller.get_offer_ids fuel σ = Done (l, σ1) → ∃ ids, heap σ1 !! l = Some ids.
Proof.
  unfold Seller.get_offer_ids. intros (pl & σ0 & _ & Hnew)%bind_inv.
  injection Hnew as <- <-. eexists. apply store_lookup.
Qed.

Lemma main_try_prices fuel w (σ σ' : Seller.W) stocks prices :
  Seller.main_try fuel w σ = Done ((stocks, prices), σ') →
  ∃ l σ1 ids,
    Seller.get_offer_ids fuel σ = Done (l, σ1)
    ∧ heap σ1 !! l = Some ids
    ∧ (NoDup ids → prices = []).
Proof.
  unfold Seller.main_try. intros (l & σ1 & Hids & Hrest)%bind_inv.
  destruct (seller_get_offer_ids_inv _ _ _ _ Hids) as [ids Hl].
  exists l, σ1, ids. split_and!; [done..|]. intros Hnd.
  apply bind_inv in Hrest as (stocks' & σ2 & Hstocks & Hrest).
  destruct (seller_create_stocks_inv _ _ _ _ _ _ Hl Hstocks) as (_ & _ & _ & ->).
  apply bind_inv in Hrest as (chunks & σ3 & Hchunks & Hrest).
  unfold lift in Hchunks. destruct (divide stocks' 100); [|done].
  injection Hchunks as <- <-.
  apply bind_inv in Hrest as (? & σ4 & Hsent & Hrest).
  unfold Seller.update_stocks in Hsent.
  apply (for_each_request_inv Seller.ImportStocks) in Hsent as ->.
  apply bind_inv in Hrest as (prices' & σ5 & Hprices & Hrest).
  apply bind_inv in Hrest as (? & ? & _ & Hrest).
  apply bind_inv in Hrest as (? & ? & _ & [= _ <- _]).
  unfold Seller.create_prices in Hprices.
  rewrite (seller_prices_loop_run _ _ (remaining w ids)) in Hprices
    by apply store_lookup.
  rewrite filter_none in Hprices; [by injection Hprices as <- _|].
  intros row Hrow. by apply remaining_no_code.
Qed.

(** ** The builtins on sample values *)

Example int_of_str_samples :
  Py.py_int_of_str "42" = Some 42%Z
  ∧ Py.py_int_of_str " -1_000 " = Some (-1000)%Z
  ∧ Py.py_int_of_str "007" = Some 7%Z
  ∧ Py.py_int_of_str "abc" = None
  ∧ Py.py_int_of_str "" = None
  ∧ Py.py_int_of_str "1__0" = None
  ∧ Py.py_int_of_str "- 1" = None
  ∧ Py.py_int_of_str ">10" = None.
Proof. repeat split; reflexivity. Qed.

Example int_of_str_unicode_samples :
  Py.py_int_of_str "٣_٣" = Some 33%Z
  ∧ Py.py_int_of_str "-٣" = Some (-3)%Z
  ∧ Py.py_int_of_str "𝟎𝟏𝟐" = Some 12%Z
  ∧ Py.py_int_of_str "१२३" = Some 123%Z
  ∧ Py.py_int_of_str "١٢٣４５" = Some 12345%Z
  ∧ Py.py_int_of_str "٣ ٣" = None
  ∧ Py.py_int_of_str "²" = None
  ∧ Py.py_int_of_str "é" = None
  ∧ Py.py_int_of_str (nbsp +:+ "7" +:+ nbsp) = Some 7%Z
  ∧ Py.py_int_of_str (String (ascii_of_nat 28) "1") = None
  ∧ Py.py_int_of_str (String (ascii_of_nat 127) "7") = None.
Proof. repeat split; vm_compute; reflexivity. Qed.

Example str_samples :
  py_str (CInt 136748) = "136748"%string
  ∧ py_str (CInt (-12)) = "-12"%string
  ∧ py_str (CInt 0) = "0"%string
  ∧ py_str CNone = "None"%string
  ∧ normalize_quantity (CInt 1) = Ok 0%Z
  ∧ normalize_quantity (CInt 7) = Ok 7%Z
  ∧ normalize_quantity CNone = Err TypeError.
Proof. repeat split; reflexivity. Qed.

Example isoformat_samples :
  isoformat noon = "2023-07-09T12:00:00"%string
  ∧ isoformat (DateTime 2023 7 9 17 37 34 250) = "2023-07-09T17:37:34.000250"%string
  ∧ market_date (DateTime 2023 7 9 17 37 34 250) = "2023-07-09T17:37:34Z"%string.
Proof. repeat split; reflexivity. Qed.

Example slice_samples :
  Py.slice [1; 2; 3; 4; 5]%Z 4 6 = [5]%Z
  ∧ Py.slice [1; 2; 3; 4; 5]%Z (-2) 9 = [4; 5]%Z
  ∧ Py.range 0 5 2 = Ok [0; 2; 4]%Z
  ∧ Py.range 0 5 (-2) = Ok []
  ∧ Py.range 5 0 (-2) = Ok [5; 3; 1]%Z
  ∧ Py.split "." "199.99" = ["199"; "99"]%string
  ∧ Py.split "." "5'990.00 руб." = ["5'990"; "00 руб"; ""]%string.
Proof. repeat split; reflexivity. Qed.

(** * Further properties *)

(** ** Batch chunking: how many chunks, and where each element goes *)

Section DivideMore.
Context {A : Type}.
Implicit Types (lst : list A) (n : Z).

Lemma range_length_ceil (stop n : Z) :
  (1 ≤ n)%Z → (0 ≤ stop)%Z →
  Py.range_length 0 stop n = ((stop + n - 1) / n)%Z.
Proof.
  intros Hn Hs. unfold Py.range_length.
  destruct (Z.ltb_spec 0 n); [|lia].
  destruct (Z.ltb_spec 0 stop).
  - replace (stop + n - 1)%Z with (stop - 0 - 1 + 1 * n)%Z by lia.
    by rewrite Z.div_add by lia.
  - replace stop with 0%Z by lia. symmetry. apply Z.div_small. lia.
Qed.

(** X1.  For a chunk size [n >= 1], [divide] yields the number of elements
    divided by [n], rounded up, chunks, and the element at position [k] of
    the list is the element at position [k mod n] of chunk [k / n]. *)
Theorem divide_count_and_position lst n :
  (1 ≤ n)%Z →
  ∃ chunks,
    divide lst n = Ok chunks
    ∧ Py.len chunks = ((Py.len lst + n - 1) / n)%Z
    ∧ ∀ k x, lst !! k = Some x →
        ∃ c, chunks !! (k / Z.to_nat n)%nat = Some c
             ∧ c !! (k mod Z.to_nat n)%nat = Some x.
Proof.
  intros Hn. eexists. split; [by apply divide_unfold|].
  assert (0 ≤ Py.len lst)%Z as HL by (unfold Py.len; lia).
  pose proof (range_length_ceil (Py.len lst) n Hn HL) as Hceil.
  assert (0 ≤ (Py.len lst + n - 1) / n)%Z as Hpos
    by (apply Z.div_pos; lia).
  set (N := Z.to_nat n). assert (0 < N)%nat as HN by lia.
  split.
  - unfold Py.len at 1. rewrite length_map, length_seq. lia.
  - intros k x Hk. pose proof (lookup_lt_Some _ _ _ Hk) as Hlt.
    pose proof (Nat.div_mod_eq k N) as Hdm.
    pose proof (Nat.mod_upper_bound k N ltac:(lia)) as Hmod.
    exists (take N (drop (k / N * N) lst)). split.
    + rewrite list_lookup_fmap, lookup_seq_lt; [done|].
      rewrite Hceil. unfold Py.len in *.
      apply Nat2Z.inj_lt. rewrite Z2Nat.id by done.
      assert (Z.of_nat N * Z.of_nat (k / N) ≤ Z.of_nat k)%Z as Hle
        by (rewrite <- Nat2Z.inj_mul; lia).
      assert (Z.of_nat N = n) as HNn by lia. rewrite HNn in Hle.
      cut (Z.of_nat (k / N) + 1 ≤ (Z.of_nat (length lst) + n - 1) / n)%Z; [lia|].
      apply Z.div_le_lower_bound; lia.
    + rewrite lookup_take_lt by done. rewrite lookup_drop.
      rewrite <- Hk. f_equal. lia.
Qed.

End DivideMore.

Lemma divide_count_and_position_witness :
  ∃ chunks,
    divide [1; 2; 3; 4; 5]%Z 2 = Ok chunks
    ∧ Py.len chunks = ((Py.len [1; 2; 3; 4; 5]%Z + 2 - 1) / 2)%Z
    ∧ ∀ k x, [1; 2; 3; 4; 5]%Z !! k = Some x →
        ∃ c, chunks !! (k / Z.to_nat 2)%nat = Some c
             ∧ c !! (k mod Z.to_nat 2)%nat = Some x.
Proof. apply (divide_count_and_position [1; 2; 3; 4; 5]%Z 2). discriminate. Defined.

(** ** Price transformation: digits in, digits out *)

Lemma re_sub_non_digit_digits s :
  Forall (λ c, Py.is_digit c) (list_ascii_of_string (Py.re_sub_non_digit s)).
Proof.
  rewrite re_sub_non_digit_filter. apply Forall_forall.
  by intros c [Hc _]%list_elem_of_filter.
Qed.

Lemma re_sub_non_digit_id s :
  Forall (λ c, Py.is_digit c) (list_ascii_of_string s) → Py.re_sub_non_digit s = s.
Proof.
  induction s as [|c r IH]; [done|]. simpl.
  intros [Hc Hr]%Forall_cons. destruct (Py.is_digit c); [|done].
  by rewrite IH.
Qed.

Lemma before_id sep s : sep ∉ list_ascii_of_string s → before sep s = s.
Proof.
  induction s as [|c r IH]; [done|]. simpl.
  intros [Hc Hr]%not_elem_of_cons.
  destruct (Ascii.eqb_spec c sep); [congruence|]. by rewrite IH.
Qed.

Lemma digits_no_dot s :
  Forall (λ c, Py.is_digit c) (list_ascii_of_string s) →
  "."%char ∉ list_ascii_of_string s.
Proof.
  rewrite Forall_forall. intros Hall Hdot.
  specialize (Hall _ Hdot). apply Is_true_true, is_digit_cases in Hall.
  by destruct Hall as (_ & Hne & _).
Qed.

(** X2.  [price_conversion] leaves its own results as they are: converting
    a converted price changes nothing. *)
Theorem price_conversion_idempotent (price : string) :
  price_conversion (price_conversion price) = price_conversion price.
Proof.
  unfold price_conversion. rewrite !hd_split.
  set (d := Py.re_sub_non_digit (before "." price)).
  pose proof (re_sub_non_digit_digits (before "." price)) as Hd. fold d in Hd.
  rewrite before_id by by apply digits_no_dot.
  by apply re_sub_non_digit_id.
Qed.

(** On the market platform the value of a price is [int()] of the converted
    price: defined, and not negative, exactly when the price has a digit,
    and no more than [int_max_str_digits] digits, before its first ".";
    otherwise it raises [ValueError]. *)
Lemma market_price_value (price : string) :
  (price_conversion price ≠ EmptyString
   ∧ String.length (price_conversion price) ≤ Py.int_max_str_digits →
   ∃ v, py_int (CStr (price_conversion price)) = Ok v ∧ (0 ≤ v)%Z)
  ∧ (¬ (price_conversion price ≠ EmptyString
        ∧ String.length (price_conversion price) ≤ Py.int_max_str_digits) →
     py_int (CStr (price_conversion price)) = Err ValueError).
Proof.
  pose proof (py_int_of_str_digits (price_conversion price)
                (re_sub_non_digit_digits _)) as [Hsome Hnone].
  split.
  - intros [Hne Hlen]. destruct (Hsome Hne Hlen) as (v & Hv & Hpos).
    exists v. simpl. by rewrite Hv.
  - intros Hnot. simpl. rewrite Hnone; [done|].
    destruct (decide (price_conversion price = EmptyString)); [by left|].
    right. apply Nat.nle_gt. intros Hlen. by apply Hnot.
Qed.

(** ** When [create_prices] returns and when it raises *)

Lemma map_r_Ok_iff {A B} (f : A → result B) (l : list A) :
  (∃ ys, map_r f l = Ok ys) ↔ Forall (λ x, ∃ y, f x = Ok y) l.
Proof.
  induction l as [|x r IH]; simpl.
  - split; [constructor|eauto].
  - rewrite Forall_cons, <- IH. destruct (f x) as [y|e]; simpl.
    + destruct (map_r f r) as [ys|e]; simpl.
      * split; eauto.
      * split; [by intros [? ?]|by intros [_ [? ?]]].
    + split; [by intros [? ?]|by intros [[? ?] _]].
Qed.

Lemma map_r_Err {A B} (f : A → result B) (l : list A) e :
  map_r f l = Err e → ∃ x, x ∈ l ∧ f x = Err e.
Proof.
  induction l as [|x r IH]; simpl; [done|].
  destruct (f x) as [y|e'] eqn:Hx; simpl.
  - destruct (map_r f r) as [ys|e'']; simpl; [done|].
    intros [= ->]. destruct IH as (x' & Hin & Hx'); [done|].
    exists x'. split; [by right|done].
  - intros [= ->]. exists x. split; [by left|done].
Qed.

Lemma map_r_cases {A B} (f : A → result B) (l : list A) :
  ¬ Forall (λ x, ∃ y, f x = Ok y) l → ∃ e x, map_r f l = Err e ∧ x ∈ l ∧ f x = Err e.
Proof.
  intros Hnot. destruct (map_r f l) as [ys|e] eqn:Hl.
  - destruct Hnot. apply map_r_Ok_iff. eauto.
  - destruct (map_r_Err _ _ _ Hl) as (x & Hin & Hx). eauto.
Qed.

Lemma seller_price_row_Ok x : (∃ p, seller_price_row x = Ok p) ↔ priced x.
Proof.
  unfold seller_price_row, call_price_conversion, priced.
  destruct (tsena x) as [| |s]; simpl; split;
    try (by intros [? ?]); eauto.
Qed.

Lemma seller_price_row_Err x e : seller_price_row x = Err e → e = AttributeError.
Proof.
  unfold seller_price_row, call_price_conversion.
  destruct (tsena x); simpl; congruence.
Qed.

Lemma market_price_row_Ok x :
  (∃ p, market_price_row x = Ok p) ↔ priced_in_digits x.
Proof.
  unfold market_price_row, call_price_conversion, priced_in_digits.
  destruct (tsena x) as [| |s]; cbn [rbind].
  - split; [by intros [? ?]|by intros (? & ? & _)].
  - split; [by intros [? ?]|by intros (? & ? & _)].
  - destruct (decide (price_conversion s ≠ EmptyString
                      ∧ String.length (price_conversion s)
                        ≤ Py.int_max_str_digits)) as [Hs|Hs].
    + destruct (proj1 (market_price_value s) Hs) as (v & -> & _). simpl.
      split; [|eauto]. intros _. exists s. by destruct Hs.
    + rewrite (proj2 (market_price_value s) Hs). simpl.
      split; [by intros [? ?]|]. intros (s' & [= <-] & Hne & Hlen).
      by destruct Hs.
Qed.

Lemma market_price_row_value x p :
  market_price_row x = Ok p → (0 ≤ Market.value (Market.price p))%Z.
Proof.
  unfold market_price_row, call_price_conversion.
  destruct (tsena x) as [| |s]; cbn [rbind]; [done..|].
  destruct (decide (price_conversion s ≠ EmptyString
                    ∧ String.length (price_conversion s)
                      ≤ Py.int_max_str_digits)) as [Hs|Hs].
  - destruct (proj1 (market_price_value s) Hs) as (v & -> & Hv). simpl.
    by intros [= <-].
  - by rewrite (proj2 (market_price_value s) Hs).
Qed.

Lemma market_price_row_Err x e :
  market_price_row x = Err e → e = AttributeError ∨ e = ValueError.
Proof.
  unfold market_price_row, call_price_conversion.
  destruct (tsena x) as [| |s]; cbn [rbind]; [intros [= <-]; by left..|].
  destruct (decide (price_conversion s ≠ EmptyString
                    ∧ String.length (price_conversion s)
                      ≤ Py.int_max_str_digits)) as [Hs|Hs].
  - by destruct (proj1 (market_price_value s) Hs) as (v & -> & Hv).
  - rewrite (proj2 (market_price_value s) Hs). simpl. intros [= <-]. by right.
Qed.

Lemma price_conversion_of_digits s :
  Forall (λ c, Py.is_digit c) (list_ascii_of_string s) → price_conversion s = s.
Proof.
  intros Hall. unfold price_conversion.
  rewrite hd_split, before_id by by apply digits_no_dot.
  by apply re_sub_non_digit_id.
Qed.

(** X3.  [create_prices] reads the price of the rows whose code is listed
    and of no other row.  On the seller platform it returns when each of
    these prices is a string and raises [AttributeError] otherwise; on the
    market platform it returns, with values that are not negative, when
    each is a string with a digit, and no more than 4300 digits, before
    its first ".", and otherwise raises [AttributeError] or [ValueError].
    Nothing has changed at the raise. *)
Theorem create_prices_returns_or_raises (w : list watch) (l : loc) (ids : list string) :
  (∀ σ : Seller.W, heap σ !! l = Some ids →
      (Forall priced (filter (λ x, code x ∈ ids) w) →
       ∃ prices, Seller.create_prices w l σ = Done (prices, σ))
      ∧ (¬ Forall priced (filter (λ x, code x ∈ ids) w) →
         Seller.create_prices w l σ = Raised AttributeError σ))
  ∧ (∀ σ : Market.W, heap σ !! l = Some ids →
      (Forall priced_in_digits (filter (λ x, code x ∈ ids) w) →
       ∃ prices, Market.create_prices w l σ = Done (prices, σ)
                 ∧ Forall (λ p, (0 ≤ Market.value (Market.price p))%Z) prices)
      ∧ (¬ Forall priced_in_digits (filter (λ x, code x ∈ ids) w) →
         Market.create_prices w l σ = Raised AttributeError σ
         ∨ Market.create_prices w l σ = Raised ValueError σ)).
Proof.
  split.
  - intros σ Hl. unfold Seller.create_prices.
    rewrite (seller_prices_loop_run _ _ _ _ _ Hl). split.
    + intros Hall.
      destruct (proj2 (map_r_Ok_iff seller_price_row
                         (filter (λ x, code x ∈ ids) w))) as [rows ->]; [|eauto].
      eapply Forall_impl; [done|]. intros x. apply seller_price_row_Ok.
    + intros Hnot. destruct (map_r_cases seller_price_row
                               (filter (λ x, code x ∈ ids) w))
        as (e & x & -> & _ & Hx).
      * intros Hall. apply Hnot. eapply Forall_impl; [done|].
        intros x. apply seller_price_row_Ok.
      * by rewrite (seller_price_row_Err _ _ Hx).
  - intros σ Hl. unfold Market.create_prices.
    rewrite (market_prices_loop_run _ _ _ _ _ Hl). split.
    + intros Hall.
      destruct (proj2 (map_r_Ok_iff market_price_row
                         (filter (λ x, code x ∈ ids) w))) as [rows Hrows].
      { eapply Forall_impl; [done|]. intros x. apply market_price_row_Ok. }
      rewrite Hrows. exists rows. split; [done|].
      apply map_r_Forall2 in Hrows. clear Hall.
      induction Hrows as [|x p m rows Hx _ IH]; constructor; [|done].
      by eapply market_price_row_value.
    + intros Hnot. destruct (map_r_cases market_price_row
                               (filter (λ x, code x ∈ ids) w))
        as (e & x & -> & _ & Hx).
      * intros Hall. apply Hnot. eapply Forall_impl; [done|].
        intros x. apply market_price_row_Ok.
      * destruct (market_price_row_Err _ _ Hx) as [-> | ->]; auto.
Qed.

Lemma create_prices_returns_or_raises_witness :
  (∃ prices, Seller.create_prices scenario_inventory 1%positive scenario_seller
             = Done (prices, scenario_seller))
  ∧ (Market.create_prices [Watch (CStr "A1") (CStr "1") (CStr ".50")] 1%positive
       scenario_market = Raised AttributeError scenario_market
     ∨ Market.create_prices [Watch (CStr "A1") (CStr "1") (CStr ".50")] 1%positive
         scenario_market = Raised ValueError scenario_market)
  ∧ (Market.create_prices
       [Watch (CStr "A1") (CStr "1") (CStr (String "7" (zeros 4300)))] 1%positive
       scenario_market = Raised AttributeError scenario_market
     ∨ Market.create_prices
         [Watch (CStr "A1") (CStr "1") (CStr (String "7" (zeros 4300)))] 1%positive
         scenario_market = Raised ValueError scenario_market).
Proof.
  split_and!.
  - apply (proj1 (create_prices_returns_or_raises scenario_inventory 1%positive
                    scenario_ids) scenario_seller); [reflexivity|].
    apply Forall_forall. intros x [_ Hx]%list_elem_of_filter.
    apply elem_of_cons in Hx as [->|Hx]; [by eexists|].
    apply elem_of_cons in Hx as [->|Hx]; [by eexists|].
    by apply not_elem_of_nil in Hx.
  - apply (proj2 (create_prices_returns_or_raises
                    [Watch (CStr "A1") (CStr "1") (CStr ".50")] 1%positive
                    scenario_ids) scenario_market); [reflexivity|].
    rewrite filter_cons_True by (apply contains_spec; reflexivity).
    intros [(s & Hs & Hne & _) _]%Forall_cons. injection Hs as <-. by apply Hne.
  - pose proof (zeros_digits 4300) as Hd. pose proof (length_zeros 4300) as Hl.
    revert Hd Hl. generalize (zeros 4300) as z. intros z Hd Hl.
    apply (proj2 (create_prices_returns_or_raises
                    [Watch (CStr "A1") (CStr "1") (CStr (String "7" z))]
                    1%positive scenario_ids) scenario_market); [reflexivity|].
    rewrite filter_cons_True by (apply contains_spec; reflexivity).
    intros [(s & Hs & _ & Hlen) _]%Forall_cons. injection Hs as <-.
    rewrite price_conversion_of_digits in Hlen by by constructor.
    cbn [String.length] in Hlen. rewrite Hl in Hlen.
    unfold Py.int_max_str_digits in Hlen. lia.
Defined.

(** ** Quantity normalisation of an integer cell *)

(** X4.  The sentinel "1" is met by the text of the cell, so a cell that
    holds the integer 1 gives the stock 0 as well; every other integer
    cell gives its own value. *)
Theorem normalize_integer_cell (z : Z) :
  normalize_quantity (CInt z) = Ok (if (z =? 1)%Z then 0%Z else z).
Proof.
  unfold normalize_quantity. simpl.
  destruct (String.eqb_spec (Py.py_str_of_int z) ">10") as [H10|_].
  { apply (f_equal NilZero.int_of_string) in H10.
    by rewrite py_str_of_int_parse in H10. }
  destruct (String.eqb_spec (Py.py_str_of_int z) "1") as [H1|H1].
  - apply (py_str_of_int_inj z 1) in H1 as ->. done.
  - destruct (Z.eqb_spec z 1) as [->|_]; [by destruct H1|done].
Qed.

(** ** When [create_stocks] returns and when it raises *)

Lemma remove1_keeps c y l : c ≠ y → c ∈ l → c ∈ remove1 y l.
Proof.
  intros Hne. induction l as [|z r IH]; simpl; [done|].
  intros [Hcz|Hc]%elem_of_cons.
  - subst z. destruct (String.eqb_spec c y); [done|by left].
  - destruct (String.eqb_spec z y); [done|]. right. by apply IH.
Qed.

Lemma remaining_keeps w : ∀ ids c,
  c ∈ ids → c ∉ code <$> w → c ∈ remaining w ids.
Proof.
  induction w as [|x r IH]; intros ids c Hc Hw; [done|].
  rewrite fmap_cons, not_elem_of_cons in Hw. destruct Hw as [Hne Hw].
  unfold remaining. destruct (decide (code x ∈ ids)) as [Hx|Hx].
  - rewrite sweep_cons_in by done. simpl. apply IH; [|done].
    by apply remove1_keeps.
  - rewrite sweep_cons_out by done. by apply IH.
Qed.

Lemma sweep_unlisted w ids :
  (∀ x, x ∈ w → code x ∉ ids) → sweep w ids = ([], ids).
Proof.
  induction w as [|x r IH]; intros Hw; [done|].
  rewrite sweep_cons_out by (apply Hw; left).
  apply IH. intros y Hy. apply Hw. by right.
Qed.

Lemma matched_cons_in x r ids :
  code x ∈ ids → matched (x :: r) ids = x :: matched r (remove1 (code x) ids).
Proof. intros Hx. unfold matched at 1. by rewrite sweep_cons_in. Qed.

Lemma remaining_cons_in x r ids :
  code x ∈ ids → remaining (x :: r) ids = remaining r (remove1 (code x) ids).
Proof. intros Hx. unfold remaining at 1. by rewrite sweep_cons_in. Qed.

Lemma matched_cons_out x r ids :
  code x ∉ ids → matched (x :: r) ids = matched r ids.
Proof. intros Hx. unfold matched. by rewrite sweep_cons_out. Qed.

Lemma remaining_cons_out x r ids :
  code x ∉ ids → remaining (x :: r) ids = remaining r ids.
Proof. intros Hx. unfold remaining. by rewrite sweep_cons_out. Qed.

Lemma sweep_app w1 w2 ids :
  matched (w1 ++ w2) ids = matched w1 ids ++ matched w2 (remaining w1 ids)
  ∧ remaining (w1 ++ w2) ids = remaining w2 (remaining w1 ids).
Proof.
  revert ids. induction w1 as [|x r IH]; intros ids; [done|].
  rewrite <- app_comm_cons. destruct (decide (code x ∈ ids)) as [Hx|Hx].
  - rewrite !matched_cons_in, !remaining_cons_in by done.
    destruct (IH (remove1 (code x) ids)) as [-> ->]. done.
  - rewrite !matched_cons_out, !remaining_cons_out by done. apply IH.
Qed.

(** The first row that carries a listed code is matched, after the rows
    matched before it. *)
Lemma first_row_matched w1 x w2 ids :
  code x ∈ ids → code x ∉ code <$> w1 →
  ∃ m2, matched (w1 ++ x :: w2) ids = matched w1 ids ++ x :: m2.
Proof.
  intros Hx Hw1. rewrite (proj1 (sweep_app w1 (x :: w2) ids)).
  rewrite matched_cons_in by by apply remaining_keeps. eauto.
Qed.

Lemma matched_listed w ids : matched w ids ⊆ filter (λ x, code x ∈ ids) w.
Proof.
  intros x Hx. apply list_elem_of_filter. split; [by eapply matched_in_ids|].
  by eapply sublist_subseteq; [apply matched_sublist|].
Qed.

Lemma map_r_app_Err {A B} (f : A → result B) (l1 l2 : list A) x e :
  Forall (λ y, ∃ z, f y = Ok z) l1 → f x = Err e →
  map_r f (l1 ++ x :: l2) = Err e.
Proof.
  intros Hl1 Hx. induction Hl1 as [|y r [z Hy] _ IH]; simpl.
  - by rewrite Hx.
  - by rewrite Hy, IH.
Qed.

Lemma seller_row_Ok x : (∃ row, seller_row x = Ok row) ↔ normalises x.
Proof.
  unfold seller_row, normalises.
  destruct (normalize_quantity (kolichestvo x)); simpl; split;
    try (by intros [? ?]); eauto.
Qed.

Lemma market_row_Ok wh date x : (∃ row, market_row wh date x = Ok row) ↔ normalises x.
Proof.
  unfold market_row, normalises.
  destruct (normalize_quantity (kolichestvo x)); simpl; split;
    try (by intros [? ?]); eauto.
Qed.

Lemma matched_rows_Ok {R} (row : watch → result R) (w : list watch) (ids : list string) :
  (∀ x, (∃ r, row x = Ok r) ↔ normalises x) →
  Forall normalises (filter (λ x, code x ∈ ids) w) →
  ∃ rows, map_r row (matched w ids) = Ok rows.
Proof.
  intros Hrow Hall. apply map_r_Ok_iff, Forall_forall. intros x Hx.
  apply Hrow. rewrite Forall_forall in Hall. by apply Hall, matched_listed.
Qed.

Lemma matched_rows_Err {R} (row : watch → result R) (w1 w2 : list watch) x
    (ids : list string) e :
  (∀ x, (∃ r, row x = Ok r) ↔ normalises x) →
  Forall normalises w1 → code x ∈ ids → code x ∉ code <$> w1 →
  row x = Err e →
  map_r row (matched (w1 ++ x :: w2) ids) = Err e.
Proof.
  intros Hrow Hw1 Hx Hfirst He.
  destruct (first_row_matched w1 x w2 ids Hx Hfirst) as [m2 ->].
  apply map_r_app_Err; [|done]. apply Forall_forall. intros y Hy.
  apply Hrow. rewrite Forall_forall in Hw1. apply Hw1.
  by eapply sublist_subseteq; [apply matched_sublist|].
Qed.

(** The working list at the raise: what the rows before the failing one
    have left of it. *)
Lemma remaining_at_raise_app w1 w2 ids :
  Forall normalises w1 →
  remaining_at_raise (w1 ++ w2) ids = remaining_at_raise w2 (remaining w1 ids).
Proof.
  intros Hw1. revert ids. induction Hw1 as [|x r [q Hq] _ IH]; intros ids; [done|].
  rewrite <- app_comm_cons. cbn [remaining_at_raise].
  destruct (decide (code x ∈ ids)) as [Hx|Hx].
  - rewrite (proj2 (contains_spec _ _) Hx), Hq, remaining_cons_in by done.
    apply IH.
  - rewrite (proj2 (contains_false _ _) Hx), remaining_cons_out by done.
    apply IH.
Qed.

Lemma remaining_at_raise_first w1 x w2 ids e :
  Forall normalises w1 → code x ∈ ids → code x ∉ code <$> w1 →
  normalize_quantity (kolichestvo x) = Err e →
  remaining_at_raise (w1 ++ x :: w2) ids = remaining w1 ids.
Proof.
  intros Hw1 Hx Hfirst He. rewrite remaining_at_raise_app by done.
  cbn [remaining_at_raise].
  by rewrite (proj2 (contains_spec _ _) (remaining_keeps _ _ _ Hx Hfirst)), He.
Qed.

(** X5.  [create_stocks] reads the quantity of the rows whose code is
    listed and of no other row: it returns when each of these quantities
    normalises, and it raises the error of the first row of a listed code
    whose quantity does not, when the rows before it normalise.  At the
    raise the caller's list has lost the ids that the rows before the
    failing one matched, and no other. *)
Theorem create_stocks_returns_or_raises (w : list watch) (l : loc) (ids : list string) :
  (∀ σ : Seller.W, heap σ !! l = Some ids →
      (Forall normalises (filter (λ x, code x ∈ ids) w) →
       ∃ out σ', Seller.create_stocks w l σ = Done (out, σ'))
      ∧ (∀ w1 x w2 e,
           w = w1 ++ x :: w2 → Forall normalises w1 →
           code x ∈ ids → code x ∉ code <$> w1 →
           normalize_quantity (kolichestvo x) = Err e →
           Seller.create_stocks w l σ = Raised e (store l (remaining w1 ids) σ)))
  ∧ (∀ wh (σ : Market.W), heap σ !! l = Some ids →
      (Forall normalises (filter (λ x, code x ∈ ids) w) →
       ∃ out σ', Market.create_stocks w l wh σ = Done (out, σ'))
      ∧ (∀ w1 x w2 e,
           w = w1 ++ x :: w2 → Forall normalises w1 →
           code x ∈ ids → code x ∉ code <$> w1 →
           normalize_quantity (kolichestvo x) = Err e →
           Market.create_stocks w l wh σ
           = Raised e (store l (remaining w1 ids) σ))).
Proof.
  split.
  - intros σ Hl. rewrite (seller_create_stocks_run _ _ _ _ Hl). split.
    + intros Hall.
      destruct (matched_rows_Ok seller_row w ids seller_row_Ok Hall) as [rows ->].
      eauto.
    + intros w1 x w2 e -> Hw1 Hx Hfirst He.
      rewrite (matched_rows_Err seller_row w1 w2 x ids e seller_row_Ok); [|done..|].
      * by rewrite (remaining_at_raise_first _ _ _ _ e).
      * unfold seller_row. by rewrite He.
  - intros wh σ Hl. rewrite (market_create_stocks_run _ _ _ _ _ Hl). split.
    + intros Hall.
      destruct (matched_rows_Ok (market_row wh (market_date (now σ))) w ids
                  (market_row_Ok _ _) Hall) as [rows ->].
      eauto.
    + intros w1 x w2 e -> Hw1 Hx Hfirst He.
      rewrite (matched_rows_Err (market_row wh (market_date (now σ))) w1 w2 x ids e
                 (market_row_Ok _ _)); [|done..|].
      * by rewrite (remaining_at_raise_first _ _ _ _ e).
      * unfold market_row. by rewrite He.
Qed.

Lemma create_stocks_returns_or_raises_witness :
  Seller.create_stocks (watch_A :: watch_bad :: scenario_inventory) 1%positive
    (store 1%positive ["A"; "B"]%string quiet_seller)
  = Raised ValueError (store 1%positive ["B"]%string quiet_seller).
Proof.
  apply (proj2 (proj1 (create_stocks_returns_or_raises
                         (watch_A :: watch_bad :: scenario_inventory) 1%positive
                         ["A"; "B"]%string)
                  (store 1%positive ["A"; "B"]%string quiet_seller) eq_refl)
           [watch_A] watch_bad scenario_inventory ValueError).
  - reflexivity.
  - repeat constructor. by exists 5%Z.
  - apply contains_spec. reflexivity.
  - apply contains_false. reflexivity.
  - reflexivity.
Defined.

(** ** Inventory and catalogue that do not meet *)

(** X6.  When no row carries a listed code (as with an empty inventory or
    an empty offer-id list), [create_stocks] returns the zero-stock record
    of every offer id, in listing order, whatever the quantities of the
    rows are, and the offer-id list is left as it was. *)
Theorem create_stocks_nothing_listed (w : list watch) (l : loc) (ids : list string) :
  (∀ x, x ∈ w → code x ∉ ids) →
  (∀ σ : Seller.W, heap σ !! l = Some ids →
      Seller.create_stocks w l σ = Done (seller_zero <$> ids, σ))
  ∧ (∀ wh (σ : Market.W), heap σ !! l = Some ids →
      Market.create_stocks w l wh σ
      = Done (market_zero wh (market_date (now σ)) <$> ids, σ)).
Proof.
  intros Hw. pose proof (sweep_unlisted w ids Hw) as Hsweep. split.
  - intros σ Hl. rewrite (seller_create_stocks_run _ _ _ _ Hl).
    unfold matched, remaining. rewrite Hsweep. simpl. by rewrite store_id.
  - intros wh σ Hl. rewrite (market_create_stocks_run _ _ _ _ _ Hl).
    unfold matched, remaining. rewrite Hsweep. simpl. by rewrite store_id.
Qed.

Lemma create_stocks_nothing_listed_witness :
  Seller.create_stocks [watch_bad] 1%positive scenario_seller
  = Done (seller_zero <$> scenario_ids, scenario_seller).
Proof.
  refine (proj1 (create_stocks_nothing_listed [watch_bad] 1%positive scenario_ids _)
            scenario_seller _).
  - intros x Hx. apply list_elem_of_singleton in Hx as ->.
    apply contains_false. reflexivity.
  - reflexivity.
Defined.

(** ** Rows that share a code *)

Lemma NoDup_fmap_eq {A B} (f : A → B) (l : list A) a b :
  NoDup (f <$> l) → a ∈ l → b ∈ l → f a = f b → a = b.
Proof.
  intros Hnd [i Hi]%list_elem_of_lookup [j Hj]%list_elem_of_lookup Hab.
  assert (i = j) as ->; [|congruence].
  eapply NoDup_lookup; [done| |]; rewrite list_lookup_fmap.
  - by rewrite Hi.
  - rewrite Hj. simpl. by rewrite Hab.
Qed.

Lemma Forall2_elem_l {A B} (P : A → B → Prop) (l : list A) (k : list B) x :
  Forall2 P l k → x ∈ l → ∃ y, y ∈ k ∧ P x y.
Proof.
  induction 1 as [|a b l k Hab _ IH]; [by intros ?%not_elem_of_nil|].
  intros [->|Hx]%elem_of_cons.
  - exists b. split; [by left|done].
  - destruct (IH Hx) as (y & Hy & HP). exists y. split; [by right|done].
Qed.

(** X7.  Of the rows that share a listed code the first one gives the
    stock: its record, with its normalised quantity, is in the result of
    [create_stocks], and when the offer ids are distinct no other record
    of the result carries that code. *)
Theorem create_stocks_first_row_wins (w1 w2 : list watch) (x : watch) (l : loc)
    (ids : list string) :
  code x ∈ ids → code x ∉ code <$> w1 →
  (∀ (σ σ' : Seller.W) out,
      heap σ !! l = Some ids →
      Seller.create_stocks (w1 ++ x :: w2) l σ = Done (out, σ') →
      ∃ q, normalize_quantity (kolichestvo x) = Ok q
           ∧ Seller.Stock (code x) q ∈ out
           ∧ (NoDup ids → ∀ s, s ∈ out → Seller.offer_id s = code x →
                s = Seller.Stock (code x) q))
  ∧ (∀ wh (σ σ' : Market.W) out,
      heap σ !! l = Some ids →
      Market.create_stocks (w1 ++ x :: w2) l wh σ = Done (out, σ') →
      ∃ q, normalize_quantity (kolichestvo x) = Ok q
           ∧ Market.Sku (code x) wh [Market.Item q "FIT" (market_date (now σ))] ∈ out
           ∧ (NoDup ids → ∀ s, s ∈ out → Market.sku s = code x →
                s = Market.Sku (code x) wh
                      [Market.Item q "FIT" (market_date (now σ))])).
Proof.
  intros Hx Hfirst.
  destruct (first_row_matched w1 x w2 ids Hx Hfirst) as [m2 Hm].
  assert (x ∈ matched (w1 ++ x :: w2) ids) as Hin.
  { rewrite Hm. apply elem_of_app. right. by left. }
  split.
  - intros σ σ' out Hl Hrun.
    destruct (seller_create_stocks_inv _ _ _ _ _ _ Hl Hrun) as (rows & Hrows & -> & _).
    destruct (Forall2_elem_l _ _ _ _ Hrows Hin) as (row & Hrow & Hx').
    unfold seller_row in Hx'.
    destruct (normalize_quantity (kolichestvo x)) as [q|e]; [|done].
    injection Hx' as <-. exists q. split_and!; [done| |].
    + apply elem_of_app. by left.
    + intros Hnd s Hs Hid.
      eapply (NoDup_fmap_eq Seller.offer_id); [|done| |done].
      * rewrite reconciled_ids; [done|done|].
        eapply Forall2_impl; [done|]. apply seller_row_offer_id.
      * apply elem_of_app. by left.
  - intros wh σ σ' out Hl Hrun.
    destruct (market_create_stocks_inv _ _ _ _ _ _ _ Hl Hrun) as (rows & Hrows & -> & _).
    destruct (Forall2_elem_l _ _ _ _ Hrows Hin) as (row & Hrow & Hx').
    unfold market_row in Hx'.
    destruct (normalize_quantity (kolichestvo x)) as [q|e]; [|done].
    injection Hx' as <-. exists q. split_and!; [done| |].
    + apply elem_of_app. by left.
    + intros Hnd s Hs Hid.
      eapply (NoDup_fmap_eq Market.sku); [|done| |done].
      * rewrite reconciled_ids; [done|done|].
        eapply Forall2_impl; [done|]. apply market_row_sku.
      * apply elem_of_app. by left.
Qed.

Lemma create_stocks_first_row_wins_witness :
  ∃ q, normalize_quantity (kolichestvo watch_A) = Ok q
       ∧ Seller.Stock (code watch_A) q
         ∈ [Seller.Stock "A" 5; Seller.Stock "A3" 0]
       ∧ (NoDup ["A"; "A3"]%string →
          ∀ s, s ∈ [Seller.Stock "A" 5; Seller.Stock "A3" 0] →
               Seller.offer_id s = code watch_A →
               s = Seller.Stock (code watch_A) q).
Proof.
  refine (proj1 (create_stocks_first_row_wins [watch_bad]
                   [Watch (CStr "A") (CStr ">10") CNone] watch_A 1%positive
                   ["A"; "A3"]%string _ _)
            (store 1%positive ["A"; "A3"]%string quiet_seller)
            (store 1%positive ["A3"%string]
               (store 1%positive ["A"; "A3"]%string quiet_seller)) _ _ _).
  - apply contains_spec. reflexivity.
  - apply contains_false. reflexivity.
  - reflexivity.
  - vm_compute. reflexivity.
Defined.

(** ** Offer listing: what a return tells, errors, listings without end *)

Lemma serves_cons {Rq Rp} (σ : world Rq Rp) (rq : Rq) (r : Rp) (rs : list Rp) :
  replies σ (length (sent σ)) = Ok r →
  serves (sends [rq] σ) rs → serves σ (r :: rs).
Proof.
  intros Hr Hrs [|i] r' Hr'.
  - rewrite Nat.add_0_r. by injection Hr' as <-.
  - specialize (Hrs i r' Hr'). simpl in Hrs. by rewrite Nat.add_succ_r.
Qed.

Lemma serves_nil {Rq Rp} (σ : world Rq Rp) : serves σ [].
Proof. by intros i r. Qed.

Lemma request_inv {Rq Rp} (σ σ' : world Rq Rp) (rq : Rq) (r : Rp) :
  request rq σ = Done (r, σ') →
  replies σ (length (sent σ)) = Ok r ∧ σ' = sends [rq] σ.
Proof.
  unfold request. destruct (replies σ (length (sent σ))); [|done].
  by intros [= <- <-].
Qed.

Lemma seller_loop_inv fuel : ∀ (σ σ' : Seller.W) last_id acc pl,
  Seller.get_offer_ids_loop fuel last_id acc σ = Done (pl, σ') →
  ∃ pages,
    serves σ (Seller.ProductListResult <$> pages)
    ∧ seller_ends (Py.len acc) pages
    ∧ length pages ≤ fuel
    ∧ pl = acc ++ concat (Seller.items <$> pages)
    ∧ σ' = sends (seller_calls last_id pages) σ.
Proof.
  induction fuel as [|fuel IH]; intros σ σ' last_id acc pl; [done|].
  cbn [Seller.get_offer_ids_loop]. unfold Seller.get_product_list.
  intros (p & σ1 & Hpage & Hrest)%bind_inv.
  apply bind_inv in Hpage as (rp & σ1' & [Hrp ->]%request_inv & Hp).
  destruct rp as [p'|]; [|done]. injection Hp as -> <-.
  destruct (Z.eqb_spec (Seller.total p) (Py.len (acc ++ Seller.items p)))
    as [Htotal|Htotal].
  - injection Hrest as <- <-. exists [p]. split_and!.
    + apply (serves_cons σ (Seller.ProductList "ALL" last_id 1000)); [done|].
      apply serves_nil.
    + simpl. by rewrite <- len_app.
    + simpl. lia.
    + simpl. by rewrite app_nil_r.
    + done.
  - apply IH in Hrest as (pages & Hs & Hend & Hlen & -> & ->).
    exists (p :: pages). split_and!.
    + rewrite fmap_cons. by eapply serves_cons.
    + cbn [seller_ends]. rewrite <- len_app.
      destruct pages as [|p' ps]; [done|]. done.
    + simpl. lia.
    + cbn [fmap list_fmap concat]. by rewrite <- app_assoc.
    + by rewrite sends_sends.
Qed.

Lemma market_loop_inv fuel : ∀ (σ σ' : Market.W) page acc pl,
  Market.get_offer_ids_loop fuel page acc σ = Done (pl, σ') →
  ∃ pages,
    serves σ (Market.EntriesResult <$> pages)
    ∧ market_ends pages
    ∧ length pages ≤ fuel
    ∧ pl = acc ++ concat (Market.offerMappingEntries <$> pages)
    ∧ σ' = sends (market_calls page pages) σ.
Proof.
  induction fuel as [|fuel IH]; intros σ σ' page acc pl; [done|].
  cbn [Market.get_offer_ids_loop]. unfold Market.get_product_list.
  intros (p & σ1 & Hpage & Hrest)%bind_inv.
  apply bind_inv in Hpage as (rp & σ1' & [Hrp ->]%request_inv & Hp).
  destruct rp as [p'|]; [|done]. injection Hp as -> <-.
  destruct (Market.not_ (Market.nextPageToken (Market.paging p))) eqn:Htoken.
  - injection Hrest as <- <-. exists [p]. split_and!.
    + apply (serves_cons σ (Market.OfferMappingEntries page 200)); [done|].
      apply serves_nil.
    + done.
    + simpl. lia.
    + simpl. by rewrite app_nil_r.
    + done.
  - apply IH in Hrest as (pages & Hs & Hend & Hlen & -> & ->).
    exists (p :: pages). split_and!.
    + rewrite fmap_cons. by eapply serves_cons.
    + cbn [market_ends]. destruct pages as [|p' ps]; [done|]. done.
    + simpl. lia.
    + cbn [fmap list_fmap concat]. by rewrite <- app_assoc.
    + by rewrite sends_sends.
Qed.

(** X8.  Whenever [get_offer_ids] returns, the platform has answered its
    requests with a finite sequence of pages of which the last, and none
    before it, carries the end signal; the list returned is a new list
    object that holds the identifiers of these pages in order, and the
    requests sent are the listing requests for these pages and no other. *)
Theorem get_offer_ids_returns_after_end_signal (fuel : nat) :
  (∀ (σ σ' : Seller.W) l,
      Seller.get_offer_ids fuel σ = Done (l, σ') →
      ∃ pages,
        serves σ (Seller.ProductListResult <$> pages)
        ∧ seller_ends 0 pages
        ∧ length pages ≤ fuel
        ∧ heap σ !! l = None
        ∧ σ' = store l (Seller.p_offer_id <$> concat (Seller.items <$> pages))
                 (sends (seller_calls "" pages) σ))
  ∧ (∀ (σ σ' : Market.W) l,
      Market.get_offer_ids fuel σ = Done (l, σ') →
      ∃ pages,
        serves σ (Market.EntriesResult <$> pages)
        ∧ market_ends pages
        ∧ length pages ≤ fuel
        ∧ heap σ !! l = None
        ∧ σ' = store l ((λ e, Market.shopSku (Market.offer e))
                          <$> concat (Market.offerMappingEntries <$> pages))
                 (sends (market_calls (Some EmptyString) pages) σ)).
Proof.
  split.
  - intros σ σ' l. unfold Seller.get_offer_ids.
    intros (pl & σ1 & Hloop & Hnew)%bind_inv.
    apply seller_loop_inv in Hloop as (pages & Hs & Hend & Hlen & -> & ->).
    rewrite (foldl_snoc_map Seller.p_offer_id) in Hnew.
    injection Hnew as <- <-. exists pages.
    split_and!; [done..| |done]. apply not_elem_of_dom, is_fresh.
  - intros σ σ' l. unfold Market.get_offer_ids.
    intros (pl & σ1 & Hloop & Hnew)%bind_inv.
    apply market_loop_inv in Hloop as (pages & Hs & Hend & Hlen & -> & ->).
    rewrite (foldl_snoc_map (λ e, Market.shopSku (Market.offer e))) in Hnew.
    injection Hnew as <- <-. exists pages.
    split_and!; [done..| |done]. apply not_elem_of_dom, is_fresh.
Qed.

Lemma get_offer_ids_returns_after_end_signal_witness :
  ∃ pages,
    serves two_pages_seller (Seller.ProductListResult <$> pages)
    ∧ seller_ends 0 pages
    ∧ length pages ≤ 5
    ∧ heap two_pages_seller !! 1%positive = None
    ∧ World {[1%positive := ["A1"; "A2"; "A3"]%string]} noon
        (replies two_pages_seller)
        [Seller.ProductList "ALL" "t1" 1000; Seller.ProductList "ALL" "" 1000]
      = store 1%positive (Seller.p_offer_id <$> concat (Seller.items <$> pages))
          (sends (seller_calls "" pages) two_pages_seller).
Proof.
  apply (proj1 (get_offer_ids_returns_after_end_signal 5) two_pages_seller).
  vm_compute. reflexivity.
Defined.

Lemma seller_ends_last pages : ∀ collected,
  seller_ends collected pages →
  ∃ p, pages !! (length pages - 1)%nat = Some p
       ∧ Seller.total p = (collected + Py.len (concat (Seller.items <$> pages)))%Z.
Proof.
  induction pages as [|p ps IH]; intros collected Hend; [done|].
  cbn [seller_ends] in Hend. destruct ps as [|p' ps'].
  - exists p. split; [done|]. simpl. by rewrite app_nil_r.
  - destruct Hend as [_ Hend]. destruct (IH _ Hend) as (q & Hq & Htotal).
    exists q. split.
    + simpl in *. by rewrite Nat.sub_0_r in Hq.
    + rewrite Htotal. cbn [fmap list_fmap concat]. rewrite !len_app. lia.
Qed.

(** X9.  Whenever the seller's [get_offer_ids] returns, the number of
    identifiers in the list it returns is the total reported by the last
    page the platform sent. *)
Theorem seller_get_offer_ids_count (fuel : nat) (σ σ' : Seller.W) (l : loc) :
  Seller.get_offer_ids fuel σ = Done (l, σ') →
  ∃ ids p,
    heap σ' !! l = Some ids
    ∧ replies σ (length (sent σ') - 1)%nat = Ok (Seller.ProductListResult p)
    ∧ Py.len ids = Seller.total p.
Proof.
  unfold Seller.get_offer_ids. intros (pl & σ1 & Hloop & Hnew)%bind_inv.
  apply seller_loop_inv in Hloop as (pages & Hs & Hend & Hlen & -> & ->).
  rewrite (foldl_snoc_map Seller.p_offer_id) in Hnew. injection Hnew as <- <-.
  destruct (seller_ends_last _ _ Hend) as (p & Hp & Htotal).
  eexists _, p. split_and!.
  - cbn [store set_heap heap]. apply lookup_insert_eq.
  - cbn [store set_heap sends sent]. unfold seller_calls.
    rewrite length_app, length_reverse, length_fmap, length_take, length_cons,
      length_fmap.
    pose proof (lookup_lt_Some _ _ _ Hp) as Hlt.
    replace (length pages `min` S (length pages) + length (sent σ) - 1)%nat
      with (length (sent σ) + (length pages - 1))%nat by lia.
    apply Hs. by rewrite list_lookup_fmap, Hp.
  - rewrite Htotal. unfold Py.len. simpl. rewrite !length_fmap. lia.
Qed.

Lemma seller_get_offer_ids_count_witness :
  ∃ ids p,
    heap (World {[1%positive := ["A1"; "A2"; "A3"]%string]} noon
            (replies two_pages_seller)
            [Seller.ProductList "ALL" "t1" 1000; Seller.ProductList "ALL" "" 1000])
      !! 1%positive = Some ids
    ∧ replies two_pages_seller 1 = Ok (Seller.ProductListResult p)
    ∧ Py.len ids = Seller.total p.
Proof.
  apply (seller_get_offer_ids_count 2 two_pages_seller
           (World {[1%positive := ["A1"; "A2"; "A3"]%string]} noon
              (replies two_pages_seller)
              [Seller.ProductList "ALL" "t1" 1000; Seller.ProductList "ALL" "" 1000])).
  vm_compute. reflexivity.
Defined.

Lemma seller_loop_open_run pages : ∀ (σ : Seller.W) last_id acc fuel,
  serves σ (Seller.ProductListResult <$> pages) →
  seller_open (Py.len acc) pages →
  (fuel ≤ length pages → Seller.get_offer_ids_loop fuel last_id acc σ = OutOfFuel)
  ∧ (∀ e, replies σ (length (sent σ) + length pages) = Err e →
          length pages < fuel →
          Seller.get_offer_ids_loop fuel last_id acc σ
          = Raised e (sends (seller_attempts last_id pages) σ)).
Proof.
  induction pages as [|p ps IH]; intros σ last_id acc fuel Hs Hopen.
  - split.
    + intros Hfuel. by replace fuel with 0%nat by (simpl in *; lia).
    + intros e He Hfuel. destruct fuel as [|fuel]; [simpl in *; lia|].
      cbn [Seller.get_offer_ids_loop]. unfold Seller.get_product_list, request.
      rewrite Nat.add_0_r in He. by rewrite !bind_run, He.
  - destruct fuel as [|fuel]; [split; [done|simpl; lia]|].
    rewrite fmap_cons in Hs.
    destruct (request_run σ (Seller.ProductList "ALL" last_id 1000) _ _ Hs)
      as [Hrq Hs'].
    cbn [seller_open] in Hopen. rewrite <- len_app in Hopen.
    destruct Hopen as [Hne Hopen].
    assert (Seller.get_offer_ids_loop (S fuel) last_id acc σ
            = Seller.get_offer_ids_loop fuel (Seller.last_id p)
                (acc ++ Seller.items p)
                (sends [Seller.ProductList "ALL" last_id 1000] σ)) as ->.
    { cbn [Seller.get_offer_ids_loop]. unfold Seller.get_product_list.
      rewrite !bind_run, Hrq. unfold mret at 1, M_ret at 1.
      by destruct (Z.eqb_spec (Seller.total p) (Py.len (acc ++ Seller.items p))). }
    destruct (IH (sends [Seller.ProductList "ALL" last_id 1000] σ)
                (Seller.last_id p) (acc ++ Seller.items p) fuel Hs' Hopen)
      as [Hout Herr].
    split.
    + intros Hfuel. apply Hout. simpl in Hfuel. lia.
    + intros e He Hfuel. rewrite (Herr e).
      * by rewrite sends_sends.
      * simpl. rewrite <- He. f_equal. simpl. lia.
      * simpl in Hfuel. lia.
Qed.

Lemma market_loop_open_run pages : ∀ (σ : Market.W) page acc fuel,
  serves σ (Market.EntriesResult <$> pages) →
  market_open pages →
  (fuel ≤ length pages → Market.get_offer_ids_loop fuel page acc σ = OutOfFuel)
  ∧ (∀ e, replies σ (length (sent σ) + length pages) = Err e →
          length pages < fuel →
          Market.get_offer_ids_loop fuel page acc σ
          = Raised e (sends (market_attempts page pages) σ)).
Proof.
  induction pages as [|p ps IH]; intros σ page acc fuel Hs Hopen.
  - split.
    + intros Hfuel. by replace fuel with 0%nat by (simpl in *; lia).
    + intros e He Hfuel. destruct fuel as [|fuel]; [simpl in *; lia|].
      cbn [Market.get_offer_ids_loop]. unfold Market.get_product_list, request.
      rewrite Nat.add_0_r in He. by rewrite !bind_run, He.
  - destruct fuel as [|fuel]; [split; [done|simpl; lia]|].
    rewrite fmap_cons in Hs.
    destruct (request_run σ (Market.OfferMappingEntries page 200) _ _ Hs)
      as [Hrq Hs'].
    apply Forall_cons in Hopen as [Hne Hopen].
    assert (Market.get_offer_ids_loop (S fuel) page acc σ
            = Market.get_offer_ids_loop fuel
                (Market.nextPageToken (Market.paging p))
                (acc ++ Market.offerMappingEntries p)
                (sends [Market.OfferMappingEntries page 200] σ)) as ->.
    { cbn [Market.get_offer_ids_loop]. unfold Market.get_product_list.
      rewrite !bind_run, Hrq. unfold mret at 1, M_ret at 1. by rewrite Hne. }
    destruct (IH (sends [Market.OfferMappingEntries page 200] σ)
                (Market.nextPageToken (Market.paging p))
                (acc ++ Market.offerMappingEntries p) fuel Hs' Hopen)
      as [Hout Herr].
    split.
    + intros Hfuel. apply Hout. simpl in Hfuel. lia.
    + intros e He Hfuel. rewrite (Herr e).
      * by rewrite sends_sends.
      * simpl. rewrite <- He. f_equal. simpl. lia.
      * simpl in Hfuel. lia.
Qed.

(** X10.  A request of the listing that fails, after pages none of which
    carried the end signal, ends [get_offer_ids] with that very error.
    The requests made are one for each page and the failing one, which is
    not repeated; nothing else is sent, and no list object is created. *)
Theorem get_offer_ids_aborts_on_error :
  (∀ (pages : list Seller.product_page) (σ : Seller.W) e fuel,
      serves σ (Seller.ProductListResult <$> pages) →
      seller_open 0 pages →
      replies σ (length (sent σ) + length pages) = Err e →
      length pages < fuel →
      Seller.get_offer_ids fuel σ
      = Raised e (sends (seller_attempts "" pages) σ))
  ∧ (∀ (pages : list Market.entries_page) (σ : Market.W) e fuel,
      serves σ (Market.EntriesResult <$> pages) →
      market_open pages →
      replies σ (length (sent σ) + length pages) = Err e →
      length pages < fuel →
      Market.get_offer_ids fuel σ
      = Raised e (sends (market_attempts (Some EmptyString) pages) σ)).
Proof.
  split.
  - intros pages σ e fuel Hs Hopen He Hfuel. unfold Seller.get_offer_ids.
    rewrite bind_run.
    by rewrite (proj2 (seller_loop_open_run pages σ "" [] fuel Hs Hopen) e He Hfuel).
  - intros pages σ e fuel Hs Hopen He Hfuel. unfold Market.get_offer_ids.
    rewrite bind_run.
    by rewrite (proj2 (market_loop_open_run pages σ (Some EmptyString) [] fuel
                         Hs Hopen) e He Hfuel).
Qed.

Lemma get_offer_ids_aborts_on_error_witness :
  Seller.get_offer_ids 7 failing_seller
  = Raised HTTPError
      (World ∅ noon (replies failing_seller)
         [Seller.ProductList "ALL" "t1" 1000; Seller.ProductList "ALL" "" 1000]).
Proof.
  apply (proj1 get_offer_ids_aborts_on_error
           [Seller.ProductPage [Seller.Product 1 "A1"] 3 "t1"] failing_seller).
  - intros [|i] r Hr; [by injection Hr as <-|done].
  - simpl. split; [discriminate|exact I].
  - reflexivity.
  - simpl. lia.
Defined.

(** X11.  On a platform that never sends the end signal the listing never
    returns: when every finite run of its replies is pages without the
    signal, no bound on the iterations gives a result. *)
Theorem get_offer_ids_never_returns :
  (∀ σ : Seller.W,
      (∀ k, ∃ pages, length pages = k
                     ∧ serves σ (Seller.ProductListResult <$> pages)
                     ∧ seller_open 0 pages) →
      ∀ fuel, Seller.get_offer_ids fuel σ = OutOfFuel)
  ∧ (∀ σ : Market.W,
      (∀ k, ∃ pages, length pages = k
                     ∧ serves σ (Market.EntriesResult <$> pages)
                     ∧ market_open pages) →
      ∀ fuel, Market.get_offer_ids fuel σ = OutOfFuel).
Proof.
  split.
  - intros σ Hall fuel. destruct (Hall fuel) as (pages & Hlen & Hs & Hopen).
    unfold Seller.get_offer_ids. rewrite bind_run.
    rewrite (proj1 (seller_loop_open_run pages σ "" [] fuel Hs Hopen)); [done|lia].
  - intros σ Hall fuel. destruct (Hall fuel) as (pages & Hlen & Hs & Hopen).
    unfold Market.get_offer_ids. rewrite bind_run.
    rewrite (proj1 (market_loop_open_run pages σ (Some EmptyString) [] fuel
                      Hs Hopen)); [done|lia].
Qed.

Lemma get_offer_ids_never_returns_witness :
  Market.get_offer_ids 50 endless_market = OutOfFuel.
Proof.
  refine (proj2 get_offer_ids_never_returns endless_market _ 50).
  intros k.
  exists (replicate k (Market.EntriesPage [Market.MappingEntry (Market.Offer "A1")]
                         (Market.Paging (Some "next"%string)))).
  split_and!.
  - apply length_replicate.
  - intros i r Hr. rewrite list_lookup_fmap in Hr.
    destruct (replicate k _ !! i) as [p|] eqn:Hp; [|done].
    apply lookup_replicate in Hp as [-> _]. by injection Hr as <-.
  - apply Forall_replicate. reflexivity.
Defined.

(** ** Uploads: what is sent *)

Lemma divide_ok {A} (lst : list A) (n : Z) :
  (1 ≤ n)%Z →
  ∃ chunks, divide lst n = Ok chunks
            ∧ concat chunks = lst
            ∧ Forall (λ c, c ≠ [] ∧ (Py.len c ≤ n)%Z) chunks.
Proof.
  intros Hn. eexists. split; [by apply divide_unfold|].
  destruct (range_length_pos (Py.len lst) n Hn ltac:(unfold Py.len; lia))
    as (Hm0 & Hall & Hlast & _).
  unfold Py.len in *. split.
  - rewrite concat_chunks. apply take_ge. nia.
  - apply Forall_lookup. intros i c Hc. apply chunk_lookup in Hc as [Hi ->].
    split.
    + intros Hnil%(f_equal length). revert Hnil.
      rewrite length_take, length_drop. simpl. nia.
    + rewrite length_take. lia.
Qed.

Lemma market_get_offer_ids_inv fuel (σ σ1 : Market.W) l :
  Market.get_offer_ids fuel σ = Done (l, σ1) → ∃ ids, heap σ1 !! l = Some ids.
Proof.
  unfold Market.get_offer_ids. intros (pl & σ0 & _ & Hnew)%bind_inv.
  injection Hnew as <- <-. eexists. apply store_lookup.
Qed.

Lemma market_create_prices_frame w l ids (σ σ' : Market.W) prices :
  heap σ !! l = Some ids →
  Market.create_prices w l σ = Done (prices, σ') → σ' = σ.
Proof.
  intros Hl. unfold Market.create_prices.
  rewrite (market_prices_loop_run _ _ _ _ _ Hl).
  destruct (map_r market_price_row _); [|done]. by intros [= _ <-].
Qed.

(** X12.  Whenever [upload_prices] returns, it returns the price records
    that [create_prices] makes for the offer ids just listed, and after
    the listing it has sent these records, each once and in order, in
    requests of at most 1000 records on the seller platform and of at
    most 500 on the market platform, none of them empty. *)
Theorem upload_prices_sends_chunks (fuel : nat) (w : list watch) :
  (∀ (σ σ' : Seller.W) prices,
      Seller.upload_prices fuel w σ = Done (prices, σ') →
      ∃ l σ1 chunks,
        Seller.get_offer_ids fuel σ = Done (l, σ1)
        ∧ Seller.create_prices w l σ1 = Done (prices, σ1)
        ∧ concat chunks = prices
        ∧ Forall (λ c, c ≠ [] ∧ (Py.len c ≤ 1000)%Z) chunks
        ∧ σ' = sends (Seller.ImportPrices <$> chunks) σ1)
  ∧ (∀ (σ σ' : Market.W) prices,
      Market.upload_prices fuel w σ = Done (prices, σ') →
      ∃ l σ1 chunks,
        Market.get_offer_ids fuel σ = Done (l, σ1)
        ∧ Market.create_prices w l σ1 = Done (prices, σ1)
        ∧ concat chunks = prices
        ∧ Forall (λ c, c ≠ [] ∧ (Py.len c ≤ 500)%Z) chunks
        ∧ σ' = sends (Market.PostPrices <$> chunks) σ1).
Proof.
  split.
  - intros σ σ' prices. unfold Seller.upload_prices.
    intros (l & σ1 & Hids & Hrest)%bind_inv.
    apply bind_inv in Hrest as (prices' & σ2 & Hprices & Hrest).
    pose proof (seller_create_prices_frame _ _ _ _ _ Hprices) as ->.
    apply bind_inv in Hrest as (chunks & σ3 & Hchunks & Hrest).
    destruct (divide_ok prices' 1000 ltac:(done)) as (chunks' & Hdiv & Hcat & Hall).
    unfold lift in Hchunks. rewrite Hdiv in Hchunks. injection Hchunks as <- <-.
    apply bind_inv in Hrest as (? & σ4 & Hsent & [= <- <-]).
    unfold Seller.update_price in Hsent.
    apply (for_each_request_inv Seller.ImportPrices) in Hsent as ->.
    by exists l, σ1, chunks'.
  - intros σ σ' prices. unfold Market.upload_prices.
    intros (l & σ1 & Hids & Hrest)%bind_inv.
    apply bind_inv in Hrest as (prices' & σ2 & Hprices & Hrest).
    destruct (market_get_offer_ids_inv _ _ _ _ Hids) as [ids Hl].
    pose proof (market_create_prices_frame _ _ _ _ _ _ Hl Hprices) as ->.
    apply bind_inv in Hrest as (chunks & σ3 & Hchunks & Hrest).
    destruct (divide_ok prices' 500 ltac:(done)) as (chunks' & Hdiv & Hcat & Hall).
    unfold lift in Hchunks. rewrite Hdiv in Hchunks. injection Hchunks as <- <-.
    apply bind_inv in Hrest as (? & σ4 & Hsent & [= <- <-]).
    unfold Market.update_price in Hsent.
    apply (for_each_request_inv Market.PostPrices) in Hsent as ->.
    by exists l, σ1, chunks'.
Qed.

Lemma upload_prices_sends_chunks_witness :
  ∃ l σ1 chunks,
    Seller.get_offer_ids 2 two_pages_seller = Done (l, σ1)
    ∧ Seller.create_prices scenario_inventory l σ1
      = Done ([Seller.Price "UNKNOWN" "RUB" "A1" "0" "100";
               Seller.Price "UNKNOWN" "RUB" "A2" "0" "50"], σ1)
    ∧ concat chunks = [Seller.Price "UNKNOWN" "RUB" "A1" "0" "100";
                       Seller.Price "UNKNOWN" "RUB" "A2" "0" "50"]
    ∧ Forall (λ c, c ≠ [] ∧ (Py.len c ≤ 1000)%Z) chunks
    ∧ World {[1%positive := ["A1"; "A2"; "A3"]%string]} noon
        (replies two_pages_seller)
        [Seller.ImportPrices [Seller.Price "UNKNOWN" "RUB" "A1" "0" "100";
                              Seller.Price "UNKNOWN" "RUB" "A2" "0" "50"];
         Seller.ProductList "ALL" "t1" 1000; Seller.ProductList "ALL" "" 1000]
      = sends (Seller.ImportPrices <$> chunks) σ1.
Proof.
  apply (proj1 (upload_prices_sends_chunks 2 scenario_inventory) two_pages_seller).
  vm_compute. reflexivity.
Defined.

(** X13.  Whenever [upload_stocks] returns, after listing and
    reconciliation it has sent the stock records, each once and in order,
    in requests of at most 100 records on the seller platform and of at
    most 2000 on the market platform, none of them empty, and nothing
    else. *)
Theorem upload_stocks_sends_chunks (fuel : nat) (w : list watch) :
  (∀ (σ σ' : Seller.W) not_empty stocks,
      Seller.upload_stocks fuel w σ = Done ((not_empty, stocks), σ') →
      ∃ l σ1 σ2 chunks,
        Seller.get_offer_ids fuel σ = Done (l, σ1)
        ∧ Seller.create_stocks w l σ1 = Done (stocks, σ2)
        ∧ concat chunks = stocks
        ∧ Forall (λ c, c ≠ [] ∧ (Py.len c ≤ 100)%Z) chunks
        ∧ σ' = sends (Seller.ImportStocks <$> chunks) σ2)
  ∧ (∀ wh (σ σ' : Market.W) not_empty stocks,
      Market.upload_stocks fuel w wh σ = Done ((not_empty, stocks), σ') →
      ∃ l σ1 σ2 chunks,
        Market.get_offer_ids fuel σ = Done (l, σ1)
        ∧ Market.create_stocks w l wh σ1 = Done (stocks, σ2)
        ∧ concat chunks = stocks
        ∧ Forall (λ c, c ≠ [] ∧ (Py.len c ≤ 2000)%Z) chunks
        ∧ σ' = sends (Market.PutStocks <$> chunks) σ2).
Proof.
  split.
  - intros σ σ' not_empty stocks. unfold Seller.upload_stocks.
    intros (l & σ1 & Hids & Hrest)%bind_inv.
    apply bind_inv in Hrest as (stocks' & σ2 & Hstocks & Hrest).
    apply bind_inv in Hrest as (chunks & σ3 & Hchunks & Hrest).
    destruct (divide_ok stocks' 100 ltac:(done)) as (chunks' & Hdiv & Hcat & Hall).
    unfold lift in Hchunks. rewrite Hdiv in Hchunks. injection Hchunks as <- <-.
    apply bind_inv in Hrest as (? & σ4 & Hsent & [= _ <- <-]).
    unfold Seller.update_stocks in Hsent.
    apply (for_each_request_inv Seller.ImportStocks) in Hsent as ->.
    by exists l, σ1, σ2, chunks'.
  - intros wh σ σ' not_empty stocks. unfold Market.upload_stocks.
    intros (l & σ1 & Hids & Hrest)%bind_inv.
    apply bind_inv in Hrest as (stocks' & σ2 & Hstocks & Hrest).
    apply bind_inv in Hrest as (chunks & σ3 & Hchunks & Hrest).
    destruct (divide_ok stocks' 2000 ltac:(done)) as (chunks' & Hdiv & Hcat & Hall).
    unfold lift in Hchunks. rewrite Hdiv in Hchunks. injection Hchunks as <- <-.
    apply bind_inv in Hrest as (? & σ4 & Hsent & Hrest).
    apply bind_inv in Hrest as (ne & σ5 & Hfilter & [= _ <- <-]).
    unfold lift in Hfilter. destruct (Py.filter_r _ stocks'); [|done].
    injection Hfilter as _ <-.
    unfold Market.update_stocks in Hsent.
    apply (for_each_request_inv Market.PutStocks) in Hsent as ->.
    by exists l, σ1, σ2, chunks'.
Qed.

Lemma upload_stocks_sends_chunks_witness :
  ∃ l σ1 σ2 chunks,
    Seller.get_offer_ids 2 two_pages_seller = Done (l, σ1)
    ∧ Seller.create_stocks scenario_inventory l σ1
      = Done ([Seller.Stock "A1" 100; Seller.Stock "A2" 0; Seller.Stock "A3" 0], σ2)
    ∧ concat chunks
      = [Seller.Stock "A1" 100; Seller.Stock "A2" 0; Seller.Stock "A3" 0]
    ∧ Forall (λ c, c ≠ [] ∧ (Py.len c ≤ 100)%Z) chunks
    ∧ World {[1%positive := ["A3"%string]]} noon (replies two_pages_seller)
        [Seller.ImportStocks
           [Seller.Stock "A1" 100; Seller.Stock "A2" 0; Seller.Stock "A3" 0];
         Seller.ProductList "ALL" "t1" 1000;
         Seller.ProductList "ALL" "" 1000]
      = sends (Seller.ImportStocks <$> chunks) σ2.
Proof.
  apply (proj1 (upload_stocks_sends_chunks 2 scenario_inventory) two_pages_seller
           _ [Seller.Stock "A1" 100]).
  vm_compute. reflexivity.
Defined.

Section ForEachError.
Context {Rq Rp A : Type} (mk : A → Rq).
Implicit Types (σ : world Rq Rp) (chunks : list A).

Lemma for_each_request_Err chunks : ∀ σ (rs : list Rp) e,
  serves σ rs → length rs < length chunks →
  replies σ (length (sent σ) + length rs) = Err e →
  for_each (λ c, _ ← request (Rp:=Rp) (mk c); mret ()) chunks σ
  = Raised e (sends (mk <$> take (S (length rs)) chunks) σ).
Proof.
  induction chunks as [|c cs IH]; intros σ rs e Hs Hlen He; cbn [for_each].
  - simpl in Hlen. lia.
  - destruct rs as [|r rs].
    + unfold request. rewrite !bind_run. simpl in He.
      rewrite Nat.add_0_r in He. by rewrite He.
    + destruct (request_run σ (mk c) r rs Hs) as [Hrq Hs'].
      rewrite !bind_run, Hrq. unfold mret at 1, M_ret at 1.
      rewrite (IH _ rs e Hs').
      * by rewrite sends_sends.
      * simpl in Hlen. lia.
      * simpl. rewrite <- He. f_equal. simpl. lia.
Qed.

End ForEachError.

(** X14.  When the platform refuses one of the chunks of stock records,
    the chunks before it accepted, [upload_stocks] ends with the error of
    that request.  After the listing and the reconciliation, the requests
    made are the accepted chunks and the refused one, in order: the
    refused chunk is not sent again and the chunks after it are not
    sent. *)
Theorem upload_stocks_chunk_refused (fuel : nat) (w : list watch) :
  (∀ (σ σ1 σ2 : Seller.W) l stocks chunks rs e,
      Seller.get_offer_ids fuel σ = Done (l, σ1) →
      Seller.create_stocks w l σ1 = Done (stocks, σ2) →
      divide stocks 100 = Ok chunks →
      serves σ2 rs → length rs < length chunks →
      replies σ2 (length (sent σ2) + length rs) = Err e →
      Seller.upload_stocks fuel w σ
      = Raised e (sends (Seller.ImportStocks <$> take (S (length rs)) chunks) σ2))
  ∧ (∀ wh (σ σ1 σ2 : Market.W) l stocks chunks rs e,
      Market.get_offer_ids fuel σ = Done (l, σ1) →
      Market.create_stocks w l wh σ1 = Done (stocks, σ2) →
      divide stocks 2000 = Ok chunks →
      serves σ2 rs → length rs < length chunks →
      replies σ2 (length (sent σ2) + length rs) = Err e →
      Market.upload_stocks fuel w wh σ
      = Raised e (sends (Market.PutStocks <$> take (S (length rs)) chunks) σ2)).
Proof.
  split.
  - intros σ σ1 σ2 l stocks chunks rs e Hids Hstocks Hchunks Hs Hlen He.
    unfold Seller.upload_stocks.
    rewrite (bind_done _ _ _ _ _ Hids), (bind_done _ _ _ _ _ Hstocks).
    rewrite bind_run. unfold lift at 1. rewrite Hchunks, bind_run.
    unfold Seller.update_stocks.
    by rewrite (for_each_request_Err Seller.ImportStocks chunks σ2 rs e Hs Hlen He).
  - intros wh σ σ1 σ2 l stocks chunks rs e Hids Hstocks Hchunks Hs Hlen He.
    unfold Market.upload_stocks.
    rewrite (bind_done _ _ _ _ _ Hids), (bind_done _ _ _ _ _ Hstocks).
    rewrite bind_run. unfold lift at 1. rewrite Hchunks, bind_run.
    unfold Market.update_stocks.
    by rewrite (for_each_request_Err Market.PutStocks chunks σ2 rs e Hs Hlen He).
Qed.

Lemma upload_stocks_chunk_refused_witness :
  Seller.upload_stocks 1 scenario_inventory refusing_seller
  = Raised HTTPError
      (World {[1%positive := []]} noon (replies refusing_seller)
         [Seller.ImportStocks [Seller.Stock "A1" 100];
          Seller.ProductList "ALL" "" 1000]).
Proof.
  apply (proj1 (upload_stocks_chunk_refused 1 scenario_inventory) refusing_seller
           (store 1%positive ["A1"%string]
              (sends [Seller.ProductList "ALL" "" 1000] refusing_seller))
           (store 1%positive []
              (store 1%positive ["A1"%string]
                 (sends [Seller.ProductList "ALL" "" 1000] refusing_seller)))
           1%positive [Seller.Stock "A1" 100] [[Seller.Stock "A1" 100]] []
           HTTPError).
  - vm_compute. reflexivity.
  - vm_compute. reflexivity.
  - reflexivity.
  - intros i r Hr. done.
  - simpl. lia.
  - reflexivity.
Defined.

(** ** An empty catalogue *)

Lemma seller_get_offer_ids_run pages (σ : Seller.W) fuel :
  serves σ (Seller.ProductListResult <$> pages) → seller_ends 0 pages →
  length pages ≤ fuel →
  Seller.get_offer_ids fuel σ
  = Done (fresh (dom (heap σ)),
          store (fresh (dom (heap σ)))
            (Seller.p_offer_id <$> concat (Seller.items <$> pages))
            (sends (seller_calls "" pages) σ)).
Proof.
  intros Hs Hend Hfuel. unfold Seller.get_offer_ids.
  rewrite bind_run, (seller_loop_run pages σ "" [] fuel Hs Hend).
  rewrite decide_True by done.
  by rewrite (foldl_snoc_map Seller.p_offer_id).
Qed.

Lemma market_get_offer_ids_run pages (σ : Market.W) fuel :
  serves σ (Market.EntriesResult <$> pages) → market_ends pages →
  length pages ≤ fuel →
  Market.get_offer_ids fuel σ
  = Done (fresh (dom (heap σ)),
          store (fresh (dom (heap σ)))
            ((λ e, Market.shopSku (Market.offer e))
               <$> concat (Market.offerMappingEntries <$> pages))
            (sends (market_calls (Some EmptyString) pages) σ)).
Proof.
  intros Hs Hend Hfuel. unfold Market.get_offer_ids.
  rewrite bind_run, (market_loop_run pages σ (Some EmptyString) [] fuel Hs Hend).
  rewrite decide_True by done.
  by rewrite (foldl_snoc_map (λ e, Market.shopSku (Market.offer e))).
Qed.

Lemma sweep_no_ids w : sweep w [] = ([], []).
Proof. apply sweep_unlisted. intros x _. apply not_elem_of_nil. Qed.

Lemma filter_no_ids (w : list watch) : filter (λ x, code x ∈ @nil string) w = [].
Proof. apply filter_none. intros x _. apply not_elem_of_nil. Qed.

(** X15.  When the platform lists no product, whatever the inventory
    holds, [upload_stocks] returns two empty lists and [upload_prices] an
    empty list, and the one request each of them has sent is the request
    for the first page of the listing: no update is sent. *)
Theorem upload_of_empty_catalogue (w : list watch) (fuel : nat) :
  1 ≤ fuel →
  (∀ (σ : Seller.W) t,
      replies σ (length (sent σ))
      = Ok (Seller.ProductListResult (Seller.ProductPage [] 0 t)) →
      ∃ l, heap σ !! l = None
        ∧ Seller.upload_stocks fuel w σ
          = Done (([], []), store l [] (sends [Seller.ProductList "ALL" "" 1000] σ))
        ∧ Seller.upload_prices fuel w σ
          = Done ([], store l [] (sends [Seller.ProductList "ALL" "" 1000] σ)))
  ∧ (∀ wh (σ : Market.W) token,
      Market.not_ token = true →
      replies σ (length (sent σ))
      = Ok (Market.EntriesResult (Market.EntriesPage [] (Market.Paging token))) →
      ∃ l, heap σ !! l = None
        ∧ Market.upload_stocks fuel w wh σ
          = Done (([], []),
                  store l [] (sends [Market.OfferMappingEntries (Some EmptyString) 200] σ))
        ∧ Market.upload_prices fuel w σ
          = Done ([], store l []
                        (sends [Market.OfferMappingEntries (Some EmptyString) 200] σ))).
Proof.
  intros Hfuel. split.
  - intros σ t Hr. exists (fresh (dom (heap σ))).
    split; [apply not_elem_of_dom, is_fresh|].
    assert (Seller.get_offer_ids fuel σ
            = Done (fresh (dom (heap σ)),
                    store (fresh (dom (heap σ))) []
                      (sends [Seller.ProductList "ALL" "" 1000] σ))) as Hids.
    { apply (seller_get_offer_ids_run [Seller.ProductPage [] 0 t]); [|done|done].
      apply (serves_cons σ (Seller.ProductList "ALL" "" 1000)); [done|].
      apply serves_nil. }
    split.
    + unfold Seller.upload_stocks. rewrite (bind_done _ _ _ _ _ Hids), bind_run.
      rewrite (seller_create_stocks_run _ _ []) by apply store_lookup.
      unfold matched, remaining. rewrite sweep_no_ids. simpl.
      by rewrite store_store.
    + unfold Seller.upload_prices. rewrite (bind_done _ _ _ _ _ Hids), bind_run.
      unfold Seller.create_prices.
      rewrite (seller_prices_loop_run _ _ []) by apply store_lookup.
      by rewrite filter_no_ids.
  - intros wh σ token Htoken Hr. exists (fresh (dom (heap σ))).
    split; [apply not_elem_of_dom, is_fresh|].
    assert (Market.get_offer_ids fuel σ
            = Done (fresh (dom (heap σ)),
                    store (fresh (dom (heap σ))) []
                      (sends [Market.OfferMappingEntries (Some EmptyString) 200] σ)))
      as Hids.
    { apply (market_get_offer_ids_run [Market.EntriesPage [] (Market.Paging token)]);
        [|done|done].
      apply (serves_cons σ (Market.OfferMappingEntries (Some EmptyString) 200));
        [done|].
      apply serves_nil. }
    split.
    + unfold Market.upload_stocks. rewrite (bind_done _ _ _ _ _ Hids), bind_run.
      rewrite (market_create_stocks_run _ _ _ []) by apply store_lookup.
      unfold matched, remaining. rewrite sweep_no_ids. simpl.
      by rewrite store_store.
    + unfold Market.upload_prices. rewrite (bind_done _ _ _ _ _ Hids), bind_run.
      unfold Market.create_prices.
      rewrite (market_prices_loop_run _ _ []) by apply store_lookup.
      by rewrite filter_no_ids.
Qed.

Lemma upload_of_empty_catalogue_witness :
  ∃ l, heap empty_seller !! l = None
    ∧ Seller.upload_stocks 3 [watch_A; watch_bad] empty_seller
      = Done (([], []),
              store l [] (sends [Seller.ProductList "ALL" "" 1000] empty_seller))
    ∧ Seller.upload_prices 3 [watch_A; watch_bad] empty_seller
      = Done ([], store l [] (sends [Seller.ProductList "ALL" "" 1000] empty_seller)).
Proof.
  refine (proj1 (upload_of_empty_catalogue [watch_A; watch_bad] 3 _)
            empty_seller "" _).
  - lia.
  - reflexivity.
Defined.

(** ** The entry points and the prices *)

Lemma seller_listing_calls fuel (σ σ1 : Seller.W) l :
  Seller.get_offer_ids fuel σ = Done (l, σ1) →
  ∃ calls, sent σ1 = calls ++ sent σ ∧ Forall (λ c, is_price_call c = false) calls.
Proof.
  unfold Seller.get_offer_ids. intros (pl & σ0 & Hloop & Hnew)%bind_inv.
  apply seller_loop_inv in Hloop as (pages & _ & _ & _ & _ & ->).
  injection Hnew as _ <-. eexists. split; [reflexivity|].
  apply Forall_reverse, Forall_fmap, Forall_forall. by intros t _.
Qed.

Lemma market_listing_calls fuel (σ σ1 : Market.W) l :
  Market.get_offer_ids fuel σ = Done (l, σ1) →
  ∃ calls, sent σ1 = calls ++ sent σ ∧ Forall (λ c, is_post_prices c = false) calls.
Proof.
  unfold Market.get_offer_ids. intros (pl & σ0 & Hloop & Hnew)%bind_inv.
  apply market_loop_inv in Hloop as (pages & _ & _ & _ & _ & ->).
  injection Hnew as _ <-. eexists. split; [reflexivity|].
  apply Forall_reverse, Forall_fmap, Forall_forall. by intros t _.
Qed.

Lemma seller_stock_phase fuel w (σ σ1 σ2 σ3 : Seller.W) l stocks chunks u :
  Seller.get_offer_ids fuel σ = Done (l, σ1) →
  Seller.create_stocks w l σ1 = Done (stocks, σ2) →
  for_each (λ some_stock, _ ← Seller.update_stocks some_stock; mret ()) chunks σ2
  = Done (u, σ3) →
  heap σ3 = heap σ2
  ∧ ∃ calls, sent σ3 = calls ++ sent σ ∧ Forall (λ c, is_price_call c = false) calls.
Proof.
  intros Hids Hstocks Hsent.
  destruct (seller_listing_calls _ _ _ _ Hids) as (calls & Hcalls & Hall).
  destruct (seller_create_stocks_bound _ _ _ _ _ Hstocks) as [ids Hl].
  destruct (seller_create_stocks_inv _ _ _ _ _ _ Hl Hstocks) as (_ & _ & _ & ->).
  unfold Seller.update_stocks in Hsent.
  apply (for_each_request_inv Seller.ImportStocks) in Hsent as ->.
  split; [done|].
  exists (reverse (Seller.ImportStocks <$> chunks) ++ calls). split.
  - cbn [sends sent store set_heap]. by rewrite Hcalls, app_assoc.
  - apply Forall_app. split; [|done].
    apply Forall_reverse, Forall_fmap, Forall_forall. by intros c _.
Qed.

Lemma market_stock_phase fuel w wh (σ σ1 σ2 σ3 : Market.W) l stocks chunks u :
  Market.get_offer_ids fuel σ = Done (l, σ1) →
  Market.create_stocks w l wh σ1 = Done (stocks, σ2) →
  for_each (λ some_stock, _ ← Market.update_stocks some_stock; mret ()) chunks σ2
  = Done (u, σ3) →
  ∃ calls, sent σ3 = calls ++ sent σ ∧ Forall (λ c, is_post_prices c = false) calls.
Proof.
  intros Hids Hstocks Hsent.
  destruct (market_listing_calls _ _ _ _ Hids) as (calls & Hcalls & Hall).
  destruct (market_create_stocks_bound _ _ _ _ _ _ Hstocks) as [ids Hl].
  destruct (market_create_stocks_inv _ _ _ _ _ _ _ Hl Hstocks) as (_ & _ & _ & ->).
  unfold Market.update_stocks in Hsent.
  apply (for_each_request_inv Market.PutStocks) in Hsent as ->.
  exists (reverse (Market.PutStocks <$> chunks) ++ calls). split.
  - cbn [sends sent store set_heap]. by rewrite Hcalls, app_assoc.
  - apply Forall_app. split; [|done].
    apply Forall_reverse, Forall_fmap, Forall_forall. by intros c _.
Qed.

(** X16.  In the [try] block of the seller's [main] the prices are made
    from the offer-id list that [create_stocks] has just emptied of every
    matched code: when the listed offer ids are distinct and the block
    runs to its end, the price list is empty and no price request has
    been sent. *)
Theorem seller_main_sends_no_price (fuel : nat) (w : list watch)
    (σ σ1 σ' : Seller.W) (l : loc) (ids : list string) stocks prices :
  Seller.main_try fuel w σ = Done ((stocks, prices), σ') →
  Seller.get_offer_ids fuel σ = Done (l, σ1) →
  heap σ1 !! l = Some ids →
  NoDup ids →
  prices = []
  ∧ ∃ calls, sent σ' = calls ++ sent σ
             ∧ Forall (λ c, is_price_call c = false) calls.
Proof.
  intros Hrun Hids Hl Hnd. unfold Seller.main_try in Hrun.
  rewrite (bind_done _ _ _ _ _ Hids) in Hrun.
  apply bind_inv in Hrun as (stocks' & σ2 & Hstocks & Hrun).
  apply bind_inv in Hrun as (chunks & σ2' & Hchunks & Hrun).
  unfold lift in Hchunks. destruct (divide stocks' 100); [|done].
  injection Hchunks as <- <-.
  apply bind_inv in Hrun as (u & σ3 & Hsent & Hrun).
  destruct (seller_stock_phase _ _ _ _ _ _ _ _ _ _ Hids Hstocks Hsent)
    as (Hheap & calls & Hcalls & Hall).
  destruct (seller_create_stocks_inv _ _ _ _ _ _ Hl Hstocks) as (_ & _ & _ & ->).
  apply bind_inv in Hrun as (prices' & σ4 & Hprices & Hrun).
  unfold Seller.create_prices in Hprices.
  rewrite (seller_prices_loop_run _ _ (remaining w ids)) in Hprices
    by (rewrite Hheap; apply store_lookup).
  rewrite filter_none in Hprices by (intros row Hrow; by apply remaining_no_code).
  injection Hprices as <- <-.
  apply bind_inv in Hrun as (chunks' & σ5 & Hchunks' & Hrun).
  injection Hchunks' as <- <-.
  apply bind_inv in Hrun as (u' & σ6 & Hsent' & [= <- <- <-]).
  injection Hsent' as _ <-. eauto.
Qed.

Lemma seller_main_sends_no_price_witness :
  [] = @nil Seller.price_record
  ∧ ∃ calls,
      [Seller.ImportStocks
         [Seller.Stock "A1" 100; Seller.Stock "A2" 0; Seller.Stock "A3" 0];
       Seller.ProductList "ALL" "t1" 1000;
       Seller.ProductList "ALL" "" 1000] = calls ++ sent two_pages_seller
      ∧ Forall (λ c, is_price_call c = false) calls.
Proof.
  refine (seller_main_sends_no_price 2 scenario_inventory two_pages_seller
            (World {[1%positive := scenario_ids]} noon (replies two_pages_seller)
               [Seller.ProductList "ALL" "t1" 1000; Seller.ProductList "ALL" "" 1000])
            (World {[1%positive := ["A3"%string]]} noon (replies two_pages_seller)
               [Seller.ImportStocks
                  [Seller.Stock "A1" 100; Seller.Stock "A2" 0; Seller.Stock "A3" 0];
                Seller.ProductList "ALL" "t1" 1000;
                Seller.ProductList "ALL" "" 1000])
            1%positive scenario_ids
            [Seller.Stock "A1" 100; Seller.Stock "A2" 0; Seller.Stock "A3" 0] []
            _ _ _ _).
  - vm_compute. reflexivity.
  - vm_compute. reflexivity.
  - reflexivity.
  - repeat (apply NoDup_cons; split;
            [apply contains_false; reflexivity|]).
    apply NoDup_nil_2.
Defined.

(** X17.  The [try] block of the market's [main] calls [upload_prices]
    without awaiting it, so none of its body runs: when the block runs to
    its end, every request it has sent is a listing request or a stock
    update, and no price update has been sent. *)
Theorem market_main_sends_no_price (fuel : nat) (w : list watch)
    (warehouse_fbs_id warehouse_dbs_id : string) (σ σ' : Market.W) :
  Market.main_try fuel w warehouse_fbs_id warehouse_dbs_id σ = Done ((), σ') →
  ∃ calls, sent σ' = calls ++ sent σ
           ∧ Forall (λ c, is_post_prices c = false) calls.
Proof.
  unfold Market.main_try. intros (l & σ1 & Hids & Hrun)%bind_inv.
  apply bind_inv in Hrun as (stocks & σ2 & Hstocks & Hrun).
  apply bind_inv in Hrun as (chunks & σ2' & Hchunks & Hrun).
  unfold lift in Hchunks. destruct (divide stocks 2000); [|done].
  injection Hchunks as <- <-.
  apply bind_inv in Hrun as (u & σ3 & Hsent & Hrun).
  destruct (market_stock_phase _ _ _ _ _ _ _ _ _ _ _ Hids Hstocks Hsent)
    as (calls1 & Hcalls1 & Hall1).
  apply bind_inv in Hrun as (co & σ3' & [= _ <-] & Hrun).
  apply bind_inv in Hrun as (l' & σ4 & Hids' & Hrun).
  apply bind_inv in Hrun as (stocks' & σ5 & Hstocks' & Hrun).
  apply bind_inv in Hrun as (chunks' & σ5' & Hchunks' & Hrun).
  unfold lift in Hchunks'. destruct (divide stocks' 2000); [|done].
  injection Hchunks' as <- <-.
  apply bind_inv in Hrun as (u' & σ6 & Hsent' & Hrun).
  destruct (market_stock_phase _ _ _ _ _ _ _ _ _ _ _ Hids' Hstocks' Hsent')
    as (calls2 & Hcalls2 & Hall2).
  apply bind_inv in Hrun as (co' & σ6' & [= _ <-] & [= <-]).
  exists (calls2 ++ calls1). split.
  - by rewrite Hcalls2, Hcalls1, app_assoc.
  - by apply Forall_app.
Qed.

Lemma market_main_sends_no_price_witness :
  ∃ calls,
    [Market.PutStocks
       [Market.Sku "A1" "DBS" [Market.Item 100 "FIT" "2023-07-09T12:00:00Z"]];
     Market.OfferMappingEntries (Some EmptyString) 200;
     Market.PutStocks
       [Market.Sku "A1" "FBS" [Market.Item 100 "FIT" "2023-07-09T12:00:00Z"]];
     Market.OfferMappingEntries (Some EmptyString) 200]
    = calls ++ sent twice_listed_market
    ∧ Forall (λ c, is_post_prices c = false) calls.
Proof.
  apply (market_main_sends_no_price 1 scenario_inventory "FBS" "DBS"
           twice_listed_market
           (World {[1%positive := []; 2%positive := []]} noon
              (replies twice_listed_market)
              [Market.PutStocks
                 [Market.Sku "A1" "DBS"
                    [Market.Item 100 "FIT" "2023-07-09T12:00:00Z"]];
               Market.OfferMappingEntries (Some EmptyString) 200;
               Market.PutStocks
                 [Market.Sku "A1" "FBS"
                    [Market.Item 100 "FIT" "2023-07-09T12:00:00Z"]];
               Market.OfferMappingEntries (Some EmptyString) 200])).
  vm_compute. reflexivity.
Defined.
